(** * Ip_Tables_whitelister: the reconciliation passes of [ip.js] and [tui.js]

    A shallow embedding of the connector and server passes of the two
    programs of the repository, and the properties of the specification
    settled against them.

    - [Module JS]: the JavaScript values the passes work on (the documents
      mapping identifiers to addresses, JSON text, exceptions) and a small
      exception-and-state monad in which the [async] functions are written.
    - [Module Ufw]: the firewall command lines both programs issue, and a
      reference semantics of them on a rule set.
    - [Module Ip]: [ip.js] ([GistManager], [UFWManager], [getDeviceIp],
      [connectorMode], [serverMode]), the plan its loops derive and the
      shape of the trace a pass leaves.
    - [Module Tui]: [tui.js] ([addUFWRule], [removeUFWRule], [updateIP]).
    - [Module Account]: what a pass may do to the store, the firewall and
      the state file, read off its trace.
    - [Module Cli]: the command-line shell of [ip.js] around the passes
      ([SystemChecker], [loadConfig], [saveConfig], the prompts, [mainMenu],
      [retryMenu], the whole of [connectorMode] and [serverMode], [main]).
    - [Module Github]: the gists of an account, and how each program finds
      or creates its store ([findOrCreateGist] of [tui.js], the search and
      [createGist] of [ip.js]).
    - [Module TuiServer]: the server node of [tui.js] ([installPackage],
      [checkAndConfigureSSH], [checkAndConfigureUFW], [updateRules]).
    - [Module TuiSetup]: the configuration object the setup wizard of
      [tui.js] makes.
    - [Module DocFacts], [Module ServerFacts], [Module ConnectorFacts],
      [Module ConnectorClaims], [Module FirewallClaims]: the proofs of the
      specification's properties.
    - [Module AccountFacts], [Module ReferenceFacts], [Module ConnectorMore],
      [Module CliFacts], [Module GithubFacts], [Module TuiServerFacts],
      [Module TuiChecksFacts], [Module TuiSetupFacts]: further properties of the code.

    Scope of the model.  A document is a flat JSON object from identifier
    strings to address strings, given by its entries in [Object.entries]
    order.  Identifiers are node names: keys that shadow members of
    [Object.prototype] ([hasOwnProperty], [__proto__]) are outside the model.
    Terminal colouring, the one-second [delay] between firewall commands and
    wall-clock timestamps are not modelled.  Writing the local state file is
    modelled as succeeding.

    In the shell of [ip.js] a prompt takes the next answer the user has
    queued; a prompt left without an answer (cancelled, or a choice that is
    disabled or not on the menu) gives [undefined].  The port prompt is
    modelled as answered with a number.  The configuration file is absent,
    unreadable, or holds an object with a token and an identifier that are
    strings or missing.  The check commands of [SystemChecker] and the
    validation of a token give the same result each time.  The account of gists is the listing [GET /gists]
    returns, in its order; where the listing places a new gist, and the
    identifier it gets, are left open.  In the server node of [tui.js] the
    machine is any state with any behaviour of the command lines, and the
    user any sequence of menu selections. *)

From Stdlib Require Import String Ascii List Bool NArith Lia.
Import ListNotations.
Local Open Scope string_scope.
Local Open Scope list_scope.

(* ================================================================== *)
(** * JavaScript values *)
(* ================================================================== *)

Module JS.

Definition Identifier := string.
Definition Address := string.

(** A parsed document: the own enumerable properties of the object, in the
    order [Object.entries] lists them. *)
Definition Doc := list (Identifier * Address).

Definition keys (d : Doc) : list Identifier := map fst d.

(** [d[k]] for an own property ([None] stands for [undefined]). *)
Fixpoint prop (d : Doc) (k : Identifier) : option Address :=
  match d with
  | [] => None
  | (k', v) :: d' => if String.eqb k' k then Some v else prop d' k
  end.

(** [d.hasOwnProperty(k)] *)
Definition hasOwnProperty (d : Doc) (k : Identifier) : bool :=
  match prop d k with
  | Some _ => true
  | None => false
  end.

(** An object has one property per key. *)
Fixpoint unique_keys (d : Doc) : bool :=
  match d with
  | [] => true
  | (k, _) :: d' => negb (hasOwnProperty d' k) && unique_keys d'
  end.

(** ** Property order

    An ordinary object lists its array-index keys first, in ascending
    numeric order, then its other string keys in creation order.  An array
    index is a canonical decimal numeral below [2^32 - 1]. *)

Definition digit (c : ascii) : option N :=
  let n := N_of_ascii c in
  if ((48 <=? n) && (n <=? 57))%N then Some (n - 48)%N else None.

Fixpoint digits (s : string) (acc : N) : option N :=
  match s with
  | EmptyString => Some acc
  | String c s' =>
      match digit c with
      | Some d => digits s' (10 * acc + d)%N
      | None => None
      end
  end.

Definition array_index (k : string) : option N :=
  match k with
  | EmptyString => None
  | String "0"%char EmptyString => Some 0%N
  | String "0"%char _ => None
  | _ =>
      match digits k 0 with
      | Some n => if (n <? 4294967295)%N then Some n else None
      | None => None
      end
  end.

(** A key [k] being created is listed before the existing key [k']. *)
Definition listed_before (k k' : string) : bool :=
  match array_index k, array_index k' with
  | Some i, Some j => (i <? j)%N
  | Some _, None => true
  | None, _ => false
  end.

Fixpoint create_prop (d : Doc) (k : Identifier) (v : Address) : Doc :=
  match d with
  | [] => [(k, v)]
  | (k', v') :: d' =>
      if listed_before k k' then (k, v) :: d
      else (k', v') :: create_prop d' k v
  end.

Fixpoint write_prop (d : Doc) (k : Identifier) (v : Address) : Doc :=
  match d with
  | [] => []
  | (k', v') :: d' =>
      if String.eqb k' k then (k', v) :: d'
      else (k', v') :: write_prop d' k v
  end.

(** [d[k] = v]: an existing property keeps its place, a new one is created. *)
Definition set_prop (d : Doc) (k : Identifier) (v : Address) : Doc :=
  if hasOwnProperty d k then write_prop d k v else create_prop d k v.

(** ** JSON text

    The text of [config.json] in the gist, or of the local state file, as
    [JSON.parse] sees it: empty, not JSON at all, or the serialization of
    a document. *)
Inductive Text :=
| EmptyText
| NotJSON
| JSONText (d : Doc).

(** [JSON.stringify(d, null, 2)] *)
Definition JSON_stringify (d : Doc) : Text := JSONText d.

(** ** Exceptions *)

Inductive Exn := Error (message : string).

Definition message (e : Exn) : string :=
  match e with Error m => m end.

(** [JSON.parse(text)] throws a [SyntaxError] on text that is not JSON. *)
Definition JSON_parse (t : Text) : Exn + Doc :=
  match t with
  | EmptyText => inl (Error "JSON Parse error: Unexpected EOF")
  | NotJSON => inl (Error "JSON Parse error: Unexpected identifier")
  | JSONText d => inr d
  end.

(** ** Computations that may throw and that act on a world [W] *)

Definition M (W A : Type) : Type := W -> (Exn + A) * W.

Definition ret {W A} (a : A) : M W A := fun w => (inr a, w).

Definition bind {W A B} (m : M W A) (k : A -> M W B) : M W B :=
  fun w =>
    match m w with
    | (inl e, w') => (inl e, w')
    | (inr a, w') => k a w'
    end.

Definition throw {W A} (e : Exn) : M W A := fun w => (inl e, w).

(** [try { m } catch (e) { h e }] *)
Definition try_catch {W A} (m : M W A) (h : Exn -> M W A) : M W A :=
  fun w =>
    match m w with
    | (inl e, w') => h e w'
    | (inr a, w') => (inr a, w')
    end.

(** A synchronous call that may throw, lifted. *)
Definition lift {W A} (r : Exn + A) : M W A := fun w => (r, w).

(** [for (const x of l) { body x }] *)
Fixpoint for_of {W A} (l : list A) (body : A -> M W unit) : M W unit :=
  match l with
  | [] => ret tt
  | x :: l' => bind (body x) (fun _ => for_of l' body)
  end.

Module Notations.
Declare Scope js_scope.
Delimit Scope js_scope with js.
Notation "x <- m ;; k" := (bind m (fun x => k))
  (at level 61, m at next level, right associativity) : js_scope.
Notation "m ;; k" := (bind m (fun _ => k))
  (at level 61, right associativity) : js_scope.
End Notations.

End JS.

(* ================================================================== *)
(** * The firewall tool *)
(* ================================================================== *)

Module Ufw.
Import JS.

Inductive Action := allow | deny.

(** A rule [<action> from <ip> to any port <port>]. *)
Record Rule := mkRule { action : Action; from : Address; port : N }.

(** The command lines the two programs run through [$`sudo ufw ...`]. *)
Inductive Cmd :=
| rule_add (r : Rule)      (* sudo ufw <action> from <ip> to any port <port> *)
| rule_delete (r : Rule)   (* sudo ufw delete <action> from <ip> to any port <port> *)
| status_numbered.         (* sudo ufw status numbered *)

(** What awaiting the command gives: its output, or a thrown [ShellError]
    when the exit code is not zero. *)
Inductive Exit :=
| Exit0 (stdout : string)
| ShellError (message : string).

Definition action_eqb (a b : Action) : bool :=
  match a, b with
  | allow, allow | deny, deny => true
  | _, _ => false
  end.

Definition rule_eqb (r r' : Rule) : bool :=
  action_eqb (action r) (action r') && String.eqb (from r) (from r')
  && N.eqb (port r) (port r').

(** ** Reference semantics on a rule set

    Adding a rule that is present is skipped; deleting removes the rule
    that matches action, address and port.  Whether deleting a rule that is
    not there is reported as an error is left open ([strict]). *)
Definition Rules := list Rule.

Definition has_rule (rs : Rules) (r : Rule) : bool := existsb (rule_eqb r) rs.

Definition run (strict : bool) (c : Cmd) (rs : Rules) : Exit * Rules :=
  match c with
  | rule_add r =>
      if has_rule rs r then (Exit0 "Skipping adding existing rule", rs)
      else (Exit0 "Rule added", rs ++ [r])
  | rule_delete r =>
      if has_rule rs r
      then (Exit0 "Rule deleted", filter (fun r' => negb (rule_eqb r r')) rs)
      else if strict then (ShellError "Could not delete non-existent rule", rs)
      else (Exit0 "Could not delete non-existent rule", rs)
  | status_numbered => (Exit0 "Status: active", rs)
  end.

(** A firewall that in addition rejects every command naming one of the
    addresses in [bad] (a malformed address, say). *)
Definition rejecting (bad : list Address) (c : Cmd) (rs : Rules) : Exit * Rules :=
  match c with
  | rule_add r | rule_delete r =>
      if existsb (String.eqb (from r)) bad
      then (ShellError "ERROR: Bad source address", rs)
      else run false c rs
  | status_numbered => run false c rs
  end.

End Ufw.

(* ================================================================== *)
(** * ip.js *)
(* ================================================================== *)

Module Ip.
Import JS JS.Notations Ufw.
Local Open Scope js_scope.

(** What the program prints, line by line. *)
Inductive Msg :=
| AddedRule (ip : Address)                 (* Added UFW rule for ${ip} *)
| RemovedRule (ip : Address)               (* Removed UFW rule for ${ip} *)
| Stdout (s : string)                      (* result.stdout of listRules *)
| WarnInvalidJSON                          (* Warning: Invalid JSON in gist, ... *)
| WarnLocalState                           (* Warning: Could not load local state, ... *)
| NoGistFound                              (* No configuration gist found! *)
| AddingNew (domain : Identifier) (ip : Address)
| Updating (domain : Identifier) (old ip : Address)
| NoChange (domain : Identifier) (ip : Address)
| FailedUpdate (domain : Identifier) (msg : string)
| RemovingDeleted (domain : Identifier) (ip : Address)
| FailedRemove (domain : Identifier) (msg : string)
| CurrentRules                             (* Current UFW rules: *)
| CurrentIP (ip : Address)                 (* Current IP: ${ip} *)
| UpdatedGist                              (* Successfully updated IP in gist! *)
| CreatedGist                              (* Created new gist with ID: ... *)
| ErrorMsg (msg : string).                 (* Error: ${error.message} *)

(** The local state file [ufw-state.json]. *)
Inductive File :=
| NoFile
| FileOf (t : Text).

(** The requests a pass sends: the address service, and the store. *)
Inductive Request :=
| GetDeviceIp                   (* fetch("https://api.ipify.org?format=json") *)
| GetGists                      (* GET /gists *)
| GetRaw                        (* fetch(raw_url) of config.json *)
| PatchGist (content : Doc)     (* PATCH /gists/{gist_id} *)
| PostGist (content : Doc).     (* POST /gists *)

(** Everything a pass does to the outside, in order. *)
Inductive Event :=
| Shell (c : Cmd) (r : Exit)
| Console (m : Msg)
| WriteState (t : Text)
| Http (q : Request).

(** What [serverMode] and [connectorMode] return: [undefined], or the
    choice of [retryMenu()] after an error reached the outer [catch]. *)
Inductive Returned :=
| Undefined
| RetryMenu.

Section Program.

(** The firewall: any state, any behaviour of the command lines. *)
Variable FW : Type.
Variable sh : Cmd -> FW -> Exit * FW.

(** The network during the pass: [outage q = Some m] when request [q] fails
    with message [m]; and the address the address service reports. *)
Variable outage : Request -> option string.
Variable device_ip : Address.

Record World := mkWorld {
  firewall : FW;
  state_file : File;
  gist : option Text;        (* config.json of the configuration gist, if any *)
  trace : list Event
}.

Definition emit (e : Event) : M World unit :=
  fun w => (inr tt, mkWorld (firewall w) (state_file w) (gist w) (trace w ++ [e])).

Definition console_log (m : Msg) : M World unit := emit (Console m).

(** [await $`sudo ufw ...`] *)
Definition dollar (c : Cmd) : M World string :=
  fun w =>
    let (r, s) := sh c (firewall w) in
    let w' := mkWorld s (state_file w) (gist w) (trace w ++ [Shell c r]) in
    match r with
    | Exit0 out => (inr out, w')
    | ShellError m => (inl (Error m), w')
    end.

(** Sending a request: it is recorded, and rejects during an outage. *)
Definition request (q : Request) : M World unit :=
  fun w =>
    let w' := mkWorld (firewall w) (state_file w) (gist w) (trace w ++ [Http q]) in
    match outage q with
    | Some m => (inl (Error m), w')
    | None => (inr tt, w')
    end.

Definition read_gist : M World (option Text) := fun w => (inr (gist w), w).

Definition store_gist (t : Text) : M World unit :=
  fun w => (inr tt, mkWorld (firewall w) (state_file w) (Some t) (trace w)).

(** ** class GistManager (lines 170-250) *)

Definition createGist (domain : Identifier) (ip : Address) : M World unit :=
  try_catch
    (request (PostGist [(domain, ip)]);;
     store_gist (JSON_stringify [(domain, ip)]))
    (fun error => throw (Error ("Failed to create gist: " ++ message error))).

Definition getGistContent (configGist : Text) : M World Doc :=
  try_catch
    (request GetRaw;;
     try_catch
       (lift (JSON_parse configGist))
       (fun parseError => console_log WarnInvalidJSON;; ret []))
    (fun error =>
       throw (Error ("Failed to fetch gist content: " ++ message error))).

(** [getAllGists] then [gists.find(g => g.files['config.json'])]. *)
Definition getAllGists : M World (option Text) :=
  try_catch
    (request GetGists;; read_gist)
    (fun error => throw (Error ("Failed to fetch gists: " ++ message error))).

Definition updateGist (content : Doc) : M World unit :=
  try_catch
    (request (PatchGist content);;
     store_gist (JSON_stringify content))
    (fun error => throw (Error ("Failed to update gist: " ++ message error))).

(** ** class UFWManager (lines 252-283) *)

Definition addRule (port : N) (ip : Address) : M World unit :=
  try_catch
    (_ <- dollar (rule_add (mkRule allow ip port));;
     console_log (AddedRule ip))
    (fun error => throw (Error ("Failed to add UFW rule: " ++ message error))).

Definition removeRule (port : N) (ip : Address) : M World unit :=
  try_catch
    (_ <- dollar (rule_delete (mkRule allow ip port));;
     console_log (RemovedRule ip))
    (fun error => throw (Error ("Failed to remove UFW rule: " ++ message error))).

Definition listRules : M World unit :=
  try_catch
    (result <- dollar status_numbered;;
     console_log (Stdout result))
    (fun error => throw (Error ("Failed to list UFW rules: " ++ message error))).

(** ** getDeviceIp (lines 306-314) *)

Definition getDeviceIp : M World Address :=
  try_catch
    (request GetDeviceIp;; ret device_ip)
    (fun error => throw (Error ("Failed to fetch device IP: " ++ message error))).

(** ** connectorMode, from the observation of the address on (lines 446-467)

    The system check and the prompts for the token and the identifier
    above line 446 have succeeded; [domain] is the identifier entered. *)
Definition connectorMode (domain : Identifier) : M World Returned :=
  try_catch
    (ip <- getDeviceIp;;
     console_log (CurrentIP ip);;
     configGist <- getAllGists;;
     match configGist with
     | Some text =>
         currentContent <- getGistContent text;;
         updateGist (set_prop currentContent domain ip);;
         console_log UpdatedGist;;
         ret Undefined
     | None =>
         createGist domain ip;;
         console_log CreatedGist;;
         ret Undefined
     end)
    (fun error =>
       console_log (ErrorMsg (message error));;
       ret RetryMenu).

(** ** serverMode, from the search for the gist on (lines 509-575)

    The system check and the port and token prompts above line 509 have
    succeeded; [port] is the port entered. *)

Definition existsSync : M World bool :=
  fun w => (inr (match state_file w with NoFile => false | FileOf _ => true end), w).

Definition readFile : M World Text :=
  fun w =>
    match state_file w with
    | NoFile => (inl (Error "ENOENT: no such file or directory"), w)
    | FileOf t => (inr t, w)
    end.

Definition writeFile (t : Text) : M World unit :=
  fun w =>
    (inr tt, mkWorld (firewall w) (FileOf t) (gist w) (trace w ++ [WriteState t])).

(** Lines 520-528. *)
Definition loadLocalState : M World Doc :=
  try_catch
    (present <- existsSync;;
     if present
     then (text <- readFile;; lift (JSON_parse text))
     else ret [])
    (fun error => console_log WarnLocalState;; ret []).

(** The body of the loop of lines 531-550; [prop oldData domain = None] is
    the test [!oldData.hasOwnProperty(domain)]. *)
Definition processEntry (port : N) (oldData : Doc)
    (entry : Identifier * Address) : M World unit :=
  let (domain, ip) := entry in
  try_catch
    (match prop oldData domain with
     | None =>
         console_log (AddingNew domain ip);;
         addRule port ip
     | Some old =>
         if negb (String.eqb old ip) then
           console_log (Updating domain old ip);;
           removeRule port old;;
           addRule port ip
         else
           console_log (NoChange domain ip)
     end)
    (fun error => console_log (FailedUpdate domain (message error))).

(** The body of the loop of lines 553-563. *)
Definition removeDeleted (port : N) (newData : Doc)
    (entry : Identifier * Address) : M World unit :=
  let (oldDomain, oldIp) := entry in
  if negb (hasOwnProperty newData oldDomain) then
    try_catch
      (console_log (RemovingDeleted oldDomain oldIp);;
       removeRule port oldIp)
      (fun error => console_log (FailedRemove oldDomain (message error)))
  else ret tt.

(** Lines 518-570, once the configuration gist is found. *)
Definition reconcile (port : N) (configGist : Text) : M World Returned :=
  newData <- getGistContent configGist;;
  oldData <- loadLocalState;;
  for_of newData (processEntry port oldData);;
  for_of oldData (removeDeleted port newData);;
  writeFile (JSON_stringify newData);;
  console_log CurrentRules;;
  listRules;;
  ret Undefined.

Definition serverMode (port : N) : M World Returned :=
  try_catch
    (configGist <- getAllGists;;
     match configGist with
     | None => console_log NoGistFound;; ret Undefined
     | Some text => reconcile port text
     end)
    (fun error =>
       console_log (ErrorMsg (message error));;
       ret RetryMenu).

End Program.

Arguments mkWorld {FW}.
Arguments firewall {FW}.
Arguments state_file {FW}.
Arguments gist {FW}.
Arguments trace {FW}.

(** ** The operations of a pass

    [serverMode] derives its operations while it runs them.  [plan] lists
    what the two loops derive from the local state and the fetched
    document: the branch taken for every entry, as a value. *)

Inductive Op :=
| Add (id : Identifier) (ip : Address)
| Remove (id : Identifier) (ip : Address).

Definition op_id (o : Op) : Identifier :=
  match o with Add id _ | Remove id _ => id end.

Definition about (id : Identifier) (o : Op) : bool := String.eqb (op_id o) id.

(** The branches of the first loop (lines 533-545). *)
Definition plan_entry (oldData : Doc) (entry : Identifier * Address) : list Op :=
  let (domain, ip) := entry in
  match prop oldData domain with
  | None => [Add domain ip]
  | Some old =>
      if negb (String.eqb old ip) then [Remove domain old; Add domain ip]
      else []
  end.

(** The test of the second loop (line 554). *)
Definition plan_deleted (newData : Doc) (entry : Identifier * Address) : list Op :=
  let (oldDomain, oldIp) := entry in
  if negb (hasOwnProperty newData oldDomain) then [Remove oldDomain oldIp]
  else [].

Definition plan (oldData newData : Doc) : list Op :=
  flat_map (plan_entry oldData) newData ++ flat_map (plan_deleted newData) oldData.

(** The firewall command of an operation ([addRule], [removeRule]). *)
Definition cmd_of_op (port : N) (o : Op) : Cmd :=
  match o with
  | Add _ ip => rule_add (mkRule allow ip port)
  | Remove _ ip => rule_delete (mkRule allow ip port)
  end.

(** The operations a pass announces on the console before it runs them. *)
Definition announced_by (e : Event) : list Op :=
  match e with
  | Console (AddingNew domain ip) => [Add domain ip]
  | Console (Updating domain old ip) => [Remove domain old; Add domain ip]
  | Console (RemovingDeleted domain ip) => [Remove domain ip]
  | _ => []
  end.

Definition announced (tr : list Event) : list Op := flat_map announced_by tr.

(** The add and delete command lines a pass issued, in order. *)
Definition rule_command (e : Event) : list Cmd :=
  match e with
  | Shell (rule_add r) _ => [rule_add r]
  | Shell (rule_delete r) _ => [rule_delete r]
  | _ => []
  end.

Definition rule_commands (tr : list Event) : list Cmd := flat_map rule_command tr.

(** No command of the trace failed. *)
Definition is_failure (e : Event) : bool :=
  match e with
  | Shell _ (ShellError _) => true
  | _ => false
  end.

Definition all_succeeded (tr : list Event) : bool := forallb (fun e => negb (is_failure e)) tr.

(** The specification's diff for one identifier, in its words: an [Add]
    for an identifier only in the desired document, [Remove] then [Add] for
    one in both whose address differs, a [Remove] for one only in the
    checkpoint, nothing for an unchanged one. *)
Definition spec_ops (checkpoint desired : Doc) (id : Identifier) : list Op :=
  match prop checkpoint id, prop desired id with
  | None, None => []
  | None, Some addr => [Add id addr]
  | Some oldAddr, Some newAddr =>
      if String.eqb oldAddr newAddr then []
      else [Remove id oldAddr; Add id newAddr]
  | Some oldAddr, None => [Remove id oldAddr]
  end.

(** The document a text stands for once read the way [getGistContent] and
    the loading of the local state read it: text that does not parse reads
    as the empty document. *)
Definition read_doc (t : Text) : Doc :=
  match t with
  | JSONText d => d
  | EmptyText | NotJSON => []
  end.

Definition checkpoint_of (f : File) : Doc :=
  match f with
  | NoFile => []
  | FileOf t => read_doc t
  end.


(** ** A pass from its start

    No request fails. *)
Definition reachable : Request -> option string := fun _ => None.

(** A server pass run from firewall state [s0], with local state file [f]
    and with [store] the text of [config.json] in the gist, every request
    succeeding. *)
Definition server_pass (FW : Type) (sh : Cmd -> FW -> Exit * FW) (port : N)
    (s0 : FW) (f : File) (store : Text) : (Exn + Returned) * World FW :=
  serverMode FW sh reachable port (mkWorld s0 f (Some store) []).

(** A connector pass run with [store] the gist's [config.json], if any. *)
Definition connector_pass (FW : Type) (device_ip : Address)
    (domain : Identifier) (s0 : FW) (f : File) (store : option Text)
    : (Exn + Returned) * World FW :=
  connectorMode FW reachable device_ip domain (mkWorld s0 f store []).

(** The warning printed for a text that does not parse. *)
Definition parse_warning (line : Msg) (t : Text) : list Event :=
  match t with
  | JSONText _ => []
  | EmptyText | NotJSON => [Console line]
  end.

Definition load_warning (f : File) : list Event :=
  match f with
  | NoFile => []
  | FileOf t => parse_warning WarnLocalState t
  end.

(** The documents of the specification's diff example, and a firewall
    state in which the checkpoint's rules are in place. *)
Definition example_checkpoint : Doc := [("a", "1.1.1.1"); ("b", "2.2.2.2")].

Definition example_desired : Doc :=
  [("a", "1.1.1.1"); ("b", "3.3.3.3"); ("c", "4.4.4.4")].

Definition example_rules : Rules :=
  [mkRule allow "1.1.1.1" 22; mkRule allow "2.2.2.2" 22].

(** ** The shape of a pass's trace

    One call of [addRule] or [removeRule] leaves the command with its
    outcome and, when it succeeded, the line it prints; [thrown] is the
    message of the error it throws otherwise. *)
Inductive call (c : Cmd) (printed : Msg) (prefix : string) :
    list Event -> option string -> Prop :=
| call_returned out :
    call c printed prefix [Shell c (Exit0 out); Console printed] None
| call_threw m :
    call c printed prefix [Shell c (ShellError m)] (Some (prefix ++ m)%string).

Definition add_call (port : N) (ip : Address) :=
  call (rule_add (mkRule allow ip port)) (AddedRule ip) "Failed to add UFW rule: ".

Definition remove_call (port : N) (ip : Address) :=
  call (rule_delete (mkRule allow ip port)) (RemovedRule ip) "Failed to remove UFW rule: ".

(** The line a [catch] of the loops prints for a thrown error. *)
Definition recorded (line : string -> Msg) (thrown : option string) : list Event :=
  match thrown with
  | None => []
  | Some m => [Console (line m)]
  end.

(** The events of one turn of the first loop. *)
Inductive entry_segment (port : N) (oldData : Doc) :
    Identifier * Address -> list Event -> Prop :=
| seg_new domain ip evs thrown :
    prop oldData domain = None ->
    add_call port ip evs thrown ->
    entry_segment port oldData (domain, ip)
      (Console (AddingNew domain ip) :: evs ++ recorded (FailedUpdate domain) thrown)
| seg_same domain ip :
    prop oldData domain = Some ip ->
    entry_segment port oldData (domain, ip) [Console (NoChange domain ip)]
| seg_replaced domain ip old evs1 evs2 thrown :
    prop oldData domain = Some old -> old <> ip ->
    remove_call port old evs1 None ->
    add_call port ip evs2 thrown ->
    entry_segment port oldData (domain, ip)
      (Console (Updating domain old ip) :: evs1 ++ evs2
         ++ recorded (FailedUpdate domain) thrown)
| seg_stuck domain ip old evs1 m :
    prop oldData domain = Some old -> old <> ip ->
    remove_call port old evs1 (Some m) ->
    entry_segment port oldData (domain, ip)
      (Console (Updating domain old ip) :: evs1 ++ [Console (FailedUpdate domain m)]).

(** The events of one turn of the second loop. *)
Inductive deleted_segment (port : N) (newData : Doc) :
    Identifier * Address -> list Event -> Prop :=
| seg_kept oldDomain oldIp :
    hasOwnProperty newData oldDomain = true ->
    deleted_segment port newData (oldDomain, oldIp) []
| seg_deleted oldDomain oldIp evs thrown :
    hasOwnProperty newData oldDomain = false ->
    remove_call port oldIp evs thrown ->
    deleted_segment port newData (oldDomain, oldIp)
      (Console (RemovingDeleted oldDomain oldIp) :: evs
         ++ recorded (FailedRemove oldDomain) thrown).

(** The events of the listing that ends a pass, and the line the outer
    [catch] prints when it fails. *)
Inductive listing : list Event -> Returned -> Prop :=
| listing_printed out :
    listing [Shell status_numbered (Exit0 out); Console (Stdout out)] Undefined
| listing_failed m :
    listing [Shell status_numbered (ShellError m);
             Console (ErrorMsg ("Failed to list UFW rules: " ++ m))] RetryMenu.

(** The trace of a pass that fetched [store] with local state file [f]. *)
Definition pass_trace (port : N) (f : File) (store : Text) (ret : Returned)
    (tr : list Event) : Prop :=
  exists segs1 segs2 tail,
    tr = [Http GetGists; Http GetRaw]
           ++ parse_warning WarnInvalidJSON store ++ load_warning f
           ++ concat segs1 ++ concat segs2
           ++ [WriteState (JSONText (read_doc store)); Console CurrentRules]
           ++ tail
    /\ Forall2 (entry_segment port (checkpoint_of f)) (read_doc store) segs1
    /\ Forall2 (deleted_segment port (read_doc store)) (checkpoint_of f) segs2
    /\ listing tail ret.

(** An identifier's turn was taken: the pass announced it with [announce],
    ran its first command [c], and printed [line] if that command failed. *)
Definition turn_taken (announce : Msg) (c : Cmd) (line : string -> Msg)
    (tr : list Event) : Prop :=
  exists pre r post,
    tr = pre ++ Console announce :: Shell c r :: post
    /\ forall m, r = ShellError m -> exists msg post', post = Console (line msg) :: post'.

(** Every failed add or delete command of the trace is followed at once by
    the line of a loop's [catch]. *)
Fixpoint failures_recorded (tr : list Event) : bool :=
  match tr with
  | [] => true
  | Shell status_numbered _ :: rest => failures_recorded rest
  | Shell _ (ShellError _) :: rest =>
      match rest with
      | Console (FailedUpdate _ _) :: _ | Console (FailedRemove _ _) :: _ =>
          failures_recorded rest
      | _ => false
      end
  | _ :: rest => failures_recorded rest
  end.

End Ip.

(* ================================================================== *)
(** * tui.js *)
(* ================================================================== *)

Module Tui.
Import JS JS.Notations Ufw.
Local Open Scope js_scope.

(** The fields of the saved configuration the passes read. *)
Record Config := mkConfig {
  domain : Identifier;
  sshPort : N
}.

(** The lines written to the terminal. *)
Inductive Line :=
| AddedRule (ip : Address) (port : N)   (* Added UFW rule: allow from ${ip} to port ... *)
| RemovedRule (ip : Address)            (* Removed UFW rule for ${oldIp} *)
| Checking                              (* Checking current IP... *)
| Unchanged (ip : Address)              (* IP unchanged (${ip}) *)
| Changed (ip : Address)                (* IP changed to: ${ip}, updating whitelist... *)
| Updated (ip : Address)                (* IP updated successfully to: ${ip} *)
| ErrorLine (msg : string).             (* Error: ${error.message} *)

Inductive Request :=
| GetDeviceIp                    (* fetch('https://api.ipify.org?format=json') *)
| GistsGet                       (* octokit.gists.get *)
| GistsUpdate (content : Doc)    (* octokit.gists.update *)
| SaveConfig.                    (* saveConfig(config) *)

Inductive Event :=
| Shell (c : Cmd) (r : Exit)
| Term (l : Line)
| Http (q : Request).

(** [try { m } finally { f }] *)
Definition try_finally {W A} (m : M W A) (f : M W unit) : M W A :=
  fun w =>
    let (r, w') := m w in
    match f w' with
    | (inl e, w'') => (inl e, w'')
    | (inr _, w'') => (r, w'')
    end.

Section Program.

Variable FW : Type.
Variable sh : Cmd -> FW -> Exit * FW.
Variable outage : Request -> option string.
Variable device_ip : Address.

(** The firewall, the gist [config.gistId] and the variables
    [runConnectorNode] closes over. *)
Record World := mkWorld {
  firewall : FW;
  gist : Text;
  lastIP : Address;
  isUpdating : bool;
  trace : list Event
}.

Definition emit (e : Event) : M World unit :=
  fun w =>
    (inr tt, mkWorld (firewall w) (gist w) (lastIP w) (isUpdating w) (trace w ++ [e])).

Definition term (l : Line) : M World unit := emit (Term l).

Definition dollar (c : Cmd) : M World string :=
  fun w =>
    let (r, s) := sh c (firewall w) in
    let w' := mkWorld s (gist w) (lastIP w) (isUpdating w) (trace w ++ [Shell c r]) in
    match r with
    | Exit0 out => (inr out, w')
    | ShellError m => (inl (Error m), w')
    end.

Definition request (q : Request) : M World unit :=
  fun w =>
    let w' := mkWorld (firewall w) (gist w) (lastIP w) (isUpdating w) (trace w ++ [Http q]) in
    match outage q with
    | Some m => (inl (Error m), w')
    | None => (inr tt, w')
    end.

Definition get_isUpdating : M World bool := fun w => (inr (isUpdating w), w).
Definition get_lastIP : M World Address := fun w => (inr (lastIP w), w).
Definition read_gist : M World Text := fun w => (inr (gist w), w).

Definition set_isUpdating (b : bool) : M World unit :=
  fun w => (inr tt, mkWorld (firewall w) (gist w) (lastIP w) b (trace w)).

Definition set_lastIP (ip : Address) : M World unit :=
  fun w => (inr tt, mkWorld (firewall w) (gist w) ip (isUpdating w) (trace w)).

Definition store_gist (t : Text) : M World unit :=
  fun w => (inr tt, mkWorld (firewall w) t (lastIP w) (isUpdating w) (trace w)).

(** ** addUFWRule and removeUFWRule (lines 417-433) *)

Definition addUFWRule (ip : Address) (config : Config) : M World unit :=
  try_catch
    (_ <- dollar (rule_add (mkRule allow ip (sshPort config)));;
     term (AddedRule ip (sshPort config)))
    (fun error => throw (Error ("Failed to add UFW rule: " ++ message error))).

Definition removeUFWRule (oldIp : Address) (config : Config) : M World unit :=
  try_catch
    (_ <- dollar (rule_delete (mkRule deny oldIp (sshPort config)));;
     term (RemovedRule oldIp))
    (fun error => throw (Error ("Failed to remove UFW rule: " ++ message error))).

(** ** updateIP of runConnectorNode (lines 609-667) *)

(** [content || '{}'] *)
Definition or_braces (content : Text) : Text :=
  match content with
  | EmptyText => JSONText []
  | _ => content
  end.

Definition updateIP (config : Config) : M World unit :=
  updating <- get_isUpdating;;
  if updating then ret tt
  else
    set_isUpdating true;;
    try_finally
      (try_catch
         (term Checking;;
          request GetDeviceIp;;
          let ip := device_ip in
          last <- get_lastIP;;
          if String.eqb ip last then
            term (Unchanged ip);;
            set_isUpdating false;;
            ret tt
          else
            set_lastIP ip;;
            term (Changed ip);;
            request GistsGet;;
            content <- read_gist;;
            currentContent <- lift (JSON_parse (or_braces content));;
            let written := set_prop currentContent (domain config) ip in
            request (GistsUpdate written);;
            store_gist (JSON_stringify written);;
            request SaveConfig;;
            term (Updated ip))
         (fun error =>
            term (ErrorLine (message error));;
            throw error))
      (set_isUpdating false).

End Program.

Arguments mkWorld {FW}.
Arguments firewall {FW}.
Arguments gist {FW}.
Arguments lastIP {FW}.
Arguments isUpdating {FW}.
Arguments trace {FW}.


End Tui.

(* ================================================================== *)
(** * The effects of a pass, read off its trace *)
(* ================================================================== *)

Module Account.
Import JS Ufw.

Section Replay.

Variable FW : Type.
Variable sh : Cmd -> FW -> Exit * FW.
Variable outage : Ip.Request -> option string.

(** The firewall after the commands of a trace, run in order. *)
Fixpoint replay (tr : list Ip.Event) (s : FW) : FW :=
  match tr with
  | [] => s
  | Ip.Shell c _ :: tr' => replay tr' (snd (sh c s))
  | _ :: tr' => replay tr' s
  end.

(** Every command of the trace carries the outcome the firewall gave. *)
Fixpoint genuine (tr : list Ip.Event) (s : FW) : Prop :=
  match tr with
  | [] => True
  | Ip.Shell c r :: tr' => r = fst (sh c s) /\ genuine tr' (snd (sh c s))
  | _ :: tr' => genuine tr' s
  end.

(** The state file after the writes of a trace. *)
Fixpoint written (tr : list Ip.Event) (f : Ip.File) : Ip.File :=
  match tr with
  | [] => f
  | Ip.WriteState t :: tr' => written tr' (Ip.FileOf t)
  | _ :: tr' => written tr' f
  end.

(** What a request leaves in the gist: a PATCH or POST that went through
    leaves its content. *)
Definition store_after (q : Ip.Request) (g : option Text) : option Text :=
  match outage q, q with
  | None, Ip.PatchGist content | None, Ip.PostGist content =>
      Some (JSON_stringify content)
  | _, _ => g
  end.

(** The gist after the requests of a trace. *)
Fixpoint stored (tr : list Ip.Event) (g : option Text) : option Text :=
  match tr with
  | [] => g
  | Ip.Http q :: tr' => stored tr' (store_after q g)
  | _ :: tr' => stored tr' g
  end.

(** [w'] is [w] after events that all satisfy [allowed], and nothing of
    [w'] is beyond what those events account for. *)
Definition accounted (allowed : Ip.Event -> bool) (w w' : Ip.World FW) : Prop :=
  exists evs,
    Forall (fun e => allowed e = true) evs
    /\ genuine evs (Ip.firewall w)
    /\ w' = Ip.mkWorld (replay evs (Ip.firewall w))
              (written evs (Ip.state_file w))
              (stored evs (Ip.gist w))
              (Ip.trace w ++ evs).

(** A computation all of whose runs are accounted for. *)
Definition keeps (allowed : Ip.Event -> bool) {A} (m : M (Ip.World FW) A) : Prop :=
  forall w, accounted allowed w (snd (m w)).

End Replay.

(** The events a server pass may leave: commands, lines, the write of the
    state file, and the two reads of the store. *)
Definition server_event (e : Ip.Event) : bool :=
  match e with
  | Ip.Shell _ _ | Ip.Console _ | Ip.WriteState _ => true
  | Ip.Http Ip.GetGists | Ip.Http Ip.GetRaw => true
  | Ip.Http _ => false
  end.

(** The events a connector pass may leave: lines and requests. *)
Definition connector_event (e : Ip.Event) : bool :=
  match e with
  | Ip.Console _ | Ip.Http _ => true
  | Ip.Shell _ _ | Ip.WriteState _ => false
  end.

(** ** Rule sets under the reference firewall *)

(** Whether rule [r] is there after command [c], given whether it was. *)
Definition presence_after (r : Rule) (present : bool) (c : Cmd) : bool :=
  match c with
  | rule_add r' => if rule_eqb r' r then true else present
  | rule_delete r' => if rule_eqb r' r then false else present
  | status_numbered => present
  end.

(** No two identifiers of the entries hold the same address. *)
Fixpoint distinct_addresses (d : Doc) : bool :=
  match d with
  | [] => true
  | (k, v) :: d' =>
      forallb (fun e => negb (String.eqb (snd e) v) || String.eqb (fst e) k) d'
      && distinct_addresses d'
  end.

(** The firewall allows every address of the document on [port]. *)
Definition allows_all (rs : Rules) (port : N) (d : Doc) : bool :=
  forallb (fun e => has_rule rs (mkRule allow (snd e) port)) d.

End Account.

(* ================================================================== *)
(** * ip.js: the command-line shell around the passes *)
(* ================================================================== *)

Module Cli.
Import JS JS.Notations Ufw.
Local Open Scope js_scope.

(** [s.includes(sub)] *)
Fixpoint includes (s sub : string) : bool :=
  String.prefix sub s
  || match s with
     | EmptyString => false
     | String _ s' => includes s' sub
     end.

(** A token, an identifier or a menu value as JavaScript has it:
    [undefined] or a string; [undefined] and the empty string are falsy. *)
Definition truthy (v : option string) : bool :=
  match v with
  | None => false
  | Some s => negb (String.eqb s "")
  end.

(** ** System requirements (lines 24-168) *)

(** [os.platform()]: Windows, or anything else. *)
Inductive Platform := win32 | other_platform.

Inductive Service := bun | ssh | ufw.

Inductive Requirements := CONNECTOR | SERVER | ALL.

Definition SystemRequirements (mode : Requirements) : list Service :=
  match mode with
  | CONNECTOR => [ssh]
  | SERVER => [ssh; ufw]
  | ALL => [bun; ssh; ufw]
  end.

Definition service_name (service : Service) : string :=
  match service with
  | bun => "bun"
  | ssh => "ssh"
  | ufw => "ufw"
  end.

(** The command lines of the checks. *)
Inductive SysCmd :=
| bun_v                    (* bun -v *)
| where_ssh                (* where ssh *)
| systemctl_status_ssh     (* systemctl status ssh *)
| which_ufw                (* which ufw *)
| sudo_ufw_status.         (* sudo ufw status *)

(** What a check returns; a field that is left out is falsy. *)
Record ServiceStatus := mkStatus {
  installed : bool;
  status : string;
  needsStart : bool;
  needsEnable : bool
}.

(** The table of [getInstallCommand]: there is no entry for [bun]. *)
Record Commands := mkCommands { ubuntu : string; fedora : string; macos : string }.

Definition commands (service : Service) : option Commands :=
  match service with
  | ssh => Some (mkCommands "sudo apt-get install openssh-server"
                   "sudo dnf install openssh-server"
                   "SSH comes pre-installed on macOS")
  | ufw => Some (mkCommands "sudo apt-get install ufw" "sudo dnf install ufw"
                   "brew install ufw")
  | bun => None
  end.

(** [commands[service].<field>]: a [TypeError] when there is no entry. *)
Definition command_field (field : Commands -> string) (service : Service)
    : Exn + string :=
  match commands service with
  | Some c => inr (field c)
  | None => inl (Error "TypeError: commands[service] is undefined")
  end.

(** [readFileSync] is not among the imports of the file (line 9 imports
    [existsSync] and [mkdirSync] only): calling it is a [ReferenceError]. *)
Definition readFileSync (path : string) : Exn + string :=
  inl (Error "readFileSync is not defined").

(** ** Prompts and what the shell prints *)

Inductive Mode := connector | server | refresh | exit_mode.

Inductive Action := retry | refresh_again | status_check | main_menu | exit_action.

(** What the user has queued up for the prompts to come. *)
Inductive Answer :=
| Cancelled
| Acknowledged
| Typed (s : string)
| Entered (n : N)
| Chose (m : Mode)
| Did (a : Action).

(** A choice of the main menu: its value and whether it is disabled. *)
Definition Choice := (Mode * bool)%type.

Inductive Prompt :=
| AskAcknowledge                      (* Press Enter to continue... *)
| AskToken                            (* Enter your GitHub token: *)
| AskDomain                           (* Enter domain/identifier for this node: *)
| AskPort                             (* Enter SSH port number: *)
| AskMode (choices : list Choice)     (* Select operation mode: *)
| AskAction.                          (* What would you like to do? *)

Inductive Line :=
| MenuHeader                          (* IP Manager CLI *)
| ConnectorHeader                     (* Connector Node Configuration *)
| ServerHeader                        (* Server Node Configuration *)
| CheckHeader                         (* System Requirements Check: *)
| NotInstalled (service : Service) (hint : string)
| Inactive (service : Service) (hint : string)
| ActiveAndRunning (service : Service)
| EmptyLine
| PleaseInstall                       (* Please install and configure ... *)
| TokenRequired                       (* Token is required! *)
| InvalidToken                        (* Invalid GitHub token! *)
| DomainRequired                      (* Domain is required! *)
| WarnLoadConfig                      (* Warning: Could not load saved configuration *)
| WarnSaveConfig                      (* Warning: Could not save configuration *)
| Goodbye.

(** The configuration file [config.json]: absent, not parseable, or an
    object with the two fields [saveConfig] writes. *)
Inductive ConfigFile :=
| NoConfig
| BadConfig
| Saved (token domain : option string).

Inductive Event :=
| Inner (e : Ip.Event)                (* an event of the pass itself *)
| Clear                               (* console.clear() *)
| Say (l : Line)
| Sys (c : SysCmd) (r : Exit)
| Asked (p : Prompt) (a : Answer)
| GetAuthenticated (token : string) (ok : bool)
| WriteConfig (token domain : string) (ok : bool).

(** How one turn of the main loop ends. *)
Inductive Loop := Break | Continue.

Section Shell.

Variable FW : Type.
Variable sh : Cmd -> FW -> Exit * FW.
Variable outage : Ip.Request -> option string.
Variable device_ip : Address.

(** The machine: its platform and what the check commands give. *)
Variable platform : Platform.
Variable sys : SysCmd -> Exit.

(** The tokens GitHub accepts, whether the configuration file can be
    written, and the number submitted at the port prompt. *)
Variable authenticates : string -> bool.
Variable config_writable : bool.
Variable port_entered : N.

(** The world of a pass, the configuration file, the two module variables
    [lastCredentials] ([None] for [null], [Some token] for the object
    [{ token }]) and [lastDomain], the answers to come and the log. *)
Record World := mkWorld {
  firewall : FW;
  state_file : Ip.File;
  gist : option Text;
  config_file : ConfigFile;
  lastCredentials : option (option string);
  lastDomain : option string;
  answers : list Answer;
  log : list Event
}.

Definition emit (e : Event) : M World unit :=
  fun w =>
    (inr tt,
     mkWorld (firewall w) (state_file w) (gist w) (config_file w)
       (lastCredentials w) (lastDomain w) (answers w) (log w ++ [e])).

Definition say (l : Line) : M World unit := emit (Say l).

Definition get_lastCredentials : M World (option (option string)) :=
  fun w => (inr (lastCredentials w), w).

Definition get_lastDomain : M World (option string) :=
  fun w => (inr (lastDomain w), w).

Definition set_lastCredentials (c : option (option string)) : M World unit :=
  fun w =>
    (inr tt,
     mkWorld (firewall w) (state_file w) (gist w) (config_file w)
       c (lastDomain w) (answers w) (log w)).

Definition set_lastDomain (d : option string) : M World unit :=
  fun w =>
    (inr tt,
     mkWorld (firewall w) (state_file w) (gist w) (config_file w)
       (lastCredentials w) d (answers w) (log w)).

(** Running a pass of [Ip] inside the shell: its events join the log. *)
Definition lift_pass {A} (m : M (Ip.World FW) A) : M World A :=
  fun w =>
    let (r, p) := m (Ip.mkWorld (firewall w) (state_file w) (gist w) []) in
    (r,
     mkWorld (Ip.firewall p) (Ip.state_file p) (Ip.gist p) (config_file w)
       (lastCredentials w) (lastDomain w) (answers w)
       (log w ++ map Inner (Ip.trace p))).

(** [await $`...`] of a check command. *)
Definition system (c : SysCmd) : M World string :=
  fun w =>
    let w' := mkWorld (firewall w) (state_file w) (gist w) (config_file w)
                (lastCredentials w) (lastDomain w) (answers w)
                (log w ++ [Sys c (sys c)]) in
    match sys c with
    | Exit0 out => (inr out, w')
    | ShellError m => (inl (Error m), w')
    end.

(** [await prompts(...)]: the next answer queued, or none when the user
    has nothing more to say. *)
Definition prompt (p : Prompt) : M World Answer :=
  fun w =>
    let a := match answers w with [] => Cancelled | a :: _ => a end in
    (inr a,
     mkWorld (firewall w) (state_file w) (gist w) (config_file w)
       (lastCredentials w) (lastDomain w) (tl (answers w))
       (log w ++ [Asked p a])).

(** The text typed at a text or password prompt; [undefined] otherwise. *)
Definition typed (a : Answer) : option string :=
  match a with
  | Typed s => Some s
  | _ => None
  end.

(** ** class SystemChecker (lines 34-168) *)

Definition checkBun : M World ServiceStatus :=
  try_catch
    (_ <- system bun_v;;
     ret (mkStatus true "active" false false))
    (fun _ => ret (mkStatus false "not found" false false)).

Definition checkSSH : M World ServiceStatus :=
  try_catch
    (match platform with
     | win32 =>
         _ <- system where_ssh;;
         ret (mkStatus true "installed" false false)
     | other_platform =>
         sshStatus <- system systemctl_status_ssh;;
         let isActive := includes sshStatus "active (running)" in
         ret (mkStatus true (if isActive then "active" else "inactive")
                (negb isActive) false)
     end)
    (fun _ => ret (mkStatus false "not installed" false false)).

(** The test [if (!ufwInstalled)] of line 74 is on the result object of the
    command, which is never falsy: its branch is not taken. *)
Definition checkUFW : M World ServiceStatus :=
  try_catch
    (match platform with
     | win32 => ret (mkStatus false "not supported on Windows" false false)
     | other_platform =>
         _ <- system which_ufw;;
         ufwStatus <- system sudo_ufw_status;;
         let isActive := includes ufwStatus "Status: active" in
         ret (mkStatus true (if isActive then "active" else "inactive")
                false (negb isActive))
     end)
    (fun _ => ret (mkStatus false "not installed" false false)).

(** On another platform than Windows the [try] block fails at once on
    [readFileSync], its [catch] swallows the error, and the command for
    Ubuntu is returned. *)
Definition getInstallCommand (service : Service) : Exn + string :=
  match platform with
  | win32 =>
      inr "Please visit https://docs.microsoft.com/windows-server/administration/openssh/openssh_install_firstuse"
  | other_platform =>
      let detected :=
        match readFileSync "/etc/os-release" with
        | inl e => inl e
        | inr osRelease =>
            if includes osRelease "Ubuntu" then
              match command_field ubuntu service with
              | inl e => inl e
              | inr c => inr (Some c)
              end
            else if includes osRelease "Fedora" then
              match command_field fedora service with
              | inl e => inl e
              | inr c => inr (Some c)
              end
            else inr None
        end in
      match detected with
      | inr (Some c) => inr c
      | inr None | inl _ => command_field ubuntu service
      end
  end.

Definition getServiceStatus (service : Service) : M World ServiceStatus :=
  match service with
  | bun => checkBun
  | ssh => checkSSH
  | ufw => checkUFW
  end.

(** The status object: the checks made, by service. *)
Definition StatusMap := list (Service * ServiceStatus).

Definition service_eqb (a b : Service) : bool :=
  match a, b with
  | bun, bun | ssh, ssh | ufw, ufw => true
  | _, _ => false
  end.

(** [status.<service>?.installed] *)
Definition installed_in (st : StatusMap) (service : Service) : bool :=
  match find (fun e => service_eqb (fst e) service) st with
  | Some e => installed (snd e)
  | None => false
  end.

(** One turn of the loop of lines 140-163, on [status] and [allGood]. *)
Definition check_service (acc : StatusMap * bool) (service : Service)
    : M World (StatusMap * bool) :=
  let (st, allGood) := acc in
  serviceStatus <- getServiceStatus service;;
  let st' := st ++ [(service, serviceStatus)] in
  if negb (installed serviceStatus) then
    hint <- lift (getInstallCommand service);;
    say (NotInstalled service hint);;
    ret (st', false)
  else if String.eqb (status serviceStatus) "inactive"
          || needsStart serviceStatus || needsEnable serviceStatus then
    say (Inactive service
           (match service with
            | ufw => "sudo ufw enable"
            | _ => "sudo systemctl start " ++ service_name service
            end));;
    ret (st', false)
  else
    say (ActiveAndRunning service);;
    ret (st', allGood).

Fixpoint check_services (services : list Service) (acc : StatusMap * bool)
    : M World (StatusMap * bool) :=
  match services with
  | [] => ret acc
  | service :: rest =>
      acc' <- check_service acc service;;
      check_services rest acc'
  end.

Definition checkAndDisplayStatus (mode : Requirements) : M World (StatusMap * bool) :=
  say CheckHeader;;
  result <- check_services (SystemRequirements mode) ([], true);;
  say EmptyLine;;
  ret result.

(** ** GistManager.validateToken (lines 175-182) *)

Definition validateToken (token : string) : M World bool :=
  _ <- emit (GetAuthenticated token (authenticates token));;
  ret (authenticates token).

(** ** Configuration (lines 285-304) *)

Definition loadConfig : M World unit :=
  fun w =>
    match config_file w with
    | NoConfig => (inr tt, w)
    | BadConfig => say WarnLoadConfig w
    | Saved token domain =>
        (inr tt,
         mkWorld (firewall w) (state_file w) (gist w) (config_file w)
           (Some token) domain (answers w) (log w))
    end.

Definition saveConfig (token domain : string) : M World unit :=
  fun w =>
    let w' := mkWorld (firewall w) (state_file w) (gist w)
                (if config_writable then Saved (Some token) (Some domain)
                 else config_file w)
                (lastCredentials w) (lastDomain w) (answers w)
                (log w ++ [WriteConfig token domain config_writable]) in
    if config_writable then (inr tt, w') else say WarnSaveConfig w'.

(** ** The prompts (lines 358-399) *)

(** Returns [creds.token]. *)
Definition getCredentials (useLastCredentials : bool) : M World (option string) :=
  last <- get_lastCredentials;;
  match useLastCredentials, last with
  | true, Some token => ret token
  | _, _ =>
      a <- prompt AskToken;;
      set_lastCredentials (Some (typed a));;
      ret (typed a)
  end.

(** Returns [result.domain]. *)
Definition getDomain (useLastDomain : bool) : M World (option string) :=
  last <- get_lastDomain;;
  if useLastDomain && truthy last then ret last
  else
    a <- prompt AskDomain;;
    set_lastDomain (typed a);;
    ret (typed a).

(** Returns [result.port].  The prompt accepts a number only; leaving it
    without one is outside the model. *)
Definition getSshPort : M World N :=
  emit (Asked AskPort (Entered port_entered));;
  ret port_entered.

(** ** retryMenu (lines 578-601)

    The menu comes back after every status check; each turn takes one
    answer, so one turn more than there are answers is enough. *)
Definition chosen_action (a : Answer) : option Action :=
  match a with
  | Did action => Some action
  | _ => None
  end.

Fixpoint retryMenu_turns (turns : nat) : M World (option Action) :=
  match turns with
  | O => ret None
  | S turns' =>
      a <- prompt AskAction;;
      match chosen_action a with
      | Some status_check =>
          _ <- checkAndDisplayStatus ALL;;
          retryMenu_turns turns'
      | action => ret action
      end
  end.

Definition retryMenu : M World (option Action) :=
  fun w => retryMenu_turns (S (length (answers w))) w.

(** ** mainMenu (lines 317-356)

    A choice that is disabled, or not on the menu, cannot be submitted: an
    answer naming one counts as no answer. *)
Definition menu_choices (st : StatusMap) (last : option (option string))
    : list Choice :=
  [(connector, negb (installed_in st ssh));
   (server, negb (installed_in st ufw) || negb (installed_in st ssh))]
  ++ match last with
     | Some _ => [(refresh, negb (installed_in st ssh))]
     | None => []
     end
  ++ [(exit_mode, false)].

Definition mode_eqb (a b : Mode) : bool :=
  match a, b with
  | connector, connector | server, server | refresh, refresh
  | exit_mode, exit_mode => true
  | _, _ => false
  end.

Definition selectable (choices : list Choice) (m : Mode) : bool :=
  existsb (fun c => mode_eqb (fst c) m && negb (snd c)) choices.

Definition chosen_mode (choices : list Choice) (a : Answer) : option Mode :=
  match a with
  | Chose m => if selectable choices m then Some m else None
  | _ => None
  end.

Definition mainMenu : M World (option Mode) :=
  emit Clear;;
  say MenuHeader;;
  checked <- checkAndDisplayStatus ALL;;
  last <- get_lastCredentials;;
  let choices := menu_choices (fst checked) last in
  a <- prompt (AskMode choices);;
  ret (chosen_mode choices a).

(** ** connectorMode and serverMode, whole (lines 401-468, 470-576)

    Nothing between the [try] and the pass proper throws, so the [catch] of
    the source is the one inside [Ip.connectorMode] and [Ip.serverMode];
    where these end in the retry menu, the menu is run here. *)
Definition after_pass (r : Ip.Returned) : M World (option Action) :=
  match r with
  | Ip.Undefined => ret None
  | Ip.RetryMenu => retryMenu
  end.

Definition connectorMode (useLastSettings : bool) : M World (option Action) :=
  emit Clear;;
  say ConnectorHeader;;
  checked <- checkAndDisplayStatus CONNECTOR;;
  if negb (snd checked) then
    say PleaseInstall;;
    _ <- prompt AskAcknowledge;;
    ret None
  else
    token <- getCredentials useLastSettings;;
    match token with
    | None | Some EmptyString => say TokenRequired;; ret None
    | Some token =>
        valid <- validateToken token;;
        if negb valid then
          say InvalidToken;;
          set_lastCredentials None;;
          ret None
        else
          domain <- getDomain useLastSettings;;
          match domain with
          | None | Some EmptyString => say DomainRequired;; ret None
          | Some domain =>
              saveConfig token domain;;
              r <- lift_pass (Ip.connectorMode FW outage device_ip domain);;
              after_pass r
          end
    end.

Definition serverMode : M World (option Action) :=
  emit Clear;;
  say ServerHeader;;
  checked <- checkAndDisplayStatus SERVER;;
  if negb (snd checked) then
    say PleaseInstall;;
    _ <- prompt AskAcknowledge;;
    ret None
  else
    port <- getSshPort;;
    token <- getCredentials false;;
    match token with
    | None | Some EmptyString => say TokenRequired;; ret None
    | Some token =>
        valid <- validateToken token;;
        if negb valid then
          say InvalidToken;;
          ret None
        else
          r <- lift_pass (Ip.serverMode FW sh outage port);;
          after_pass r
    end.

(** ** main (lines 604-640) *)

Definition run_mode (mode : option Mode) : M World unit :=
  match mode with
  | Some connector => _ <- connectorMode false;; ret tt
  | Some server => _ <- serverMode;; ret tt
  | Some refresh => _ <- connectorMode true;; ret tt
  | Some exit_mode | None => ret tt
  end.

(** One turn of the [while (true)] loop. *)
Definition main_turn : M World Loop :=
  mode <- mainMenu;;
  match mode with
  | Some exit_mode => say Goodbye;; ret Break
  | _ =>
      run_mode mode;;
      again <- retryMenu;;
      match again with
      | Some exit_action => say Goodbye;; ret Break
      | Some main_menu => ret Continue
      | Some refresh_again => _ <- connectorMode true;; ret Continue
      | Some retry =>
          match mode with
          | Some connector => _ <- connectorMode false;; ret Continue
          | Some server => _ <- serverMode;; ret Continue
          | _ => ret Continue
          end
      | Some status_check | None => ret Continue
      end
  end.

(** The loop, for at most [turns] turns: [None] when it is still running. *)
Fixpoint main_loop (turns : nat) : M World (option unit) :=
  match turns with
  | O => ret None
  | S turns' =>
      l <- main_turn;;
      match l with
      | Break => ret (Some tt)
      | Continue => main_loop turns'
      end
  end.

Definition main (turns : nat) : M World (option unit) :=
  loadConfig;;
  main_loop turns.

End Shell.

Arguments mkWorld {FW}.
Arguments firewall {FW}.
Arguments state_file {FW}.
Arguments gist {FW}.
Arguments config_file {FW}.
Arguments lastCredentials {FW}.
Arguments lastDomain {FW}.
Arguments answers {FW}.
Arguments log {FW}.

(** ** What the checks amount to *)

Definition succeeds (r : Exit) : bool :=
  match r with
  | Exit0 _ => true
  | ShellError _ => false
  end.

Definition prints (r : Exit) (sub : string) : bool :=
  match r with
  | Exit0 out => includes out sub
  | ShellError _ => false
  end.

(** A service is ready when its check finds it installed and active. *)
Definition ready (platform : Platform) (sys : SysCmd -> Exit) (service : Service)
    : bool :=
  match service, platform with
  | bun, _ => succeeds (sys bun_v)
  | ssh, win32 => succeeds (sys where_ssh)
  | ssh, other_platform => prints (sys systemctl_status_ssh) "active (running)"
  | ufw, win32 => false
  | ufw, other_platform =>
      succeeds (sys which_ufw) && prints (sys sudo_ufw_status) "Status: active"
  end.

(** The world with more events in its log, and otherwise the same. *)
Definition add_log {FW} (w : World FW) (l : list Event) : World FW :=
  mkWorld (firewall w) (state_file w) (gist w) (config_file w)
    (lastCredentials w) (lastDomain w) (answers w) (log w ++ l).

(** Events of the checks and of the screen: nothing is asked but an
    acknowledgement, nothing is sent, nothing is written. *)
Definition idle (e : Event) : bool :=
  match e with
  | Clear | Say _ | Sys _ _ | Asked AskAcknowledge _ => true
  | _ => false
  end.

(** Events of the checks alone. *)
Definition checking (e : Event) : bool :=
  match e with
  | Say _ | Sys _ _ => true
  | _ => false
  end.

(** A run that sent nothing, wrote nothing and kept what it remembers. *)
Definition only_screen {FW} (w w' : World FW) : Prop :=
  firewall w' = firewall w /\ state_file w' = state_file w
  /\ gist w' = gist w /\ config_file w' = config_file w
  /\ lastCredentials w' = lastCredentials w /\ lastDomain w' = lastDomain w
  /\ exists l, log w' = log w ++ l /\ forallb idle l = true.

(** The answer the next prompt gets, and the world once it is given. *)
Definition answer {FW} (w : World FW) : Answer :=
  match answers w with
  | [] => Cancelled
  | a :: _ => a
  end.

Definition answered {FW} (w : World FW) (p : Prompt) : World FW :=
  mkWorld (firewall w) (state_file w) (gist w) (config_file w)
    (lastCredentials w) (lastDomain w) (tl (answers w))
    (log w ++ [Asked p (answer w)]).

(** A computation that keeps a relation between the world before and the
    world after, whatever it returns or throws. *)
Definition framed {W A} (R : W -> W -> Prop) (m : JS.M W A) : Prop :=
  forall w, R w (snd (m w)).

(** A run that left the configuration file and the identifier that is
    remembered as they were. *)
Definition keeps_settings {FW} (w w' : World FW) : Prop :=
  config_file w' = config_file w /\ lastDomain w' = lastDomain w.

(** A machine other than Windows where every service is ready, and one
    where [bun -v] fails. *)
Definition example_machine (c : SysCmd) : Exit :=
  match c with
  | systemctl_status_ssh => Exit0 "Active: active (running)"
  | sudo_ufw_status => Exit0 "Status: active"
  | _ => Exit0 ""
  end.

Definition example_machine_without_bun (c : SysCmd) : Exit :=
  match c with
  | bun_v => ShellError "bun: command not found"
  | c => example_machine c
  end.

(** A first start with nothing saved, and the answers to come. *)
Definition example_start (answers : list Answer) : World unit :=
  mkWorld tt Ip.NoFile None NoConfig None None answers [].

(** A firewall that accepts everything, and a network where the address
    of the device cannot be fetched. *)
Definition example_sh (c : Cmd) (f : unit) : Exit * unit := (Exit0 "", f).

Definition example_outage (q : Ip.Request) : option string :=
  match q with
  | Ip.GetDeviceIp => Some "fetch failed"
  | _ => None
  end.

(** The events of the passes run. *)
Definition inner (l : list Event) : list Ip.Event :=
  flat_map (fun e => match e with Inner e => [e] | _ => [] end) l.

(** The questions asked, in order. *)
Definition asked (l : list Event) : list Prompt :=
  flat_map (fun e => match e with Asked p _ => [p] | _ => [] end) l.

End Cli.

(* ================================================================== *)
(** * The gists of an account: how the two programs find their store *)
(* ================================================================== *)

Module Github.
Import JS JS.Notations.
Local Open Scope js_scope.

(** A gist as the listing shows it: its description ([null] when it has
    none) and its files by name. *)
Record Gist := mkGist {
  id : string;
  description : option string;
  files : list (string * Text)
}.

Definition GIST_FILENAME : string := "config.json".

(** [gist.files[name]], as a condition. *)
Definition has_file (name : string) (g : Gist) : bool :=
  existsb (fun f => String.eqb (fst f) name) (files g).

(** [gist.description?.includes(s)], as a condition. *)
Definition description_includes (s : string) (g : Gist) : bool :=
  match description g with
  | Some d => Cli.includes d s
  | None => false
  end.

Inductive Request :=
| ListGists                                                  (* GET /gists *)
| CreateGist (description : string) (files : list (string * Text)).  (* POST /gists *)

(** The listing with one more gist, at a place of the listing's choice. *)
Definition listed_at (n : nat) (g : Gist) (l : list Gist) : list Gist :=
  firstn n l ++ g :: skipn n l.

Section Account.

(** The network, the identifier GitHub gives a new gist, and where the
    listing shows it. *)
Variable outage : Request -> option string.
Variable new_id : list Gist -> string.
Variable slot : list Gist -> nat.

Record World := mkWorld {
  gists : list Gist;
  trace : list Request
}.

Definition list_gists : M World (list Gist) :=
  fun w =>
    let w' := mkWorld (gists w) (trace w ++ [ListGists]) in
    match outage ListGists with
    | Some m => (inl (Error m), w')
    | None => (inr (gists w), w')
    end.

Definition create_gist (description : string) (files : list (string * Text))
    : M World Gist :=
  fun w =>
    let q := CreateGist description files in
    match outage q with
    | Some m => (inl (Error m), mkWorld (gists w) (trace w ++ [q]))
    | None =>
        let g := mkGist (new_id (gists w)) (Some description) files in
        (inr g, mkWorld (listed_at (slot (gists w)) g (gists w)) (trace w ++ [q]))
    end.

(** ** tui.js: findOrCreateGist (lines 192-218); returns [{ id, isNew }] *)

Definition is_whitelist (gist : Gist) : bool :=
  has_file GIST_FILENAME gist && description_includes "SSH Whitelist IPs" gist.

Definition findOrCreateGist : M World (string * bool) :=
  try_catch
    (gists <- list_gists;;
     match find is_whitelist gists with
     | Some existingGist => ret (id existingGist, false)
     | None =>
         newGist <- create_gist
                      "SSH Whitelist IPs - Managed by SSH Whitelist Manager"
                      [(GIST_FILENAME, JSON_stringify [])];;
         ret (id newGist, true)
     end)
    (fun error => throw (Error ("GitHub Gist Error: " ++ message error))).

(** ** ip.js: how [connectorMode] and [serverMode] pick the gist (lines
    451-452 and 510-511), and [GistManager.createGist] (lines 184-202) *)

Definition configGist (gists : list Gist) : option Gist :=
  find (has_file "config.json") gists.

Definition createGist (domain : Identifier) (ip : Address) : M World string :=
  try_catch
    (response <- create_gist "IP_TABLE"
                   [("config.json", JSON_stringify [(domain, ip)])];;
     ret (id response))
    (fun error => throw (Error ("Failed to create gist: " ++ message error))).

End Account.

Arguments mkWorld gists trace : clear implicits.

End Github.

(* ================================================================== *)
(** * tui.js: the server node *)
(* ================================================================== *)

Module TuiServer.
Import JS JS.Notations Ufw.
Local Open Scope js_scope.

(** The command lines the server node runs. *)
Inductive Command :=
| which (program : string)              (* which sshd, which ufw, which apt, ... *)
| apt_update                            (* sudo apt update *)
| apt_install (package : string)        (* sudo apt install -y ... *)
| apt_get_update                        (* sudo apt-get update *)
| apt_get_install (package : string)    (* sudo apt-get install -y ... *)
| systemctl_is_active_ssh               (* systemctl is-active ssh *)
| systemctl_start_ssh                   (* sudo systemctl start ssh *)
| systemctl_enable_ssh                  (* sudo systemctl enable ssh *)
| ufw_status                            (* sudo ufw status *)
| ufw_allow_ssh                         (* sudo ufw allow ssh *)
| ufw_enable                            (* echo "y" | sudo ufw enable *)
| rule (c : Cmd).                       (* sudo ufw allow from ... / delete ... *)

Inductive Line :=
| Installing (package : string)
| Installed (package : string)
| InstallFailed (package msg : string)
| SshNotFound                           (* SSH server not found. Would you like ... *)
| SshNotRunning                         (* SSH service is not running. Starting it... *)
| SshStarting                           (* Starting SSH service... *)
| SshReady                              (* SSH server is configured and running *)
| SshFailed (msg : string)
| UfwNotFound
| UfwInactive
| UfwEnabling
| UfwPortNotAllowed
| UfwReady
| UfwFailed (msg : string)
| AddedRule (ip : Address) (port : N)
| RemovedRule (ip : string)
| Verifying                             (* Verifying system requirements... *)
| Fetching                              (* Fetching whitelist... *)
| UpdatingRules                         (* Updating firewall rules... *)
| RemovingOld (ip : Address)
| AddingFor (domain : Identifier) (ip : Address)
| RulesUpdated                          (* Firewall rules updated successfully *)
| ErrorLine (msg : string).

Inductive Request :=
| GistsGet                              (* octokit.gists.get *)
| SaveConfig.                           (* saveConfig(config) *)

Inductive Event :=
| Shell (c : Command) (r : Exit)
| Term (l : Line)
| Menu (items : list string) (selectedIndex : nat)
| Http (q : Request).

(** A line of [ufw status numbered] as [updateRules] expects it. *)
Record NumberedRule := mkNumbered { line : string; number : string }.

(** The configuration as the firewall helpers read it. *)
Record Config := mkConfig { sshPort : N }.

Section Program.

(** The machine: any state, any behaviour of the command lines. *)
Variable Machine : Type.
Variable sh : Command -> Machine -> Exit * Machine.

(** The network, and what the user selects in the n-th menu shown. *)
Variable outage : Request -> option string.
Variable selects : nat -> nat.

(** The first dotted quad of a line, as the regular expression of line 798
    finds it. *)
Variable ip_match : string -> option Address.

(** The machine, the gist [config.gistId], the variables [runServerNode]
    closes over, the number of menus shown so far. *)
Record World := mkWorld {
  machine : Machine;
  gist : Text;
  isUpdating : bool;
  currentRules : list Address;
  menus : nat;
  trace : list Event
}.

Definition emit (e : Event) : M World unit :=
  fun w =>
    (inr tt,
     mkWorld (machine w) (gist w) (isUpdating w) (currentRules w) (menus w)
       (trace w ++ [e])).

Definition term (l : Line) : M World unit := emit (Term l).

Definition dollar (c : Command) : M World string :=
  fun w =>
    let (r, s) := sh c (machine w) in
    let w' := mkWorld s (gist w) (isUpdating w) (currentRules w) (menus w)
                (trace w ++ [Shell c r]) in
    match r with
    | Exit0 out => (inr out, w')
    | ShellError m => (inl (Error m), w')
    end.

Definition request (q : Request) : M World unit :=
  fun w =>
    let w' := mkWorld (machine w) (gist w) (isUpdating w) (currentRules w)
                (menus w) (trace w ++ [Http q]) in
    match outage q with
    | Some m => (inl (Error m), w')
    | None => (inr tt, w')
    end.

(** [showMenu(items)] (lines 230-233) *)
Definition showMenu (items : list string) : M World nat :=
  fun w =>
    (inr (selects (menus w)),
     mkWorld (machine w) (gist w) (isUpdating w) (currentRules w)
       (S (menus w)) (trace w ++ [Menu items (selects (menus w))])).

Definition get_isUpdating : M World bool := fun w => (inr (isUpdating w), w).

Definition set_isUpdating (b : bool) : M World unit :=
  fun w =>
    (inr tt,
     mkWorld (machine w) (gist w) b (currentRules w) (menus w) (trace w)).

Definition read_gist : M World Text := fun w => (inr (gist w), w).

Definition get_currentRules : M World (list Address) :=
  fun w => (inr (currentRules w), w).

Definition add_currentRules (ip : Address) : M World unit :=
  fun w =>
    (inr tt,
     mkWorld (machine w) (gist w) (isUpdating w) (currentRules w ++ [ip])
       (menus w) (trace w)).

(** ** checkPackageManager and installPackage (lines 27-62) *)

Inductive PackageManager := apt | apt_get.

Definition checkPackageManager : M World (option PackageManager) :=
  try_catch
    (_ <- dollar (which "apt");;
     ret (Some apt))
    (fun _ =>
       try_catch
         (_ <- dollar (which "apt-get");;
          ret (Some apt_get))
         (fun _ => ret None)).

Definition installPackage (packageName : string) : M World bool :=
  pkgManager <- checkPackageManager;;
  match pkgManager with
  | None => throw (Error "No supported package manager found")
  | Some pkgManager =>
      try_catch
        (term (Installing packageName);;
         match pkgManager with
         | apt =>
             _ <- dollar apt_update;;
             _ <- dollar (apt_install packageName);;
             ret tt
         | apt_get =>
             _ <- dollar apt_get_update;;
             _ <- dollar (apt_get_install packageName);;
             ret tt
         end;;
         term (Installed packageName);;
         ret true)
        (fun error =>
           term (InstallFailed packageName (message error));;
           ret false)
  end.

(** ** checkAndConfigureSSH (lines 64-100)

    A [return] inside the inner [catch] leaves the function: the steps are
    written with the value returned early, if any. *)
Definition checkAndConfigureSSH : M World bool :=
  try_catch
    (early <- try_catch
                (_ <- dollar (which "sshd");;
                 ret None)
                (fun _ =>
                   term SshNotFound;;
                   choice <- showMenu ["Yes"; "No"];;
                   if Nat.eqb choice 0 then
                     installed <- installPackage "openssh-server";;
                     if negb installed then ret (Some false) else ret None
                   else ret (Some false));;
     match early with
     | Some result => ret result
     | None =>
         try_catch
           (status <- dollar systemctl_is_active_ssh;;
            (* trimming the output does not change whether it includes
               the word *)
            if negb (Cli.includes status "active") then
              term SshNotRunning;;
              _ <- dollar systemctl_start_ssh;;
              _ <- dollar systemctl_enable_ssh;;
              ret tt
            else ret tt)
           (fun _ =>
              term SshStarting;;
              _ <- dollar systemctl_start_ssh;;
              _ <- dollar systemctl_enable_ssh;;
              ret tt);;
         term SshReady;;
         ret true
     end)
    (fun error =>
       term (SshFailed (message error));;
       ret false).

(** ** checkAndConfigureUFW (lines 102-147) *)
Definition checkAndConfigureUFW : M World bool :=
  try_catch
    (early <- try_catch
                (_ <- dollar (which "ufw");;
                 ret None)
                (fun _ =>
                   term UfwNotFound;;
                   choice <- showMenu ["Yes"; "No"];;
                   if Nat.eqb choice 0 then
                     installed <- installPackage "ufw";;
                     if negb installed then ret (Some false) else ret None
                   else ret (Some false));;
     match early with
     | Some result => ret result
     | None =>
         statusOutput <- dollar ufw_status;;
         enabled <-
           (if Cli.includes statusOutput "inactive" then
              term UfwInactive;;
              choice <- showMenu ["Yes"; "No"];;
              if Nat.eqb choice 0 then
                term UfwEnabling;;
                _ <- dollar ufw_allow_ssh;;
                _ <- dollar ufw_enable;;
                ret true
              else ret false
            else ret true);;
         if negb enabled then ret false
         else
           (if negb (Cli.includes statusOutput "22/tcp")
               && negb (Cli.includes statusOutput "22 ") then
              term UfwPortNotAllowed;;
              _ <- dollar ufw_allow_ssh;;
              ret tt
            else ret tt);;
           term UfwReady;;
           ret true
     end)
    (fun error =>
       term (UfwFailed (message error));;
       ret false).

(** ** addUFWRule and removeUFWRule (lines 417-433)

    [config] is [None] when the caller passes no second argument: reading
    [config.sshPort] is then a [TypeError], thrown inside the [try]. *)
Definition config_sshPort (config : option Config) : Exn + N :=
  match config with
  | Some c => inr (sshPort c)
  | None => inl (Error "TypeError: config is undefined")
  end.

Definition addUFWRule (ip : Address) (config : option Config) : M World unit :=
  try_catch
    (port <- lift (config_sshPort config);;
     _ <- dollar (rule (rule_add (mkRule allow ip port)));;
     term (AddedRule ip port))
    (fun error => throw (Error ("Failed to add UFW rule: " ++ message error))).

Definition removeUFWRule (oldIp : string) (config : option Config)
    : M World unit :=
  try_catch
    (port <- lift (config_sshPort config);;
     _ <- dollar (rule (rule_delete (mkRule deny oldIp port)));;
     term (RemovedRule oldIp))
    (fun error => throw (Error ("Failed to remove UFW rule: " ++ message error))).

(** ** updateRules of runServerNode (lines 767-833)

    No function [getExistingUFWRules] is declared in the file or imported:
    the call of line 790 is a [ReferenceError]. *)
Definition getExistingUFWRules : M World (list NumberedRule) :=
  throw (Error "getExistingUFWRules is not defined").

(** [Object.values(allowedIPs)] *)
Definition values (d : Doc) : list Address := map snd d.

Definition has (s : list Address) (ip : Address) : bool :=
  existsb (String.eqb ip) s.

Definition remove_old (newRules : list Address) (r : NumberedRule)
    : M World unit :=
  match ip_match (line r) with
  | Some ip =>
      if negb (has newRules ip) then
        term (RemovingOld ip);;
        removeUFWRule (number r) None
      else ret tt
  | None => ret tt
  end.

Definition add_new (entry : Identifier * Address) : M World unit :=
  let (domain, ip) := entry in
  current <- get_currentRules;;
  if negb (has current ip) then
    term (AddingFor domain ip);;
    addUFWRule ip None;;
    add_currentRules ip
  else ret tt.

Definition updateRules : M World unit :=
  updating <- get_isUpdating;;
  if updating then ret tt
  else
    set_isUpdating true;;
    Tui.try_finally
      (try_catch
         (term Verifying;;
          ssh_ok <- checkAndConfigureSSH;;
          ok <- (if negb ssh_ok then ret false else checkAndConfigureUFW);;
          if negb ok then throw (Error "System requirements check failed")
          else
            term Fetching;;
            request GistsGet;;
            content <- read_gist;;
            allowedIPs <- lift (JSON_parse content);;
            rules <- getExistingUFWRules;;
            let newRules := values allowedIPs in
            term UpdatingRules;;
            for_of rules (remove_old newRules);;
            for_of allowedIPs add_new;;
            request SaveConfig;;
            term RulesUpdated)
         (fun error =>
            term (ErrorLine (message error));;
            throw error))
      (set_isUpdating false).

End Program.

Arguments mkWorld {Machine}.
Arguments machine {Machine}.
Arguments gist {Machine}.
Arguments isUpdating {Machine}.
Arguments currentRules {Machine}.
Arguments menus {Machine}.
Arguments trace {Machine}.

(** The events a computation added to the trace. *)
Definition added {Machine A} (m : JS.M (World Machine) A) (w : World Machine)
    : list Event :=
  skipn (length (trace w)) (trace (snd (m w))).

(** The commands that install a package or switch the firewall on. *)
Definition needs_consent (c : Command) : bool :=
  match c with
  | apt_update | apt_install _ | apt_get_update | apt_get_install _
  | ufw_enable => true
  | _ => false
  end.

(** Every such command runs while the last menu shown was answered with
    its first item, [Yes]. *)
Fixpoint consented (yes : bool) (l : list Event) : bool :=
  match l with
  | [] => true
  | Menu _ selectedIndex :: rest => consented (Nat.eqb selectedIndex 0) rest
  | Shell c _ :: rest =>
      (if needs_consent c then yes else true) && consented yes rest
  | _ :: rest => consented yes rest
  end.

(** The firewall is switched on only as the next command after a
    [ufw allow ssh] that succeeded. *)
Fixpoint ssh_allowed_first (allowed : bool) (l : list Event) : bool :=
  match l with
  | [] => true
  | Shell ufw_enable _ :: rest => allowed && ssh_allowed_first false rest
  | Shell ufw_allow_ssh (Exit0 _) :: rest => ssh_allowed_first true rest
  | Shell _ _ :: rest => ssh_allowed_first false rest
  | _ :: rest => ssh_allowed_first allowed rest
  end.

(** What a pass that gets to its work does: the commands that add or
    delete a rule for an address, and the saving of the configuration. *)
Definition gets_to_work (e : Event) : bool :=
  match e with
  | Shell (rule _) _ => true
  | Http SaveConfig => true
  | _ => false
  end.

(** No such event, the gist as it was, and the set of addresses held to
    be allowed as it was. *)
Definition rules_kept {Machine} (w w' : World Machine) : Prop :=
  filter gets_to_work (trace w') = filter gets_to_work (trace w)
  /\ currentRules w' = currentRules w
  /\ gist w' = gist w.

End TuiServer.

(* ================================================================== *)
(** * tui.js: the configuration the setup wizard makes *)
(* ================================================================== *)

From Stdlib Require DecimalString.

Module TuiSetup.
Import JS.

(** The values of a configuration object, and the object by its members
    in the order they were written. *)
Inductive Value :=
| Null
| Str (s : string)
| Num (n : N).

Definition Object := list (string * Value).

(** [o.k]: [None] for [undefined], when the object has no such member. *)
Fixpoint get (o : Object) (k : string) : option Value :=
  match o with
  | [] => None
  | (k', v) :: rest => if String.eqb k' k then Some v else get rest k
  end.

(** The property key a value makes in [content[value] = ...]. *)
Definition ToPropertyKey (v : option Value) : string :=
  match v with
  | None => "undefined"
  | Some Null => "null"
  | Some (Str s) => s
  | Some (Num n) => DecimalString.NilZero.string_of_uint (N.to_uint n)
  end.

(** The object [setupWizard] builds, saves and returns (lines 547-575):
    [identifier] is [null] for a server, [sshPort] is [null] for a
    connector. *)
Definition setupWizard_config (isServer : bool) (token gistId : string)
    (identifier : option string) (sshPort : option N) (now : string) : Object :=
  [("nodeType", Str (if isServer then "server" else "connector"));
   ("githubToken", Str token);
   ("gistId", Str gistId);
   ("identifier", match identifier with Some s => Str s | None => Null end);
   ("sshPort", match sshPort with Some n => Num n | None => Null end);
   ("lastRun", Str now)].

(** The configuration as [updateIP] of [runConnectorNode] reads it: the
    key of [currentContent[config.domain] = ip] (line 641).  [updateIP]
    reads no port. *)
Definition as_read_by_updateIP (config : Object) : Tui.Config :=
  Tui.mkConfig (ToPropertyKey (get config "domain")) 0.

End TuiSetup.

(* ================================================================== *)
(** * Documents: lookups and writes *)
(* ================================================================== *)

Module DocFacts.
Import JS.

Lemma hasOwnProperty_prop d k :
  hasOwnProperty d k = true <-> exists v, prop d k = Some v.
Proof.
  unfold hasOwnProperty. destruct (prop d k) as [v|].
  - split; [eauto | reflexivity].
  - split; [discriminate | intros [v H]; discriminate].
Qed.

Lemma hasOwnProperty_false d k :
  hasOwnProperty d k = false <-> prop d k = None.
Proof.
  unfold hasOwnProperty. destruct (prop d k); split; congruence.
Qed.

Lemma prop_In d k v : prop d k = Some v -> In (k, v) d.
Proof.
  induction d as [|[k' v'] d IH]; simpl; [discriminate|].
  destruct (String.eqb_spec k' k) as [->|Hne].
  - intros [= ->]. now left.
  - intros H. right. now apply IH.
Qed.

Lemma prop_not_key d k : ~ In k (keys d) -> prop d k = None.
Proof.
  induction d as [|[k' v'] d IH]; simpl; [reflexivity|].
  intros H. destruct (String.eqb_spec k' k) as [->|Hne].
  - exfalso. apply H. now left.
  - apply IH. intros Hin. apply H. now right.
Qed.

Lemma prop_not_key_conv d k v : In (k, v) d -> prop d k <> None.
Proof.
  induction d as [|[k' v'] d IH]; simpl; [intros []|].
  intros [[= -> ->]|Hin].
  - now rewrite String.eqb_refl.
  - destruct (String.eqb k' k); [discriminate|now apply IH].
Qed.

Lemma In_prop d k v : NoDup (keys d) -> In (k, v) d -> prop d k = Some v.
Proof.
  induction d as [|[k' v'] d IH]; simpl; [intros _ []|].
  intros Hnd [[= -> ->]|Hin].
  - now rewrite String.eqb_refl.
  - inversion Hnd as [|? ? Hk Hnd']; subst.
    destruct (String.eqb_spec k' k) as [->|Hne].
    + exfalso. apply Hk. change k with (fst (k, v)). now apply in_map.
    + now apply IH.
Qed.

Lemma key_hasOwnProperty d k : In k (keys d) -> hasOwnProperty d k = true.
Proof.
  intros Hin. destruct (hasOwnProperty d k) eqn:E; [reflexivity|].
  apply hasOwnProperty_false in E. exfalso.
  apply in_map_iff in Hin. destruct Hin as ([k' v] & Hk & Hin). cbn in Hk. subst k'.
  now apply (prop_not_key_conv d k v).
Qed.

Lemma unique_keys_NoDup d : unique_keys d = true -> NoDup (keys d).
Proof.
  induction d as [|[k v] d IH]; cbn; [constructor|].
  intros [Hk Hd]%andb_prop. constructor; [|now apply IH].
  intros Hin. apply key_hasOwnProperty in Hin. rewrite Hin in Hk. discriminate.
Qed.

Lemma prop_write_prop d k v k' :
  prop (write_prop d k v) k' =
  if String.eqb k' k then (if hasOwnProperty d k then Some v else None)
  else prop d k'.
Proof.
  unfold hasOwnProperty.
  induction d as [|[a b] d IH]; simpl.
  - now destruct (String.eqb k' k).
  - destruct (String.eqb a k) eqn:Hak; simpl.
    + apply String.eqb_eq in Hak. subst a.
      rewrite (String.eqb_sym k k').
      now destruct (String.eqb k' k).
    + destruct (String.eqb a k') eqn:Hak'; [|apply IH].
      apply String.eqb_eq in Hak'. subst a. now rewrite Hak.
Qed.

Lemma prop_create_prop d k v k' :
  prop d k = None ->
  prop (create_prop d k v) k' = if String.eqb k' k then Some v else prop d k'.
Proof.
  induction d as [|[a b] d IH]; simpl; intros Hk.
  - now rewrite String.eqb_sym.
  - destruct (String.eqb a k) eqn:Hak; [discriminate|].
    destruct (listed_before k a); simpl.
    + now rewrite (String.eqb_sym k k').
    + destruct (String.eqb a k') eqn:Hak'; [|now apply IH].
      apply String.eqb_eq in Hak'. subst a. now rewrite Hak.
Qed.

(** After [d[k] = v], [k] maps to [v] and every other key reads as before. *)
Lemma prop_set_prop d k v k' :
  prop (set_prop d k v) k' = if String.eqb k' k then Some v else prop d k'.
Proof.
  unfold set_prop. destruct (hasOwnProperty d k) eqn:Hk.
  - rewrite prop_write_prop, Hk. reflexivity.
  - apply prop_create_prop. now apply hasOwnProperty_false.
Qed.

(** [d[k] = v] leaves an object an object. *)
Lemma hasOwnProperty_write_prop d k v k' :
  hasOwnProperty (write_prop d k v) k' = hasOwnProperty d k'.
Proof.
  unfold hasOwnProperty at 1. rewrite prop_write_prop.
  destruct (String.eqb_spec k' k) as [->|Hne]; [|reflexivity].
  now destruct (hasOwnProperty d k).
Qed.

Lemma unique_keys_write_prop d k v :
  unique_keys d = true -> unique_keys (write_prop d k v) = true.
Proof.
  induction d as [|[a b] d IH]; cbn; [reflexivity|].
  intros [Ha Hd]%andb_prop.
  destruct (String.eqb a k); cbn.
  - now rewrite Ha, Hd.
  - now rewrite hasOwnProperty_write_prop, Ha, IH.
Qed.

Lemma unique_keys_create_prop d k v :
  prop d k = None -> unique_keys d = true -> unique_keys (create_prop d k v) = true.
Proof.
  induction d as [|[a b] d IH]; cbn; [reflexivity|].
  destruct (String.eqb a k) eqn:Hak; [discriminate|].
  intros Hk [Ha Hd]%andb_prop.
  destruct (listed_before k a); cbn.
  - unfold hasOwnProperty at 1. cbn. rewrite Hak, Hk. cbn. now rewrite Ha, Hd.
  - unfold hasOwnProperty at 1. rewrite (prop_create_prop d k v a Hk), Hak.
    fold (hasOwnProperty d a). now rewrite Ha, IH.
Qed.

Lemma unique_keys_set_prop d k v :
  unique_keys d = true -> unique_keys (set_prop d k v) = true.
Proof.
  intros Hd. unfold set_prop. destruct (hasOwnProperty d k) eqn:Hk.
  - now apply unique_keys_write_prop.
  - apply unique_keys_create_prop; [now apply hasOwnProperty_false|exact Hd].
Qed.

(** Which keys are array indices, and where a new key is listed. *)
Example array_index_examples :
  array_index "0" = Some 0%N /\ array_index "42" = Some 42%N
  /\ array_index "4294967294" = Some 4294967294%N
  /\ array_index "4294967295" = None /\ array_index "042" = None
  /\ array_index "4a" = None /\ array_index "laptop" = None
  /\ array_index "" = None.
Proof. repeat split. Qed.

Example set_prop_examples :
  set_prop [("a", "1.1.1.1"); ("b", "2.2.2.2")] "b" "9.9.9.9" =
    [("a", "1.1.1.1"); ("b", "9.9.9.9")]
  /\ set_prop [("a", "1.1.1.1"); ("b", "2.2.2.2")] "c" "9.9.9.9" =
    [("a", "1.1.1.1"); ("b", "2.2.2.2"); ("c", "9.9.9.9")]
  /\ set_prop [("2", "1.1.1.1"); ("10", "2.2.2.2"); ("a", "3.3.3.3")] "7" "9.9.9.9" =
    [("2", "1.1.1.1"); ("7", "9.9.9.9"); ("10", "2.2.2.2"); ("a", "3.3.3.3")].
Proof. repeat split. Qed.

End DocFacts.

(* ================================================================== *)
(** * ip.js: the server pass *)
(* ================================================================== *)

Module ServerFacts.
Import JS JS.Notations Ufw Ip DocFacts.

(** ** Lists cut into segments *)

Lemma Forall2_In_segment {A B} (R : A -> list B -> Prop) l segs x :
  Forall2 R l segs -> In x l ->
  exists pre seg post, concat segs = pre ++ seg ++ post /\ R x seg.
Proof.
  induction 1 as [|y seg l segs Hy _ IH]; simpl; [intros []|].
  intros [->|Hin].
  - exists [], seg, (concat segs). now split.
  - destruct (IH Hin) as (pre & seg' & post & Heq & HR).
    exists (seg ++ pre), seg', post. split; [|exact HR].
    rewrite Heq. now rewrite app_assoc.
Qed.

Section Pass.

Variable FW : Type.
Variable sh : Cmd -> FW -> Exit * FW.
Variable outage : Request -> option string.
Variable port : N.

Local Abbreviation addRule := (Ip.addRule FW sh).
Local Abbreviation removeRule := (Ip.removeRule FW sh).
Local Abbreviation listRules := (Ip.listRules FW sh).
Local Abbreviation processEntry := (Ip.processEntry FW sh).
Local Abbreviation removeDeleted := (Ip.removeDeleted FW sh).
Local Abbreviation reconcile := (Ip.reconcile FW sh outage).
Local Abbreviation serverMode := (Ip.serverMode FW sh outage).

(** ** One firewall call *)

Lemma addRule_run ip (w : World FW) :
  exists evs thrown s,
    add_call port ip evs thrown /\
    addRule port ip w =
      (match thrown with None => inr tt | Some m => inl (Error m) end,
       mkWorld s (state_file w) (gist w) (trace w ++ evs)).
Proof.
  unfold Ip.addRule, try_catch, bind, dollar, console_log, emit, throw.
  destruct (sh _ (firewall w)) as [[out|m] s]; simpl.
  - exists [Shell (rule_add (mkRule allow ip port)) (Exit0 out); Console (AddedRule ip)], None, s.
    split; [constructor|]. now rewrite <- app_assoc.
  - eexists _, _, s. split; [apply call_threw|]. reflexivity.
Qed.

Lemma removeRule_run ip (w : World FW) :
  exists evs thrown s,
    remove_call port ip evs thrown /\
    removeRule port ip w =
      (match thrown with None => inr tt | Some m => inl (Error m) end,
       mkWorld s (state_file w) (gist w) (trace w ++ evs)).
Proof.
  unfold Ip.removeRule, try_catch, bind, dollar, console_log, emit, throw.
  destruct (sh _ (firewall w)) as [[out|m] s]; simpl.
  - exists [Shell (rule_delete (mkRule allow ip port)) (Exit0 out); Console (RemovedRule ip)], None, s.
    split; [constructor|]. now rewrite <- app_assoc.
  - eexists _, _, s. split; [apply call_threw|]. reflexivity.
Qed.

(** ** One turn of each loop *)

Lemma processEntry_run oldData entry (w : World FW) :
  exists seg s,
    entry_segment port oldData entry seg /\
    processEntry port oldData entry w =
      (inr tt, mkWorld s (state_file w) (gist w) (trace w ++ seg)).
Proof.
  destruct entry as [domain ip].
  cbv beta iota delta [Ip.processEntry try_catch bind console_log emit].
  destruct (prop oldData domain) as [old|] eqn:Hold.
  - destruct (String.eqb_spec old ip) as [->|Hne]; cbn [negb].
    + eexists _, _. split; [now apply seg_same|]. reflexivity.
    + cbn [firewall state_file gist trace].
      match goal with
      | |- context [Ip.removeRule _ _ _ _ ?w1] =>
          destruct (removeRule_run old w1) as (evs1 & [m|] & s1 & Hc1 & ->)
      end; cbn [firewall state_file gist trace].
      * eexists _, _. split; [eapply seg_stuck; eauto|].
        rewrite <- !app_assoc. reflexivity.
      * match goal with
        | |- context [Ip.addRule _ _ _ _ ?w1] =>
            destruct (addRule_run ip w1) as (evs2 & thrown & s2 & Hc2 & ->)
        end; cbn [firewall state_file gist trace].
        eexists _, _. split; [eapply seg_replaced; eauto|].
        destruct thrown; cbn [recorded firewall state_file gist trace message];
          rewrite <- ?app_assoc, ?app_nil_r; reflexivity.
  - cbn [firewall state_file gist trace].
    match goal with
    | |- context [Ip.addRule _ _ _ _ ?w1] =>
        destruct (addRule_run ip w1) as (evs2 & thrown & s2 & Hc2 & ->)
    end; cbn [firewall state_file gist trace].
    eexists _, _. split; [eapply seg_new; eauto|].
    destruct thrown; cbn [recorded firewall state_file gist trace message];
      rewrite <- ?app_assoc, ?app_nil_r; reflexivity.
Qed.

Lemma removeDeleted_run newData entry (w : World FW) :
  exists seg s,
    deleted_segment port newData entry seg /\
    removeDeleted port newData entry w =
      (inr tt, mkWorld s (state_file w) (gist w) (trace w ++ seg)).
Proof.
  destruct entry as [oldDomain oldIp].
  cbv beta iota delta [Ip.removeDeleted try_catch bind console_log emit ret].
  destruct (hasOwnProperty newData oldDomain) eqn:Hown; cbn [negb].
  - exists [], (firewall w). split; [now apply seg_kept|].
    rewrite app_nil_r. now destruct w.
  - cbn [firewall state_file gist trace].
    match goal with
    | |- context [Ip.removeRule _ _ _ _ ?w1] =>
        destruct (removeRule_run oldIp w1) as (evs & thrown & s1 & Hc & ->)
    end; cbn [firewall state_file gist trace].
    eexists _, _. split; [eapply seg_deleted; eauto|].
    destruct thrown; cbn [recorded firewall state_file gist trace message];
      rewrite <- ?app_assoc, ?app_nil_r; reflexivity.
Qed.

(** ** The loops: no turn throws, so every entry gets its turn *)

Lemma for_of_run {A} (R : A -> list Event -> Prop) (body : A -> M (World FW) unit) :
  (forall x w, exists seg s,
      R x seg /\
      body x w = (inr tt, mkWorld s (state_file w) (gist w) (trace w ++ seg))) ->
  forall l w, exists segs s,
      Forall2 R l segs /\
      for_of l body w =
        (inr tt, mkWorld s (state_file w) (gist w) (trace w ++ concat segs)).
Proof.
  intros Hbody. induction l as [|x l IH]; intros w.
  - exists [], (firewall w). split; [constructor|].
    cbn. rewrite app_nil_r. now destruct w.
  - destruct (Hbody x w) as (seg & s1 & Hseg & Hrun).
    cbn [for_of]. unfold bind at 1. rewrite Hrun.
    destruct (IH (mkWorld s1 (state_file w) (gist w) (trace w ++ seg)))
      as (segs & s2 & Hsegs & ->).
    exists (seg :: segs), s2. split; [now constructor|].
    cbn [firewall state_file gist trace concat]. now rewrite <- app_assoc.
Qed.

(** ** Reading the two documents *)

Lemma loadLocalState_run (w : World FW) :
  loadLocalState FW w =
    (inr (checkpoint_of (state_file w)),
     mkWorld (firewall w) (state_file w) (gist w)
       (trace w ++ load_warning (state_file w))).
Proof.
  unfold loadLocalState, try_catch, bind, existsSync, readFile, lift,
    console_log, emit, ret.
  destruct w as [s f g tr]; cbn [firewall state_file gist trace].
  destruct f as [|[| |d]]; cbn; now rewrite ?app_nil_r.
Qed.

Lemma getGistContent_run text (w : World FW) :
  outage GetRaw = None ->
  getGistContent FW outage text w =
    (inr (read_doc text),
     mkWorld (firewall w) (state_file w) (gist w)
       (trace w ++ [Http GetRaw] ++ parse_warning WarnInvalidJSON text)).
Proof.
  intros Hup.
  unfold getGistContent, try_catch, bind, request, lift, console_log, emit, ret.
  rewrite Hup. destruct text; cbn; now rewrite <- ?app_assoc.
Qed.

Lemma getGistContent_unreachable text m (w : World FW) :
  outage GetRaw = Some m ->
  getGistContent FW outage text w =
    (inl (Error ("Failed to fetch gist content: " ++ m)),
     mkWorld (firewall w) (state_file w) (gist w) (trace w ++ [Http GetRaw])).
Proof.
  intros Hdown.
  unfold getGistContent, try_catch, bind, request, throw. now rewrite Hdown.
Qed.

Lemma listRules_run (w : World FW) :
  exists tail ret s,
    listing tail ret /\
    bind listRules (fun _ => JS.ret Undefined) w =
      (match ret with
       | Undefined => inr Undefined
       | RetryMenu =>
           inl (Error (match tail with
                       | [Shell _ (ShellError m); _] => "Failed to list UFW rules: " ++ m
                       | _ => ""
                       end))
       end,
       mkWorld s (state_file w) (gist w)
         (trace w ++ match ret with Undefined => tail | RetryMenu => firstn 1 tail end)).
Proof.
  unfold Ip.listRules, try_catch, bind, dollar, console_log, emit, throw, JS.ret.
  destruct (sh status_numbered (firewall w)) as [[out|m] s]; cbn.
  - eexists _, Undefined, s. split; [apply listing_printed|].
    now rewrite <- app_assoc.
  - eexists _, RetryMenu, s. split; [apply (listing_failed m)|]. reflexivity.
Qed.

(** ** The whole pass *)

Lemma serverMode_run text (w : World FW) :
  outage GetGists = None -> outage GetRaw = None -> gist w = Some text ->
  exists ret s tr,
    serverMode port w =
      (inr ret, mkWorld s (FileOf (JSONText (read_doc text))) (gist w) (trace w ++ tr))
    /\ pass_trace port (state_file w) text ret tr.
Proof.
  intros Hlist Hraw Hgist.
  destruct w as [s0 f g tr0]; cbn [firewall state_file gist trace] in *.
  subst g.
  unfold Ip.serverMode, try_catch at 1, bind at 1.
  unfold getAllGists, try_catch at 1, bind at 1, request.
  rewrite Hlist. unfold read_gist. cbn [firewall state_file gist trace].
  unfold Ip.reconcile, bind at 1. rewrite getGistContent_run by exact Hraw.
  unfold bind at 1. rewrite loadLocalState_run.
  cbn [firewall state_file gist trace].
  set (old := checkpoint_of f). set (new := read_doc text).
  unfold bind at 1.
  match goal with
  | |- context [for_of new ?body ?w1] =>
      destruct (for_of_run (entry_segment port old) body
                  (processEntry_run old) new w1) as (segs1 & s1 & H1 & ->)
  end.
  cbn [firewall state_file gist trace]. unfold bind at 1.
  match goal with
  | |- context [for_of old ?body ?w1] =>
      destruct (for_of_run (deleted_segment port new) body
                  (removeDeleted_run new) old w1) as (segs2 & s2 & H2 & ->)
  end.
  cbn [firewall state_file gist trace].
  unfold bind at 1, writeFile. cbn [firewall state_file gist trace].
  unfold bind at 1, console_log at 1, emit. cbn [firewall state_file gist trace].
  match goal with
  | |- context [bind (Ip.listRules FW sh) ?k ?w1] =>
      destruct (listRules_run w1) as (tail & ret & s3 & Hl & Hrun);
      rewrite Hrun; clear Hrun
  end.
  cbn [firewall state_file gist trace].
  exists ret. destruct Hl as [out|m]; cbn.
  - eexists s3, _. split.
    + rewrite <- !app_assoc. reflexivity.
    + exists segs1, segs2, [Shell status_numbered (Exit0 out); Console (Stdout out)].
      split; [|split; [exact H1|split; [exact H2|constructor]]].
      cbn. rewrite <- ?app_assoc. reflexivity.
  - eexists s3, _. split.
    + rewrite <- !app_assoc. reflexivity.
    + exists segs1, segs2,
        [Shell status_numbered (ShellError m);
         Console (ErrorMsg ("Failed to list UFW rules: " ++ m))].
      split; [|split; [exact H1|split; [exact H2|constructor]]].
      cbn. rewrite <- ?app_assoc. reflexivity.
Qed.

End Pass.

(** ** What the segments of a trace contain *)

(** Opens the calls of a segment into their two outcomes. *)
Ltac invert_calls :=
  repeat match goal with
  | H : add_call _ _ _ _ |- _ => inversion H; subst; clear H
  | H : remove_call _ _ _ _ |- _ => inversion H; subst; clear H
  end.

Section Traces.

Variable port : N.

Lemma announced_app tr1 tr2 : announced (tr1 ++ tr2) = announced tr1 ++ announced tr2.
Proof. apply flat_map_app. Qed.

Lemma rule_commands_app tr1 tr2 :
  rule_commands (tr1 ++ tr2) = rule_commands tr1 ++ rule_commands tr2.
Proof. apply flat_map_app. Qed.

Lemma all_succeeded_app tr1 tr2 :
  all_succeeded (tr1 ++ tr2) = all_succeeded tr1 && all_succeeded tr2.
Proof. apply forallb_app. Qed.

Lemma announced_parse_warning line t :
  line = WarnInvalidJSON \/ line = WarnLocalState ->
  announced (parse_warning line t) = [].
Proof. intros [->| ->]; now destruct t. Qed.

Lemma rule_commands_parse_warning line t : rule_commands (parse_warning line t) = [].
Proof. now destruct t. Qed.

Lemma announced_load_warning f : announced (load_warning f) = [].
Proof. destruct f as [|t]; [reflexivity|]. apply announced_parse_warning. now right. Qed.

Lemma rule_commands_load_warning f : rule_commands (load_warning f) = [].
Proof. destruct f as [|t]; [reflexivity|]. apply rule_commands_parse_warning. Qed.

Lemma announced_listing tail ret : listing tail ret -> announced tail = [].
Proof. now destruct 1. Qed.

Lemma rule_commands_listing tail ret : listing tail ret -> rule_commands tail = [].
Proof. now destruct 1. Qed.

(** The first loop announces what [plan_entry] lists. *)
Lemma entry_segment_announced oldData entry seg :
  entry_segment port oldData entry seg -> announced seg = plan_entry oldData entry.
Proof.
  destruct 1 as [domain ip evs thrown Hold Hc | domain ip Hold
                | domain ip old evs1 evs2 thrown Hold Hne Hc1 Hc2
                | domain ip old evs1 m Hold Hne Hc1];
    cbn [plan_entry]; rewrite Hold; invert_calls.
  - reflexivity.
  - reflexivity.
  - now rewrite String.eqb_refl.
  - apply String.eqb_neq in Hne. now rewrite Hne.
  - apply String.eqb_neq in Hne. now rewrite Hne.
  - apply String.eqb_neq in Hne. now rewrite Hne.
Qed.

Lemma deleted_segment_announced newData entry seg :
  deleted_segment port newData entry seg -> announced seg = plan_deleted newData entry.
Proof.
  destruct 1 as [oldDomain oldIp Hown | oldDomain oldIp evs thrown Hown Hc];
    cbn [plan_deleted]; rewrite Hown; invert_calls; reflexivity.
Qed.

(** When no command of a turn fails, the commands run are those of the
    operations announced. *)
Lemma entry_segment_commands oldData entry seg :
  entry_segment port oldData entry seg -> all_succeeded seg = true ->
  rule_commands seg = map (cmd_of_op port) (plan_entry oldData entry).
Proof.
  destruct 1 as [domain ip evs thrown Hold Hc | domain ip Hold
                | domain ip old evs1 evs2 thrown Hold Hne Hc1 Hc2
                | domain ip old evs1 m Hold Hne Hc1];
    cbn [plan_entry]; rewrite Hold; invert_calls; try discriminate.
  - reflexivity.
  - now rewrite String.eqb_refl.
  - apply String.eqb_neq in Hne. now rewrite Hne.
Qed.

Lemma deleted_segment_commands newData entry seg :
  deleted_segment port newData entry seg -> all_succeeded seg = true ->
  rule_commands seg = map (cmd_of_op port) (plan_deleted newData entry).
Proof.
  destruct 1 as [oldDomain oldIp Hown | oldDomain oldIp evs thrown Hown Hc];
    cbn [plan_deleted]; rewrite Hown; invert_calls; try discriminate; reflexivity.
Qed.

(** A turn that announces nothing runs nothing. *)
Lemma entry_segment_idle oldData entry seg :
  entry_segment port oldData entry seg -> plan_entry oldData entry = [] ->
  rule_commands seg = [].
Proof.
  destruct 1 as [domain ip evs thrown Hold Hc | domain ip Hold
                | domain ip old evs1 evs2 thrown Hold Hne Hc1 Hc2
                | domain ip old evs1 m Hold Hne Hc1];
    cbn [plan_entry]; rewrite Hold; try discriminate; try reflexivity;
    apply String.eqb_neq in Hne; rewrite Hne; discriminate.
Qed.

Lemma deleted_segment_idle newData entry seg :
  deleted_segment port newData entry seg -> plan_deleted newData entry = [] ->
  rule_commands seg = [].
Proof.
  destruct 1 as [oldDomain oldIp Hown | oldDomain oldIp evs thrown Hown Hc];
    cbn [plan_deleted]; rewrite Hown; [reflexivity|discriminate].
Qed.

(** An entry the local state does not know gets exactly one [allow]. *)
Lemma entry_segment_fresh entry seg :
  entry_segment port [] entry seg ->
  rule_commands seg = [rule_add (mkRule allow (snd entry) port)]
  /\ forall c, In c (rule_commands seg) -> exists r, c = rule_add r.
Proof.
  destruct 1 as [domain ip evs thrown Hold Hc | domain ip Hold
                | domain ip old evs1 evs2 thrown Hold Hne Hc1 Hc2
                | domain ip old evs1 m Hold Hne Hc1];
    try discriminate.
  invert_calls; (split; [reflexivity|]); cbn; intros c [<-|[]]; eauto.
Qed.

End Traces.

(** ** The plan, identifier by identifier *)

Section Plan.

Lemma about_plan_entry oldData domain ip id :
  filter (about id) (plan_entry oldData (domain, ip)) =
  if String.eqb domain id then plan_entry oldData (domain, ip) else [].
Proof.
  cbn [plan_entry]. unfold about.
  destruct (prop oldData domain) as [old|];
    [destruct (negb (String.eqb old ip))|]; cbn;
    now destruct (String.eqb domain id).
Qed.

Lemma about_plan_deleted newData oldDomain oldIp id :
  filter (about id) (plan_deleted newData (oldDomain, oldIp)) =
  if String.eqb oldDomain id then plan_deleted newData (oldDomain, oldIp) else [].
Proof.
  cbn [plan_deleted]. unfold about.
  destruct (negb (hasOwnProperty newData oldDomain)); cbn;
    now destruct (String.eqb oldDomain id).
Qed.

(** With unique keys, the operations about [id] in a loop's output are
    those of the one entry of [id], if there is one. *)
Lemma about_flat_map (f : Identifier * Address -> list Op) d id :
  (forall k v, filter (about id) (f (k, v)) = if String.eqb k id then f (k, v) else []) ->
  NoDup (keys d) ->
  filter (about id) (flat_map f d) =
  match prop d id with
  | Some v => f (id, v)
  | None => []
  end.
Proof.
  intros Hf. induction d as [|[k v] d IH]; intros Hnd; [reflexivity|].
  inversion Hnd as [|? ? Hk Hnd']; subst.
  cbn [flat_map prop]. rewrite filter_app, Hf, (IH Hnd').
  destruct (String.eqb_spec k id) as [->|Hne]; [|reflexivity].
  rewrite (prop_not_key d id Hk). apply app_nil_r.
Qed.

Lemma about_plan oldData newData id :
  NoDup (keys oldData) -> NoDup (keys newData) ->
  filter (about id) (plan oldData newData) = spec_ops oldData newData id.
Proof.
  intros Hold Hnew. unfold plan, spec_ops.
  rewrite filter_app.
  rewrite (about_flat_map (plan_entry oldData) newData id
             (fun k v => about_plan_entry oldData k v id) Hnew).
  rewrite (about_flat_map (plan_deleted newData) oldData id
             (fun k v => about_plan_deleted newData k v id) Hold).
  cbn [plan_entry plan_deleted]. unfold hasOwnProperty.
  destruct (prop oldData id) as [old|], (prop newData id) as [new|]; cbn;
    try reflexivity.
  destruct (String.eqb old new); reflexivity.
Qed.

(** A changed address is a [Remove] with its [Add] right behind. *)
Lemma plan_replace_adjacent oldData newData id old new :
  prop oldData id = Some old -> prop newData id = Some new -> old <> new ->
  exists l1 l2, plan oldData newData = l1 ++ Remove id old :: Add id new :: l2.
Proof.
  intros Hold Hnew Hne. apply prop_In in Hnew.
  destruct (in_split _ _ Hnew) as (d1 & d2 & ->).
  exists (flat_map (plan_entry oldData) d1),
    (flat_map (plan_entry oldData) d2
       ++ flat_map (plan_deleted (d1 ++ (id, new) :: d2)) oldData).
  unfold plan. rewrite flat_map_app. cbn [flat_map plan_entry].
  rewrite Hold. apply String.eqb_neq in Hne. rewrite Hne. cbn.
  now rewrite <- !app_assoc.
Qed.

Lemma plan_entry_same d : NoDup (keys d) ->
  forall d', incl d' d -> flat_map (plan_entry d) d' = [].
Proof.
  intros Hnd. induction d' as [|[k v] d' IH]; intros Hincl; [reflexivity|].
  cbn [flat_map plan_entry].
  rewrite (In_prop d k v Hnd) by (apply Hincl; now left).
  rewrite String.eqb_refl. cbn. apply IH.
  intros x Hx. apply Hincl. now right.
Qed.

Lemma plan_deleted_same d :
  forall d', incl d' d -> flat_map (plan_deleted d) d' = [].
Proof.
  induction d' as [|[k v] d' IH]; intros Hincl; [reflexivity|].
  cbn [flat_map plan_deleted].
  assert (Hown : hasOwnProperty d k = true).
  { destruct (hasOwnProperty d k) eqn:E; [reflexivity|].
    apply hasOwnProperty_false in E. exfalso.
    apply (prop_not_key_conv d k v); [apply Hincl; now left|exact E]. }
  rewrite Hown. cbn. apply IH. intros x Hx. apply Hincl. now right.
Qed.

(** Reconciling a document against itself plans nothing. *)
Lemma plan_same d : NoDup (keys d) -> plan d d = [].
Proof.
  intros Hnd. unfold plan.
  rewrite (plan_entry_same d Hnd d (incl_refl d)).
  now rewrite (plan_deleted_same d d (incl_refl d)).
Qed.

(** Against the empty local state every entry is an [Add]. *)
Lemma plan_from_empty newData :
  plan [] newData = map (fun entry => Add (fst entry) (snd entry)) newData.
Proof.
  unfold plan. cbn [flat_map]. rewrite app_nil_r.
  induction newData as [|[k v] d IH]; [reflexivity|].
  cbn [flat_map map]. now rewrite IH.
Qed.

End Plan.

(** ** What a whole pass leaves in its trace *)

Section PassTrace.

Variable port : N.
Variable f : File.
Variable store : Text.
Variable ret : Returned.
Variable tr : list Event.
Hypothesis Htr : pass_trace port f store ret tr.

Let oldData := checkpoint_of f.
Let newData := read_doc store.

Lemma concat_announced {A} (R : A -> list Event -> Prop) (g : A -> list Op) l segs :
  (forall x seg, R x seg -> announced seg = g x) ->
  Forall2 R l segs -> announced (concat segs) = flat_map g l.
Proof.
  intros Hg. induction 1 as [|x seg l segs Hx _ IH]; [reflexivity|].
  cbn [concat flat_map]. now rewrite announced_app, IH, (Hg _ _ Hx).
Qed.

Lemma concat_commands {A} (R : A -> list Event -> Prop) (g : A -> list Op) l segs :
  (forall x seg, R x seg -> all_succeeded seg = true ->
                 rule_commands seg = map (cmd_of_op port) (g x)) ->
  Forall2 R l segs -> all_succeeded (concat segs) = true ->
  rule_commands (concat segs) = map (cmd_of_op port) (flat_map g l).
Proof.
  intros Hg. induction 1 as [|x seg l segs Hx _ IH]; [reflexivity|].
  cbn [concat flat_map]. rewrite all_succeeded_app.
  intros [Hseg Hrest]%andb_prop.
  now rewrite rule_commands_app, map_app, IH, (Hg _ _ Hx Hseg).
Qed.

Lemma concat_idle {A} (R : A -> list Event -> Prop) (g : A -> list Op) l segs :
  (forall x seg, R x seg -> g x = [] -> rule_commands seg = []) ->
  Forall2 R l segs -> flat_map g l = [] -> rule_commands (concat segs) = [].
Proof.
  intros Hg. induction 1 as [|x seg l segs Hx _ IH]; [reflexivity|].
  cbn [concat flat_map]. intros [Hx0 Hl0]%app_eq_nil.
  now rewrite rule_commands_app, IH, (Hg _ _ Hx Hx0).
Qed.

Lemma pass_announced : announced tr = plan oldData newData.
Proof.
  destruct Htr as (segs1 & segs2 & tail & -> & H1 & H2 & Hl).
  rewrite !announced_app.
  rewrite (announced_parse_warning WarnInvalidJSON store (or_introl eq_refl)).
  rewrite announced_load_warning.
  rewrite (concat_announced _ _ _ _ (entry_segment_announced port oldData) H1).
  rewrite (concat_announced _ _ _ _ (deleted_segment_announced port newData) H2).
  rewrite (announced_listing _ _ Hl). cbn. now rewrite app_nil_r.
Qed.

Lemma pass_commands :
  all_succeeded tr = true ->
  rule_commands tr = map (cmd_of_op port) (plan oldData newData).
Proof.
  destruct Htr as (segs1 & segs2 & tail & -> & H1 & H2 & Hl).
  rewrite !all_succeeded_app.
  intros (_ & (_ & (_ & (Hs1 & (Hs2 & _)%andb_prop)%andb_prop)%andb_prop)%andb_prop)%andb_prop.
  rewrite !rule_commands_app.
  rewrite rule_commands_parse_warning, rule_commands_load_warning.
  rewrite (concat_commands _ _ _ _ (entry_segment_commands port oldData) H1 Hs1).
  rewrite (concat_commands _ _ _ _ (deleted_segment_commands port newData) H2 Hs2).
  rewrite (rule_commands_listing _ _ Hl). cbn.
  unfold plan. now rewrite map_app, app_nil_r.
Qed.

Lemma pass_idle : plan oldData newData = [] -> rule_commands tr = [].
Proof.
  destruct Htr as (segs1 & segs2 & tail & -> & H1 & H2 & Hl).
  unfold plan. intros [Hp1 Hp2]%app_eq_nil.
  rewrite !rule_commands_app.
  rewrite rule_commands_parse_warning, rule_commands_load_warning.
  rewrite (concat_idle _ _ _ _ (entry_segment_idle port oldData) H1 Hp1).
  rewrite (concat_idle _ _ _ _ (deleted_segment_idle port newData) H2 Hp2).
  now rewrite (rule_commands_listing _ _ Hl).
Qed.

(** The state file is written once every turn of both loops is over. *)
Lemma pass_write_last :
  exists pre post,
    tr = pre ++ WriteState (JSONText newData) :: post
    /\ rule_commands pre = rule_commands tr
    /\ rule_commands post = [].
Proof.
  destruct Htr as (segs1 & segs2 & tail & -> & H1 & H2 & Hl).
  exists ([Http GetGists; Http GetRaw]
            ++ parse_warning WarnInvalidJSON store ++ load_warning f
            ++ concat segs1 ++ concat segs2),
    (Console CurrentRules :: tail).
  split; [now rewrite <- !app_assoc|].
  split; [|exact (rule_commands_listing _ _ Hl)].
  rewrite !rule_commands_app.
  rewrite (rule_commands_listing _ _ Hl). cbn. now rewrite !app_nil_r.
Qed.

(** Only the listing that ends the pass can send it to the outer [catch]. *)
Lemma pass_returns :
  ret = RetryMenu -> exists m, In (Shell status_numbered (ShellError m)) tr.
Proof.
  destruct Htr as (segs1 & segs2 & tail & -> & H1 & H2 & Hl).
  intros ->. inversion Hl as [|m]; subst. exists m.
  rewrite !in_app_iff. do 6 right. now left.
Qed.

(** Every entry of the fetched document gets its turn in the trace. *)
Lemma pass_entry_turn entry :
  In entry newData ->
  exists pre seg post,
    tr = pre ++ seg ++ post /\ entry_segment port oldData entry seg.
Proof.
  destruct Htr as (segs1 & segs2 & tail & -> & H1 & H2 & Hl).
  intros Hin.
  destruct (Forall2_In_segment _ _ _ _ H1 Hin) as (pre & seg & post & Heq & Hseg).
  exists ([Http GetGists; Http GetRaw]
            ++ parse_warning WarnInvalidJSON store ++ load_warning f ++ pre),
    seg,
    (post ++ concat segs2
       ++ [WriteState (JSONText (read_doc store)); Console CurrentRules] ++ tail).
  split; [|exact Hseg]. rewrite Heq. now rewrite <- !app_assoc.
Qed.

(** Every entry of the local state gets its turn in the second loop. *)
Lemma pass_deleted_turn entry :
  In entry oldData ->
  exists pre seg post,
    tr = pre ++ seg ++ post /\ deleted_segment port newData entry seg.
Proof.
  destruct Htr as (segs1 & segs2 & tail & -> & H1 & H2 & Hl).
  intros Hin.
  destruct (Forall2_In_segment _ _ _ _ H2 Hin) as (pre & seg & post & Heq & Hseg).
  exists ([Http GetGists; Http GetRaw]
            ++ parse_warning WarnInvalidJSON store ++ load_warning f
            ++ concat segs1 ++ pre),
    seg,
    (post ++ [WriteState (JSONText (read_doc store)); Console CurrentRules] ++ tail).
  split; [|exact Hseg]. rewrite Heq. now rewrite <- !app_assoc.
Qed.

End PassTrace.

(** ** Failures and their record *)

Section Failures.

Variable port : N.

Lemma failures_recorded_app tr1 tr2 :
  failures_recorded tr1 = true ->
  failures_recorded (tr1 ++ tr2) = failures_recorded tr2.
Proof.
  induction tr1 as [|e tr1 IH]; [reflexivity|].
  destruct e as [c r|m|t|q]; cbn [app failures_recorded]; try exact IH.
  destruct c as [rule|rule|]; try exact IH;
    (destruct r as [out|msg]; [exact IH|]);
    (destruct tr1 as [|[c' r'|[]|t'|q'] tr1]; try discriminate; exact IH).
Qed.

Lemma entry_segment_recorded oldData entry seg :
  entry_segment port oldData entry seg -> failures_recorded seg = true.
Proof.
  destruct 1 as [domain ip evs thrown Hold Hc | domain ip Hold
                | domain ip old evs1 evs2 thrown Hold Hne Hc1 Hc2
                | domain ip old evs1 m Hold Hne Hc1];
    invert_calls; reflexivity.
Qed.

Lemma deleted_segment_recorded newData entry seg :
  deleted_segment port newData entry seg -> failures_recorded seg = true.
Proof.
  destruct 1 as [oldDomain oldIp Hown | oldDomain oldIp evs thrown Hown Hc];
    invert_calls; reflexivity.
Qed.

Lemma concat_recorded {A} (R : A -> list Event -> Prop) l segs :
  (forall x seg, R x seg -> failures_recorded seg = true) ->
  Forall2 R l segs -> failures_recorded (concat segs) = true.
Proof.
  intros HR. induction 1 as [|x seg l segs Hx _ IH]; [reflexivity|].
  cbn [concat]. now rewrite (failures_recorded_app _ _ (HR _ _ Hx)).
Qed.

Lemma pass_failures_recorded f store ret tr :
  pass_trace port f store ret tr -> failures_recorded tr = true.
Proof.
  intros (segs1 & segs2 & tail & -> & H1 & H2 & Hl).
  rewrite failures_recorded_app by reflexivity.
  rewrite failures_recorded_app by now destruct store.
  rewrite failures_recorded_app by now destruct f as [|[]].
  rewrite failures_recorded_app
    by exact (concat_recorded _ _ _ (entry_segment_recorded _) H1).
  rewrite failures_recorded_app
    by exact (concat_recorded _ _ _ (deleted_segment_recorded _) H2).
  now destruct Hl.
Qed.

(** ** The first command of a turn *)

Lemma turn_taken_in announce c line pre seg post :
  turn_taken announce c line seg \/
  (exists r rest,
      seg = Console announce :: Shell c r :: rest
      /\ forall m, r = ShellError m -> exists msg, rest = [Console (line msg)]) ->
  turn_taken announce c line (pre ++ seg ++ post).
Proof.
  intros [(pre' & r & post' & -> & Hr)|(r & rest & -> & Hr)].
  - exists (pre ++ pre'), r, (post' ++ post). split.
    + now rewrite <- !app_assoc.
    + intros m Hm. destruct (Hr m Hm) as (msg & post'' & ->).
      now exists msg, (post'' ++ post).
  - exists pre, r, (rest ++ post). split; [reflexivity|].
    intros m Hm. destruct (Hr m Hm) as (msg & ->). now exists msg, post.
Qed.

Lemma entry_segment_new oldData domain ip seg :
  entry_segment port oldData (domain, ip) seg -> prop oldData domain = None ->
  exists r rest,
    seg = Console (AddingNew domain ip)
            :: Shell (rule_add (mkRule allow ip port)) r :: rest
    /\ forall m, r = ShellError m -> exists msg, rest = [Console (FailedUpdate domain msg)].
Proof.
  intros Hseg Hold.
  inversion Hseg as [? ? evs thrown _ Hc | ? ? Hold' | ? ? old ? ? ? Hold' | ? ? old ? ? Hold'];
    subst; try congruence.
  inversion Hc; subst; clear Hc.
  - eexists _, _. split; [reflexivity|]. intros m [=].
  - eexists _, _. split; [reflexivity|]. intros m' [= <-]. eexists. reflexivity.
Qed.

(** A changed entry: the delete of the old address runs first; the [allow]
    of the new one runs exactly when that delete succeeded. *)
Lemma entry_segment_changed oldData domain ip old seg :
  entry_segment port oldData (domain, ip) seg ->
  prop oldData domain = Some old -> old <> ip ->
  exists r rest,
    seg = Console (Updating domain old ip)
            :: Shell (rule_delete (mkRule allow old port)) r :: rest
    /\ match r with
       | ShellError m =>
           rest = [Console (FailedUpdate domain ("Failed to remove UFW rule: " ++ m))]
       | Exit0 _ =>
           exists r' rest',
             rest = Console (RemovedRule old)
                      :: Shell (rule_add (mkRule allow ip port)) r' :: rest'
       end.
Proof.
  intros Hseg Hold Hne.
  inversion Hseg as [? ? evs thrown Hold' Hc | ? ? Hold'
                    | ? ? old' evs1 evs2 thrown Hold' _ Hc1 Hc2
                    | ? ? old' evs1 m Hold' _ Hc1];
    subst; try congruence;
    assert (old' = old) by congruence; subst old'.
  - inversion Hc1; subst; clear Hc1. inversion Hc2; subst; clear Hc2.
    + eexists _, _. split; [reflexivity|]. eexists _, _. reflexivity.
    + eexists _, _. split; [reflexivity|]. eexists _, _. reflexivity.
  - inversion Hc1; subst; clear Hc1.
    eexists _, _. split; reflexivity.
Qed.

Lemma deleted_segment_gone newData oldDomain oldIp seg :
  deleted_segment port newData (oldDomain, oldIp) seg ->
  prop newData oldDomain = None ->
  exists r rest,
    seg = Console (RemovingDeleted oldDomain oldIp)
            :: Shell (rule_delete (mkRule allow oldIp port)) r :: rest
    /\ forall m, r = ShellError m -> exists msg, rest = [Console (FailedRemove oldDomain msg)].
Proof.
  intros Hseg Hnew. apply hasOwnProperty_false in Hnew.
  inversion Hseg as [? ? Hown | ? ? evs thrown Hown Hc]; subst; try congruence.
  inversion Hc; subst; clear Hc.
  - eexists _, _. split; [reflexivity|]. intros m [=].
  - eexists _, _. split; [reflexivity|]. intros m' [= <-]. eexists. reflexivity.
Qed.

End Failures.

(** ** A pass from its start *)

Section FromStart.

Variable FW : Type.
Variable sh : Cmd -> FW -> Exit * FW.
Variable port : N.

Lemma server_pass_run (s0 : FW) f store :
  exists ret s tr,
    server_pass FW sh port s0 f store =
      (inr ret, mkWorld s (FileOf (JSONText (read_doc store))) (Some store) tr)
    /\ pass_trace port f store ret tr.
Proof.
  unfold server_pass.
  destruct (serverMode_run FW sh reachable port store
              (mkWorld s0 f (Some store) []) eq_refl eq_refl eq_refl)
    as (ret & s & tr & Hrun & Htr).
  now exists ret, s, tr.
Qed.

Lemma concat_fresh l segs :
  Forall2 (entry_segment port []) l segs ->
  rule_commands (concat segs) =
    map (fun entry => rule_add (mkRule allow (snd entry) port)) l.
Proof.
  induction 1 as [|x seg l segs Hx _ IH]; [reflexivity|].
  cbn [concat map]. rewrite rule_commands_app, IH.
  now rewrite (proj1 (entry_segment_fresh port x seg Hx)).
Qed.

(** With nothing read from the state file, a pass announces and runs one
    [allow] per entry of the fetched document, and no delete. *)
Lemma fresh_pass f store ret tr :
  checkpoint_of f = [] -> pass_trace port f store ret tr ->
  announced tr = map (fun entry => Add (fst entry) (snd entry)) (read_doc store)
  /\ rule_commands tr =
       map (fun entry => rule_add (mkRule allow (snd entry) port)) (read_doc store).
Proof.
  intros Hempty Htr. split.
  - rewrite (pass_announced port f store ret tr Htr), Hempty.
    apply plan_from_empty.
  - destruct Htr as (segs1 & segs2 & tail & -> & H1 & H2 & Hl).
    rewrite Hempty in H1, H2. inversion H2; subst.
    rewrite !rule_commands_app.
    rewrite rule_commands_parse_warning, rule_commands_load_warning.
    rewrite (concat_fresh _ _ H1), (rule_commands_listing _ _ Hl).
    cbn. now rewrite app_nil_r.
Qed.

End FromStart.

(** ** The claims on the server pass *)

(** C1, as the code has it.  When the store cannot be reached (the listing
    of the gists or the fetch of [config.json] fails) the pass ends in the
    outer [catch]: it prints the error and does nothing else, so the state
    file and the firewall are as before and no command was run.  Content
    that is not JSON is not such a failure: [getGistContent] reads it as
    the empty document and the pass goes on from there. *)
Theorem C1_unreachable_store_aborts (FW : Type) (sh : Cmd -> FW -> Exit * FW)
    (outage : Request -> option string) (port : N) (w : World FW) :
  (forall m,
      outage GetGists = Some m \/
      (outage GetGists = None /\ outage GetRaw = Some m /\ gist w <> None) ->
      exists evs,
        serverMode FW sh outage port w =
          (inr RetryMenu,
           mkWorld (firewall w) (state_file w) (gist w) (trace w ++ evs))
        /\ (evs = [Http GetGists; Console (ErrorMsg ("Failed to fetch gists: " ++ m))]
            \/ evs = [Http GetGists; Http GetRaw;
                      Console (ErrorMsg ("Failed to fetch gist content: " ++ m))]))
  /\ (forall text,
        outage GetRaw = None -> (exists e, JSON_parse text = inl e) ->
        getGistContent FW outage text w =
          (inr [],
           mkWorld (firewall w) (state_file w) (gist w)
             (trace w ++ [Http GetRaw; Console WarnInvalidJSON]))).
Proof.
  split.
  - intros m [Hlist|(Hlist & Hraw & Hgist)].
    + exists [Http GetGists; Console (ErrorMsg ("Failed to fetch gists: " ++ m))].
      split; [|now left].
      unfold serverMode, getAllGists, try_catch, bind, request, throw,
        console_log, emit, ret.
      rewrite Hlist. cbn. now rewrite <- app_assoc.
    + exists [Http GetGists; Http GetRaw;
              Console (ErrorMsg ("Failed to fetch gist content: " ++ m))].
      split; [|now right].
      destruct w as [s0 f [text|] tr0]; [|now elim Hgist].
      unfold serverMode, try_catch at 1, bind at 1.
      unfold getAllGists, try_catch at 1, bind at 1, request.
      rewrite Hlist. unfold read_gist. cbn [firewall state_file gist trace].
      unfold reconcile, bind at 1.
      rewrite (getGistContent_unreachable FW outage text m _ Hraw).
      cbn [firewall state_file gist trace].
      unfold bind, console_log, emit, ret. cbn.
      now rewrite <- !app_assoc.
  - intros text Hraw [e He].
    rewrite (getGistContent_run FW outage text w Hraw).
    destruct text; cbn in *; try discriminate; reflexivity.
Qed.

(** C2.  Whatever the firewall does, the operations a pass announces are
    the plan, and when no command fails the commands run are exactly those
    of the plan, in its order.  For every identifier the plan holds what
    the specification's diff says: one [Add] for a new identifier, [Remove]
    then [Add] for a changed one, one [Remove] for a deleted one, nothing
    for an unchanged one; and the [Remove] and [Add] of a changed
    identifier are next to each other, the [Remove] first. *)
Theorem C2_plan_is_the_diff (FW : Type) (sh : Cmd -> FW -> Exit * FW)
    (port : N) (s0 : FW) (checkpoint desired : Doc) :
  unique_keys checkpoint = true -> unique_keys desired = true ->
  let tr := trace (snd (server_pass FW sh port s0
                          (FileOf (JSONText checkpoint)) (JSONText desired))) in
  announced tr = plan checkpoint desired
  /\ (all_succeeded tr = true ->
      rule_commands tr = map (cmd_of_op port) (plan checkpoint desired))
  /\ (forall id,
        filter (about id) (plan checkpoint desired) = spec_ops checkpoint desired id)
  /\ (forall id oldAddr newAddr,
        prop checkpoint id = Some oldAddr -> prop desired id = Some newAddr ->
        oldAddr <> newAddr ->
        exists l1 l2,
          plan checkpoint desired = l1 ++ Remove id oldAddr :: Add id newAddr :: l2).
Proof.
  intros Hc%unique_keys_NoDup Hd%unique_keys_NoDup tr. subst tr.
  destruct (server_pass_run FW sh port s0 (FileOf (JSONText checkpoint))
              (JSONText desired)) as (ret & s & tr & -> & Htr).
  cbn [snd trace].
  split; [exact (pass_announced port _ _ ret tr Htr)|].
  split; [exact (pass_commands port _ _ ret tr Htr)|].
  split; [intros id; now apply about_plan|].
  intros id oldAddr newAddr. apply plan_replace_adjacent.
Qed.

(** C3.  A pass always reaches the write of the state file, and writes the
    whole fetched document; no add or delete that fails sends the pass to
    the outer [catch].  Whatever earlier commands did, every new,
    changed or deleted identifier has its turn: its first command is run,
    and if it fails the failure is printed with the identifier.  Every
    failed add or delete is followed by such a line, and the write comes
    after the last add or delete. *)
Theorem C3_failures_isolated_checkpoint_advances (FW : Type)
    (sh : Cmd -> FW -> Exit * FW) (port : N) (s0 : FW) (f : File) (store : Text) :
  let checkpoint := checkpoint_of f in
  let desired := read_doc store in
  exists ret w',
    server_pass FW sh port s0 f store = (inr ret, w')
    /\ (ret = RetryMenu -> exists m, In (Shell status_numbered (ShellError m)) (trace w'))
    /\ state_file w' = FileOf (JSONText desired)
    /\ (forall id ip,
          In (id, ip) desired -> prop checkpoint id = None ->
          turn_taken (AddingNew id ip) (rule_add (mkRule allow ip port))
            (FailedUpdate id) (trace w'))
    /\ (forall id ip old,
          In (id, ip) desired -> prop checkpoint id = Some old -> old <> ip ->
          turn_taken (Updating id old ip) (rule_delete (mkRule allow old port))
            (FailedUpdate id) (trace w'))
    /\ (forall id old,
          In (id, old) checkpoint -> prop desired id = None ->
          turn_taken (RemovingDeleted id old) (rule_delete (mkRule allow old port))
            (FailedRemove id) (trace w'))
    /\ failures_recorded (trace w') = true
    /\ (exists pre post,
          trace w' = pre ++ WriteState (JSONText desired) :: post
          /\ rule_commands pre = rule_commands (trace w')
          /\ rule_commands post = []).
Proof.
  intros checkpoint desired.
  destruct (server_pass_run FW sh port s0 f store) as (ret & s & tr & -> & Htr).
  eexists ret, _. split; [reflexivity|]. cbn [state_file trace].
  split; [exact (pass_returns port f store ret tr Htr)|].
  split; [reflexivity|].
  split; [|split; [|split; [|split]]].
  - intros id ip Hin Hold.
    destruct (pass_entry_turn port f store ret tr Htr _ Hin)
      as (pre & seg & post & -> & Hseg).
    apply turn_taken_in. right.
    exact (entry_segment_new port _ _ _ _ Hseg Hold).
  - intros id ip old Hin Hold Hne.
    destruct (pass_entry_turn port f store ret tr Htr _ Hin)
      as (pre & seg & post & -> & Hseg).
    apply turn_taken_in. right.
    destruct (entry_segment_changed port _ _ _ _ _ Hseg Hold Hne)
      as (r & rest & -> & Hr).
    exists r, rest. split; [reflexivity|].
    intros m ->. eexists. exact Hr.
  - intros id old Hin Hnew.
    destruct (pass_deleted_turn port f store ret tr Htr _ Hin)
      as (pre & seg & post & -> & Hseg).
    apply turn_taken_in. right.
    exact (deleted_segment_gone port _ _ _ _ Hseg Hnew).
  - exact (pass_failures_recorded port f store ret tr Htr).
  - exact (pass_write_last port f store ret tr Htr).
Qed.

(** C4, as the code has it.  The delete of the old address and the
    [allow] of the new one sit in one [try] block: the turn of a changed
    identifier runs the delete first, and runs the [allow] exactly when the
    delete succeeded.  When the delete fails the turn ends with the line of
    the [catch], and the [allow] of the new address is not run. *)
Theorem C4_add_runs_only_after_remove_succeeded (FW : Type)
    (sh : Cmd -> FW -> Exit * FW) (port : N) (checkpoint : Doc)
    (id : Identifier) (oldAddr newAddr : Address) :
  prop checkpoint id = Some oldAddr -> oldAddr <> newAddr ->
  let del := rule_delete (mkRule allow oldAddr port) in
  let add := rule_add (mkRule allow newAddr port) in
  (forall w : World FW,
      match sh del (firewall w) with
      | (ShellError m, s1) =>
          processEntry FW sh port checkpoint (id, newAddr) w =
            (inr tt,
             mkWorld s1 (state_file w) (gist w)
               (trace w ++
                  [Console (Updating id oldAddr newAddr);
                   Shell del (ShellError m);
                   Console (FailedUpdate id ("Failed to remove UFW rule: " ++ m))]))
      | (Exit0 out, s1) =>
          exists rest s2,
            processEntry FW sh port checkpoint (id, newAddr) w =
              (inr tt,
               mkWorld s2 (state_file w) (gist w)
                 (trace w ++
                    [Console (Updating id oldAddr newAddr);
                     Shell del (Exit0 out);
                     Console (RemovedRule oldAddr);
                     Shell add (fst (sh add s1))] ++ rest))
      end)
  /\ (forall (s0 : FW) f store,
        checkpoint_of f = checkpoint -> In (id, newAddr) (read_doc store) ->
        exists pre r post,
          trace (snd (server_pass FW sh port s0 f store)) =
            pre ++ Console (Updating id oldAddr newAddr) :: Shell del r :: post
          /\ match r with
             | ShellError m =>
                 exists post',
                   post = Console (FailedUpdate id ("Failed to remove UFW rule: " ++ m))
                            :: post'
             | Exit0 _ =>
                 exists r' post',
                   post = Console (RemovedRule oldAddr) :: Shell add r' :: post'
             end).
Proof.
  intros Hold Hne del add. split.
  - intros w.
    cbv beta iota delta [processEntry try_catch bind console_log emit].
    rewrite Hold. apply String.eqb_neq in Hne. rewrite Hne. cbn [negb].
    unfold removeRule, try_catch, bind, dollar, console_log, emit, throw.
    cbn [firewall state_file gist trace]. fold del.
    destruct (sh del (firewall w)) as [[out|m] s1]; cbn.
    + unfold addRule, try_catch, bind, dollar, console_log, emit, throw.
      cbn [firewall state_file gist trace]. fold add.
      destruct (sh add s1) as [[out'|m'] s2]; cbn.
      * exists [Console (AddedRule newAddr)], s2. now rewrite <- !app_assoc.
      * exists [Console (FailedUpdate id ("Failed to add UFW rule: " ++ m'))], s2.
        now rewrite <- !app_assoc.
    + now rewrite <- !app_assoc.
  - intros s0 f store Hf Hin.
    destruct (server_pass_run FW sh port s0 f store) as (ret & s & tr & -> & Htr).
    cbn [snd trace].
    destruct (pass_entry_turn port f store ret tr Htr _ Hin)
      as (pre & seg & post & -> & Hseg).
    rewrite Hf in Hseg.
    destruct (entry_segment_changed port _ _ _ _ _ Hseg Hold Hne)
      as (r & rest & -> & Hr).
    exists pre, r, (rest ++ post). split; [reflexivity|].
    destruct r as [out|m].
    + destruct Hr as (r' & rest' & ->). now exists r', (rest' ++ post).
    + rewrite Hr. now exists post.
Qed.

(** C5.  A pass whose state file already holds the fetched document plans
    nothing, announces nothing and runs no add or delete command. *)
Theorem C5_same_document_is_a_noop (FW : Type) (sh : Cmd -> FW -> Exit * FW)
    (port : N) (s0 : FW) (desired : Doc) :
  unique_keys desired = true ->
  let tr := trace (snd (server_pass FW sh port s0
                          (FileOf (JSONText desired)) (JSONText desired))) in
  plan desired desired = [] /\ announced tr = [] /\ rule_commands tr = [].
Proof.
  intros Hd%unique_keys_NoDup tr. subst tr.
  destruct (server_pass_run FW sh port s0 (FileOf (JSONText desired))
              (JSONText desired)) as (ret & s & tr & -> & Htr).
  cbn [snd trace]. pose proof (plan_same desired Hd) as Hplan.
  split; [exact Hplan|]. split.
  - rewrite (pass_announced port _ _ ret tr Htr). exact Hplan.
  - exact (pass_idle port _ _ ret tr Htr Hplan).
Qed.

(** C9.  Without a state file the loading of the local state returns the
    empty document, throwing and warning nothing, and the pass goes on from
    it: it announces and runs one [allow] per entry of the fetched
    document, in its order, and writes the state file; only a failure of
    the final listing can send it to the outer [catch]. *)
Theorem C9_missing_state_file_is_empty_checkpoint (FW : Type)
    (sh : Cmd -> FW -> Exit * FW) (port : N) (s0 : FW) (store : Text) :
  let desired := read_doc store in
  (forall w : World FW, state_file w = NoFile -> loadLocalState FW w = (inr [], w))
  /\ exists ret w',
    server_pass FW sh port s0 NoFile store = (inr ret, w')
    /\ (ret = RetryMenu -> exists m, In (Shell status_numbered (ShellError m)) (trace w'))
    /\ announced (trace w') = map (fun entry => Add (fst entry) (snd entry)) desired
    /\ rule_commands (trace w') =
         map (fun entry => rule_add (mkRule allow (snd entry) port)) desired
    /\ state_file w' = FileOf (JSONText desired).
Proof.
  intros desired. split.
  - intros w Hf. rewrite loadLocalState_run, Hf. cbn.
    rewrite app_nil_r. destruct w; cbn in *. now subst.
  - destruct (server_pass_run FW sh port s0 NoFile store)
      as (ret & s & tr & -> & Htr).
    destruct (fresh_pass port NoFile store ret tr eq_refl Htr) as [Ha Hc].
    eexists ret, _. split; [reflexivity|]. cbn [state_file trace].
    split; [exact (pass_returns port _ _ ret tr Htr)|].
    split; [exact Ha|]. split; [exact Hc|reflexivity].
Qed.

(** C10.  A state file that does not parse is warned about and read as
    the empty document; the pass does not end in the outer [catch] for it.
    It announces and runs one [allow] per entry of the fetched document,
    runs no delete, and overwrites the file with the fetched document. *)
Theorem C10_unparseable_state_file_is_empty_checkpoint (FW : Type)
    (sh : Cmd -> FW -> Exit * FW) (port : N) (s0 : FW) (garbage store : Text) :
  (exists e, JSON_parse garbage = inl e) ->
  let desired := read_doc store in
  exists ret w',
    server_pass FW sh port s0 (FileOf garbage) store = (inr ret, w')
    /\ (ret = RetryMenu -> exists m, In (Shell status_numbered (ShellError m)) (trace w'))
    /\ In (Console WarnLocalState) (trace w')
    /\ announced (trace w') = map (fun entry => Add (fst entry) (snd entry)) desired
    /\ rule_commands (trace w') =
         map (fun entry => rule_add (mkRule allow (snd entry) port)) desired
    /\ (forall r, ~ In (rule_delete r) (rule_commands (trace w')))
    /\ state_file w' = FileOf (JSONText desired).
Proof.
  intros [e He] desired.
  assert (Hempty : checkpoint_of (FileOf garbage) = [])
    by (destruct garbage; [reflexivity|reflexivity|discriminate]).
  assert (Hwarn : load_warning (FileOf garbage) = [Console WarnLocalState])
    by (destruct garbage; [reflexivity|reflexivity|discriminate]).
  destruct (server_pass_run FW sh port s0 (FileOf garbage) store)
    as (ret & s & tr & -> & Htr).
  destruct (fresh_pass port (FileOf garbage) store ret tr Hempty Htr) as [Ha Hc].
  eexists ret, _. split; [reflexivity|]. cbn [state_file trace].
  split; [exact (pass_returns port _ _ ret tr Htr)|].
  split; [|split; [exact Ha|split; [exact Hc|split; [|reflexivity]]]].
  - destruct Htr as (segs1 & segs2 & tail & -> & _).
    rewrite Hwarn. apply in_or_app. right. apply in_or_app. right.
    apply in_or_app. left. now left.
  - intros r. rewrite Hc. intros Hin. apply in_map_iff in Hin.
    destruct Hin as (entry & Heq & _). discriminate.
Qed.

(** ** The claims at concrete passes *)

(** The store answers, but with text that is not JSON, while the state file
    holds two entries whose rules are in place: the pass does not abort, it
    deletes both rules and overwrites the state file with the empty
    document. *)
Lemma C1_counterexample :
  let before := FileOf (JSONText example_checkpoint) in
  let r := server_pass Rules (run false) 22 example_rules before NotJSON in
  (exists e, JSON_parse NotJSON = inl e)
  /\ fst r = inr Undefined
  /\ state_file (snd r) = FileOf (JSONText [])
  /\ state_file (snd r) <> before
  /\ rule_commands (trace (snd r)) =
       [rule_delete (mkRule allow "1.1.1.1" 22); rule_delete (mkRule allow "2.2.2.2" 22)]
  /\ firewall (snd r) = [].
Proof.
  cbv zeta. split; [eexists; reflexivity|].
  split; [reflexivity|]. split; [reflexivity|].
  split; [discriminate|]. split; reflexivity.
Qed.

(** The fetch of [config.json] fails. *)
Lemma C1_witness :
  let outage := fun q => match q with GetRaw => Some "fetch failed" | _ => None end in
  let w := mkWorld example_rules (FileOf (JSONText example_checkpoint))
             (Some (JSONText example_desired)) [] in
  (outage GetGists = None /\ outage GetRaw = Some "fetch failed" /\ gist w <> None)
  /\ exists evs,
       serverMode Rules (run false) outage 22 w =
         (inr RetryMenu,
          mkWorld (firewall w) (state_file w) (gist w) (trace w ++ evs))
       /\ (evs = [Http GetGists;
                  Console (ErrorMsg ("Failed to fetch gists: " ++ "fetch failed"))]
           \/ evs = [Http GetGists; Http GetRaw;
                     Console (ErrorMsg ("Failed to fetch gist content: " ++ "fetch failed"))]).
Proof.
  intros outage w.
  assert (H : outage GetGists = None /\ outage GetRaw = Some "fetch failed"
              /\ gist w <> None)
    by (split; [reflexivity|split; [reflexivity|discriminate]]).
  split; [exact H|].
  apply (proj1 (C1_unreachable_store_aborts Rules (run false) outage 22 w)).
  right. exact H.
Defined.

(** The diff example of the specification, on a firewall that accepts
    every command. *)
Lemma C2_witness :
  unique_keys example_checkpoint = true
  /\ unique_keys example_desired = true
  /\ let tr := trace (snd (server_pass Rules (run false) 22 example_rules
                             (FileOf (JSONText example_checkpoint))
                             (JSONText example_desired))) in
     announced tr = plan example_checkpoint example_desired
     /\ (all_succeeded tr = true ->
         rule_commands tr =
           map (cmd_of_op 22) (plan example_checkpoint example_desired))
     /\ (forall id,
           filter (about id) (plan example_checkpoint example_desired) =
             spec_ops example_checkpoint example_desired id)
     /\ (forall id oldAddr newAddr,
           prop example_checkpoint id = Some oldAddr ->
           prop example_desired id = Some newAddr ->
           oldAddr <> newAddr ->
           exists l1 l2,
             plan example_checkpoint example_desired =
               l1 ++ Remove id oldAddr :: Add id newAddr :: l2).
Proof.
  split; [reflexivity|]. split; [reflexivity|].
  apply (C2_plan_is_the_diff Rules (run false) 22 example_rules
           example_checkpoint example_desired); reflexivity.
Defined.

Example diff_example :
  plan example_checkpoint example_desired =
    [Remove "b" "2.2.2.2"; Add "b" "3.3.3.3"; Add "c" "4.4.4.4"]
  /\ rule_commands
       (trace (snd (server_pass Rules (run false) 22 example_rules
                      (FileOf (JSONText example_checkpoint))
                      (JSONText example_desired)))) =
       [rule_delete (mkRule allow "2.2.2.2" 22);
        rule_add (mkRule allow "3.3.3.3" 22);
        rule_add (mkRule allow "4.4.4.4" 22)]
  /\ firewall (snd (server_pass Rules (run false) 22 example_rules
                      (FileOf (JSONText example_checkpoint))
                      (JSONText example_desired))) =
       [mkRule allow "1.1.1.1" 22; mkRule allow "3.3.3.3" 22; mkRule allow "4.4.4.4" 22].
Proof. repeat split. Qed.

Example removal_only_example :
  plan [("a", "1.1.1.1")] [] = [Remove "a" "1.1.1.1"]
  /\ state_file (snd (server_pass Rules (run false) 22 [mkRule allow "1.1.1.1" 22]
                        (FileOf (JSONText [("a", "1.1.1.1")])) (JSONText []))) =
       FileOf (JSONText []).
Proof. split; reflexivity. Qed.

(** The partial-failure example of the specification: the firewall rejects
    the address of [c]. *)
Lemma C3_witness :
  exists ret w',
    server_pass Rules (rejecting ["4.4.4.4"]) 22 example_rules
      (FileOf (JSONText example_checkpoint)) (JSONText example_desired) = (inr ret, w')
    /\ state_file w' = FileOf (JSONText example_desired)
    /\ turn_taken (AddingNew "c" "4.4.4.4") (rule_add (mkRule allow "4.4.4.4" 22))
         (FailedUpdate "c") (trace w')
    /\ turn_taken (Updating "b" "2.2.2.2" "3.3.3.3")
         (rule_delete (mkRule allow "2.2.2.2" 22)) (FailedUpdate "b") (trace w')
    /\ failures_recorded (trace w') = true.
Proof.
  destruct (C3_failures_isolated_checkpoint_advances Rules (rejecting ["4.4.4.4"])
              22 example_rules (FileOf (JSONText example_checkpoint))
              (JSONText example_desired))
    as (ret & w' & Hrun & _ & Hfile & Hnew & Hchanged & _ & Hrec & _).
  exists ret, w'. split; [exact Hrun|]. split; [exact Hfile|].
  split; [|split; [|exact Hrec]].
  - apply Hnew; [cbn; auto|reflexivity].
  - apply Hchanged; [cbn; auto|reflexivity|discriminate].
Defined.

Example partial_failure_example :
  let r := server_pass Rules (rejecting ["4.4.4.4"]) 22 example_rules
             (FileOf (JSONText example_checkpoint)) (JSONText example_desired) in
  state_file (snd r) = FileOf (JSONText example_desired)
  /\ In (Console (FailedUpdate "c"
                    "Failed to add UFW rule: ERROR: Bad source address"))
       (trace (snd r))
  /\ firewall (snd r) = [mkRule allow "1.1.1.1" 22; mkRule allow "3.3.3.3" 22].
Proof. cbv zeta. split; [reflexivity|]. split; [cbn; tauto|reflexivity]. Qed.

(** The firewall rejects the delete of the old address of [b]: the [allow]
    of its new address is never run, although the pass runs the [allow] of
    [c] afterwards. *)
Lemma C4_counterexample :
  let r := server_pass Rules (rejecting ["2.2.2.2"]) 22 example_rules
             (FileOf (JSONText example_checkpoint)) (JSONText example_desired) in
  prop example_checkpoint "b" = Some "2.2.2.2"
  /\ prop example_desired "b" = Some "3.3.3.3"
  /\ In (Shell (rule_delete (mkRule allow "2.2.2.2" 22))
           (ShellError "ERROR: Bad source address")) (trace (snd r))
  /\ rule_commands (trace (snd r)) =
       [rule_delete (mkRule allow "2.2.2.2" 22); rule_add (mkRule allow "4.4.4.4" 22)]
  /\ ~ In (rule_add (mkRule allow "3.3.3.3" 22)) (rule_commands (trace (snd r))).
Proof.
  cbv zeta. split; [reflexivity|]. split; [reflexivity|].
  split; [cbn; tauto|]. split; [reflexivity|].
  cbn. intros [H|[H|[]]]; discriminate.
Qed.

Lemma C4_witness :
  prop example_checkpoint "b" = Some "2.2.2.2"
  /\ "2.2.2.2" <> "3.3.3.3"
  /\ processEntry Rules (rejecting ["2.2.2.2"]) 22 example_checkpoint ("b", "3.3.3.3")
       (mkWorld example_rules NoFile None []) =
       (inr tt,
        mkWorld example_rules NoFile None
          [Console (Updating "b" "2.2.2.2" "3.3.3.3");
           Shell (rule_delete (mkRule allow "2.2.2.2" 22))
             (ShellError "ERROR: Bad source address");
           Console (FailedUpdate "b"
                      "Failed to remove UFW rule: ERROR: Bad source address")]).
Proof.
  split; [reflexivity|]. split; [discriminate|].
  exact (proj1 (C4_add_runs_only_after_remove_succeeded Rules
                  (rejecting ["2.2.2.2"]) 22 example_checkpoint "b" "2.2.2.2" "3.3.3.3"
                  eq_refl ltac:(discriminate))
           (mkWorld example_rules NoFile None [])).
Defined.

Lemma C5_witness :
  unique_keys example_desired = true
  /\ let tr := trace (snd (server_pass Rules (run false) 22 example_rules
                             (FileOf (JSONText example_desired))
                             (JSONText example_desired))) in
     plan example_desired example_desired = []
     /\ announced tr = [] /\ rule_commands tr = [].
Proof.
  split; [reflexivity|].
  apply (C5_same_document_is_a_noop Rules (run false) 22 example_rules example_desired).
  reflexivity.
Defined.

(** A first pass: no state file, the example's desired document. *)
Lemma C9_witness :
  exists ret w',
    server_pass Rules (run false) 22 [] NoFile (JSONText example_desired) = (inr ret, w')
    /\ rule_commands (trace w') =
         [rule_add (mkRule allow "1.1.1.1" 22); rule_add (mkRule allow "3.3.3.3" 22);
          rule_add (mkRule allow "4.4.4.4" 22)]
    /\ state_file w' = FileOf (JSONText example_desired).
Proof.
  destruct (proj2 (C9_missing_state_file_is_empty_checkpoint Rules (run false) 22 []
                     (JSONText example_desired)))
    as (ret & w' & Hrun & _ & _ & Hc & Hf).
  exists ret, w'. split; [exact Hrun|]. split; [exact Hc|exact Hf].
Defined.

Lemma C10_witness :
  (exists e, JSON_parse NotJSON = inl e)
  /\ exists ret w',
       server_pass Rules (run false) 22 example_rules (FileOf NotJSON)
         (JSONText example_desired) = (inr ret, w')
       /\ (ret = RetryMenu ->
           exists m, In (Shell status_numbered (ShellError m)) (trace w'))
       /\ In (Console WarnLocalState) (trace w')
       /\ announced (trace w') =
            map (fun entry => Add (fst entry) (snd entry)) example_desired
       /\ rule_commands (trace w') =
            map (fun entry => rule_add (mkRule allow (snd entry) 22)) example_desired
       /\ (forall r, ~ In (rule_delete r) (rule_commands (trace w')))
       /\ state_file w' = FileOf (JSONText example_desired).
Proof.
  split; [eexists; reflexivity|].
  apply (C10_unparseable_state_file_is_empty_checkpoint Rules (run false) 22
           example_rules NotJSON (JSONText example_desired)).
  eexists. reflexivity.
Defined.

End ServerFacts.

(* ================================================================== *)
(** * The connector passes *)
(* ================================================================== *)

Module ConnectorFacts.
Import JS Ufw DocFacts.

(** ** ip.js: what connectorMode sends *)

Lemma connectorMode_requests (FW : Type) (outage : Ip.Request -> option string)
    (ip : Address) (domain : Identifier) (s0 : FW) (f : Ip.File)
    (store : option Text) (q : Ip.Request) :
  In (Ip.Http q)
    (Ip.trace (snd (Ip.connectorMode FW outage ip domain (Ip.mkWorld s0 f store [])))) ->
  q = Ip.GetDeviceIp \/ q = Ip.GetGists \/ q = Ip.GetRaw
  \/ (exists text,
        store = Some text /\ q = Ip.PatchGist (set_prop (Ip.read_doc text) domain ip))
  \/ (store = None /\ q = Ip.PostGist [(domain, ip)]).
Proof.
  unfold Ip.connectorMode, Ip.getDeviceIp, Ip.getAllGists, Ip.getGistContent,
    Ip.updateGist, Ip.createGist, try_catch, bind, Ip.request, Ip.read_gist,
    Ip.store_gist, lift, throw, Ip.console_log, Ip.emit, ret.
  cbn [Ip.firewall Ip.state_file Ip.gist Ip.trace app].
  destruct (outage Ip.GetDeviceIp); cbn;
    [intros [H|[H|[]]]; inversion H; auto|].
  destruct (outage Ip.GetGists); cbn;
    [intros [H|[H|[H|[H|[]]]]]; inversion H; auto|].
  destruct store as [text|]; cbn.
  - destruct (outage Ip.GetRaw); cbn;
      [intros [H|[H|[H|[H|[H|[]]]]]]; inversion H; auto|].
    destruct text; cbn;
      match goal with
      | |- context [outage ?r] => destruct (outage r)
      end; cbn; intros H;
      repeat (destruct H as [H|H]; [inversion H; subst; eauto 10|]);
      destruct H.
  - match goal with
    | |- context [outage ?r] => destruct (outage r)
    end; cbn; intros H;
      repeat (destruct H as [H|H]; [inversion H; subst; eauto 10|]);
      destruct H.
Qed.

(** ** tui.js: what updateIP sends *)

Lemma updateIP_requests (FW : Type) (outage : Tui.Request -> option string)
    (ip : Address) (config : Tui.Config) (s0 : FW) (content : Text)
    (last : Address) (updating : bool) (q : Tui.Request) :
  In (Tui.Http q)
    (Tui.trace (snd (Tui.updateIP FW outage ip config
                       (Tui.mkWorld s0 content last updating [])))) ->
  q = Tui.GetDeviceIp \/ q = Tui.GistsGet \/ q = Tui.SaveConfig
  \/ (exists currentContent,
        JSON_parse (Tui.or_braces content) = inr currentContent
        /\ ip <> last
        /\ q = Tui.GistsUpdate (set_prop currentContent (Tui.domain config) ip)).
Proof.
  unfold Tui.updateIP, Tui.try_finally, try_catch, bind, Tui.request,
    Tui.get_isUpdating, Tui.get_lastIP, Tui.read_gist, Tui.set_isUpdating,
    Tui.set_lastIP, Tui.store_gist, lift, throw, Tui.term, Tui.emit, ret.
  cbn [Tui.firewall Tui.gist Tui.lastIP Tui.isUpdating Tui.trace app].
  destruct updating; cbn; [intros []|].
  destruct (outage Tui.GetDeviceIp); cbn;
    [intros [H|[H|[H|[]]]]; inversion H; auto|].
  destruct (String.eqb_spec ip last) as [Heq|Hne]; cbn;
    [intros [H|[H|[H|[]]]]; inversion H; auto|].
  destruct (outage Tui.GistsGet); cbn;
    [intros H; repeat (destruct H as [H|H]; [inversion H; subst; auto|]); destruct H|].
  destruct (JSON_parse (Tui.or_braces content)) as [e|currentContent]; cbn;
    [intros H; repeat (destruct H as [H|H]; [inversion H; subst; auto|]); destruct H|].
  match goal with
  | |- context [outage (Tui.GistsUpdate ?d)] => destruct (outage (Tui.GistsUpdate d))
  end; cbn;
    [intros H; repeat (destruct H as [H|H]; [inversion H; subst; eauto 10|]); destruct H|].
  destruct (outage Tui.SaveConfig); cbn;
    intros H; repeat (destruct H as [H|H]; [inversion H; subst; eauto 10|]); destruct H.
Qed.

End ConnectorFacts.

Module ConnectorClaims.
Import JS Ufw DocFacts ConnectorFacts.

(** C6, as the code has it.  In [tui.js], when the address observed is the
    one [lastIP] holds, [updateIP] never sends an update of the gist: the
    gist is as before and nothing is reported as updated; a pass that is
    not already running and reaches the address service prints that the
    address is unchanged and sends nothing but the request to that service.
    ([connectorMode] of [ip.js] keeps no last address and publishes on every
    pass.) *)
Theorem C6_tui_unchanged_address_is_not_published (FW : Type)
    (outage : Tui.Request -> option string) (ip : Address)
    (config : Tui.Config) (s0 : FW) (content : Text) (updating : bool) :
  let w := Tui.mkWorld s0 content ip updating [] in
  let r := Tui.updateIP FW outage ip config w in
  Tui.gist (snd r) = content
  /\ Tui.lastIP (snd r) = ip
  /\ (forall written, ~ In (Tui.Http (Tui.GistsUpdate written)) (Tui.trace (snd r)))
  /\ (forall a, ~ In (Tui.Term (Tui.Updated a)) (Tui.trace (snd r)))
  /\ (updating = false -> outage Tui.GetDeviceIp = None ->
      r = (inr tt,
           Tui.mkWorld s0 content ip false
             [Tui.Term Tui.Checking; Tui.Http Tui.GetDeviceIp;
              Tui.Term (Tui.Unchanged ip)])).
Proof.
  intros w r.
  split; [|split; [|split; [|split]]].
  - subst r w.
    unfold Tui.updateIP, Tui.try_finally, try_catch, bind, Tui.request,
      Tui.get_isUpdating, Tui.get_lastIP, Tui.set_isUpdating, lift, throw,
      Tui.term, Tui.emit, ret.
    cbn [Tui.firewall Tui.gist Tui.lastIP Tui.isUpdating Tui.trace app].
    destruct updating; [reflexivity|].
    destruct (outage Tui.GetDeviceIp); [reflexivity|].
    rewrite String.eqb_refl. reflexivity.
  - subst r w.
    unfold Tui.updateIP, Tui.try_finally, try_catch, bind, Tui.request,
      Tui.get_isUpdating, Tui.get_lastIP, Tui.set_isUpdating, lift, throw,
      Tui.term, Tui.emit, ret.
    cbn [Tui.firewall Tui.gist Tui.lastIP Tui.isUpdating Tui.trace app].
    destruct updating; [reflexivity|].
    destruct (outage Tui.GetDeviceIp); [reflexivity|].
    rewrite String.eqb_refl. reflexivity.
  - intros written Hin. subst r w.
    apply updateIP_requests in Hin.
    destruct Hin as [H|[H|[H|(cur & _ & Hne & _)]]]; try discriminate.
    now apply Hne.
  - intros a. subst r w.
    unfold Tui.updateIP, Tui.try_finally, try_catch, bind, Tui.request,
      Tui.get_isUpdating, Tui.get_lastIP, Tui.set_isUpdating, lift, throw,
      Tui.term, Tui.emit, ret.
    cbn [Tui.firewall Tui.gist Tui.lastIP Tui.isUpdating Tui.trace app].
    destruct updating; [intros []|].
    destruct (outage Tui.GetDeviceIp);
      [cbn; intros [H|[H|[H|[]]]]; discriminate|].
    rewrite String.eqb_refl. cbn. intros [H|[H|[H|[]]]]; discriminate.
  - intros -> Hup. subst r w.
    unfold Tui.updateIP, Tui.try_finally, try_catch, bind, Tui.request,
      Tui.get_isUpdating, Tui.get_lastIP, Tui.set_isUpdating, lift, throw,
      Tui.term, Tui.emit, ret.
    cbn [Tui.firewall Tui.gist Tui.lastIP Tui.isUpdating Tui.trace app].
    rewrite Hup. rewrite String.eqb_refl. reflexivity.
Qed.

(** A pass of [tui.js] that observes the address it holds in [lastIP]. *)
Lemma C6_witness :
  Tui.updateIP Rules (fun _ => None) "1.1.1.1" (Tui.mkConfig "a" 22)
    (Tui.mkWorld [] (JSONText [("a", "1.1.1.1")]) "1.1.1.1" false []) =
    (inr tt,
     Tui.mkWorld [] (JSONText [("a", "1.1.1.1")]) "1.1.1.1" false
       [Tui.Term Tui.Checking; Tui.Http Tui.GetDeviceIp;
        Tui.Term (Tui.Unchanged "1.1.1.1")]).
Proof.
  apply (C6_tui_unchanged_address_is_not_published Rules (fun _ => None)
           "1.1.1.1" (Tui.mkConfig "a" 22) [] (JSONText [("a", "1.1.1.1")]) false);
    reflexivity.
Defined.

(** [connectorMode] of [ip.js] run twice in a row from an empty store with
    the same observed address: the first pass publishes it, and the second
    writes the store again although the address is the one last
    published. *)
Lemma C6_counterexample :
  let first := Ip.connector_pass Rules "1.1.1.1" "a" [] Ip.NoFile None in
  let second := Ip.connector_pass Rules "1.1.1.1" "a" [] Ip.NoFile
                  (Ip.gist (snd first)) in
  Ip.gist (snd first) = Some (JSONText [("a", "1.1.1.1")])
  /\ fst second = inr Ip.Undefined
  /\ Ip.trace (snd second) =
       [Ip.Http Ip.GetDeviceIp; Ip.Console (Ip.CurrentIP "1.1.1.1");
        Ip.Http Ip.GetGists; Ip.Http Ip.GetRaw;
        Ip.Http (Ip.PatchGist [("a", "1.1.1.1")]);
        Ip.Console Ip.UpdatedGist].
Proof. cbv zeta. repeat split. Qed.

(** C7.  In [ip.js], whenever a connector pass writes the store, the
    document it sends is the one [getGistContent] returned with the
    identifier entered set to the observed address, every other key reading
    as it did in the document read; a gist created afresh holds the
    identifier alone.  In [tui.js] the document sent is the parse of the
    gist's content with the key of [config.domain] set to the observed
    address, every other key reading as before.  But a configuration the
    setup wizard made holds the name of the machine as [identifier] and has
    no member [domain]: the key written is [undefined], and the publisher's
    own identifier reads as it did in the document read, not as the
    observed address. *)
Theorem C7_tui_publish_is_not_under_the_identifier (FW : Type) (ip : Address) :
  (forall outage domain (s0 : FW) f store written,
      In (Ip.Http (Ip.PatchGist written))
        (Ip.trace (snd (Ip.connectorMode FW outage ip domain
                          (Ip.mkWorld s0 f store [])))) ->
      exists text,
        store = Some text
        /\ written = set_prop (Ip.read_doc text) domain ip
        /\ forall k,
             prop written k =
               if String.eqb k domain then Some ip else prop (Ip.read_doc text) k)
  /\ (forall outage domain (s0 : FW) f store written,
        In (Ip.Http (Ip.PostGist written))
          (Ip.trace (snd (Ip.connectorMode FW outage ip domain
                            (Ip.mkWorld s0 f store [])))) ->
        store = None /\ written = [(domain, ip)])
  /\ (forall outage (config : TuiSetup.Object) (s0 : FW) content last updating
             written,
        In (Tui.Http (Tui.GistsUpdate written))
          (Tui.trace (snd (Tui.updateIP FW outage ip
                             (TuiSetup.as_read_by_updateIP config)
                             (Tui.mkWorld s0 content last updating [])))) ->
        exists currentContent,
          JSON_parse (Tui.or_braces content) = inr currentContent
          /\ written
             = set_prop currentContent
                 (TuiSetup.ToPropertyKey (TuiSetup.get config "domain")) ip
          /\ forall k,
               prop written k =
                 if String.eqb k
                      (TuiSetup.ToPropertyKey (TuiSetup.get config "domain"))
                 then Some ip
                 else prop currentContent k)
  /\ (forall outage token gistId identifier now (s0 : FW) content last updating
             written,
        In (Tui.Http (Tui.GistsUpdate written))
          (Tui.trace (snd (Tui.updateIP FW outage ip
                             (TuiSetup.as_read_by_updateIP
                                (TuiSetup.setupWizard_config false token gistId
                                   (Some identifier) None now))
                             (Tui.mkWorld s0 content last updating [])))) ->
        exists currentContent,
          JSON_parse (Tui.or_braces content) = inr currentContent
          /\ written = set_prop currentContent "undefined" ip
          /\ prop written "undefined" = Some ip
          /\ (identifier <> "undefined" ->
              prop written identifier = prop currentContent identifier)).
Proof.
  split; [|split; [|split]].
  - intros outage domain s0 f store written Hin.
    apply connectorMode_requests in Hin.
    destruct Hin as [H|[H|[H|[(text & -> & H)|(_ & H)]]]]; try discriminate.
    injection H as ->. exists text. split; [reflexivity|].
    split; [reflexivity|]. intros k. apply prop_set_prop.
  - intros outage domain s0 f store written Hin.
    apply connectorMode_requests in Hin.
    destruct Hin as [H|[H|[H|[(text & _ & H)|(-> & H)]]]]; try discriminate.
    injection H as ->. now split.
  - intros outage config s0 content last updating written Hin.
    apply updateIP_requests in Hin.
    destruct Hin as [H|[H|[H|(cur & Hparse & _ & H)]]]; try discriminate.
    injection H as ->. exists cur. split; [exact Hparse|].
    split; [reflexivity|]. intros k. apply prop_set_prop.
  - intros outage token gistId identifier now s0 content last updating written
      Hin.
    apply updateIP_requests in Hin.
    destruct Hin as [H|[H|[H|(cur & Hparse & _ & H)]]]; try discriminate.
    injection H as ->. exists cur. split; [exact Hparse|].
    change (Tui.domain _) with "undefined".
    split; [reflexivity|]. split.
    + rewrite prop_set_prop. now rewrite String.eqb_refl.
    + intros Hne. rewrite prop_set_prop.
      apply String.eqb_neq in Hne. now rewrite Hne.
Qed.

(** A connector the wizard set up as [laptop] publishes into a gist with one
    foreign entry: the entry is carried forward, the address goes under
    [undefined], and [laptop] has no entry. *)
Lemma C7_witness :
  let config := TuiSetup.setupWizard_config false "token" "b1946ac9"
                  (Some "laptop") None "2024-01-01T00:00:00.000Z" in
  let written := [("a", "1.1.1.1"); ("undefined", "9.9.9.9")] in
  In (Tui.Http (Tui.GistsUpdate written))
    (Tui.trace (snd (Tui.updateIP Rules (fun _ => None) "9.9.9.9"
                       (TuiSetup.as_read_by_updateIP config)
                       (Tui.mkWorld [] (JSONText [("a", "1.1.1.1")]) "" false []))))
  /\ prop written "laptop" = None
  /\ exists currentContent,
       JSON_parse (Tui.or_braces (JSONText [("a", "1.1.1.1")])) = inr currentContent
       /\ written = set_prop currentContent "undefined" "9.9.9.9"
       /\ prop written "undefined" = Some "9.9.9.9"
       /\ ("laptop" <> "undefined" ->
           prop written "laptop" = prop currentContent "laptop").
Proof.
  intros config written.
  assert (H : In (Tui.Http (Tui.GistsUpdate written))
                (Tui.trace (snd (Tui.updateIP Rules (fun _ => None) "9.9.9.9"
                                   (TuiSetup.as_read_by_updateIP config)
                                   (Tui.mkWorld [] (JSONText [("a", "1.1.1.1")])
                                      "" false [])))))
    by (cbn; tauto).
  split; [exact H|]. split; [reflexivity|].
  exact (proj2 (proj2 (proj2
           (C7_tui_publish_is_not_under_the_identifier Rules "9.9.9.9")))
           (fun _ => None) "token" "b1946ac9" "laptop"
           "2024-01-01T00:00:00.000Z" [] (JSONText [("a", "1.1.1.1")]) "" false
           written H).
Defined.

(** Concrete publishes: [ip.js] into a gist with three entries, one of them
    the publisher's own; [tui.js], with a configuration that has a member
    [domain], into a gist with one foreign entry. *)
Example publish_example :
  Ip.trace (snd (Ip.connector_pass Rules "9.9.9.9" "b" [] Ip.NoFile
                   (Some (JSONText Ip.example_desired)))) =
    [Ip.Http Ip.GetDeviceIp; Ip.Console (Ip.CurrentIP "9.9.9.9");
     Ip.Http Ip.GetGists; Ip.Http Ip.GetRaw;
     Ip.Http (Ip.PatchGist [("a", "1.1.1.1"); ("b", "9.9.9.9"); ("c", "4.4.4.4")]);
     Ip.Console Ip.UpdatedGist]
  /\ Tui.trace (snd (Tui.updateIP Rules (fun _ => None) "9.9.9.9"
                       (Tui.mkConfig "laptop" 22)
                       (Tui.mkWorld [] (JSONText [("a", "1.1.1.1")]) "" false []))) =
    [Tui.Term Tui.Checking; Tui.Http Tui.GetDeviceIp; Tui.Term (Tui.Changed "9.9.9.9");
     Tui.Http Tui.GistsGet;
     Tui.Http (Tui.GistsUpdate [("a", "1.1.1.1"); ("laptop", "9.9.9.9")]);
     Tui.Http Tui.SaveConfig; Tui.Term (Tui.Updated "9.9.9.9")].
Proof. split; reflexivity. Qed.

End ConnectorClaims.

(* ================================================================== *)
(** * Adding and removing a rule *)
(* ================================================================== *)

Module FirewallClaims.
Import JS Ufw.

Lemma action_eqb_refl a : action_eqb a a = true.
Proof. now destruct a. Qed.

Lemma rule_eqb_refl r : rule_eqb r r = true.
Proof.
  unfold rule_eqb. now rewrite action_eqb_refl, String.eqb_refl, N.eqb_refl.
Qed.

Lemma rule_eqb_eq r r' : rule_eqb r r' = true -> r = r'.
Proof.
  destruct r as [a f p], r' as [a' f' p']. unfold rule_eqb. cbn.
  intros [[Ha Hf]%andb_prop Hp]%andb_prop.
  apply String.eqb_eq in Hf. apply N.eqb_eq in Hp.
  destruct a, a'; try discriminate; now subst.
Qed.

Lemma has_rule_app rs r r' : has_rule (rs ++ [r]) r' = has_rule rs r' || rule_eqb r' r.
Proof. unfold has_rule. rewrite existsb_app. cbn. now rewrite orb_false_r. Qed.

Lemma has_rule_filter rs r r' :
  rule_eqb r r' = false ->
  has_rule (filter (fun x => negb (rule_eqb r x)) rs) r' = has_rule rs r'.
Proof.
  intros Hne. unfold has_rule. induction rs as [|x rs IH]; [reflexivity|].
  cbn. destruct (rule_eqb r x) eqn:Hx; cbn; rewrite IH; [|reflexivity].
  apply rule_eqb_eq in Hx. subst x.
  destruct (rule_eqb r' r) eqn:Hr; [|reflexivity].
  apply rule_eqb_eq in Hr. subst r'. now rewrite rule_eqb_refl in Hne.
Qed.

Lemma filter_absent rs r :
  has_rule rs r = false -> filter (fun x => negb (rule_eqb r x)) rs = rs.
Proof.
  unfold has_rule. induction rs as [|x rs IH]; [reflexivity|].
  cbn. intros [Hx Hrs]%orb_false_elim. rewrite Hx. cbn. now rewrite IH.
Qed.

(** In [ip.js], [removeRule] deletes the very rule [addRule] adds: on the
    reference firewall, adding a rule that was not there and removing it
    gives the rule set back. *)
Lemma Ip_removeRule_undoes_addRule (strict : bool) (port : N) (ip : Address)
    (rs : Rules) (f : Ip.File) (g : option Text) :
  has_rule rs (mkRule allow ip port) = false ->
  Ip.firewall
    (snd (bind (Ip.addRule Rules (run strict) port ip)
            (fun _ => Ip.removeRule Rules (run strict) port ip)
            (Ip.mkWorld rs f g []))) = rs.
Proof.
  intros Habsent.
  unfold bind, Ip.addRule, Ip.removeRule, try_catch, bind, Ip.dollar,
    Ip.console_log, Ip.emit, throw.
  cbn [Ip.firewall Ip.state_file Ip.gist Ip.trace run].
  rewrite Habsent. cbn [Ip.firewall Ip.state_file Ip.gist Ip.trace run].
  rewrite has_rule_app, rule_eqb_refl, orb_true_r.
  cbn [Ip.firewall Ip.state_file Ip.gist Ip.trace snd].
  rewrite filter_app. cbn [filter]. rewrite rule_eqb_refl. cbn [negb].
  rewrite app_nil_r. now apply filter_absent.
Qed.

(** The reference firewall never refuses to add a rule, and has it
    afterwards; deleting one rule leaves every other rule where it is. *)
Lemma run_add strict r rs :
  exists out rs',
    run strict (rule_add r) rs = (Exit0 out, rs') /\ has_rule rs' r = true.
Proof.
  cbn [run]. destruct (has_rule rs r) eqn:Hr.
  - now eexists _, rs.
  - eexists _, (rs ++ [r]). split; [reflexivity|].
    now rewrite has_rule_app, rule_eqb_refl, orb_true_r.
Qed.

Lemma run_delete_other strict d r rs :
  rule_eqb d r = false ->
  has_rule (snd (run strict (rule_delete d) rs)) r = has_rule rs r.
Proof.
  intros Hne. cbn [run]. destruct (has_rule rs d); cbn [snd].
  - now apply has_rule_filter.
  - now destruct strict.
Qed.

Lemma addUFWRule_run (FW : Type) (sh : Cmd -> FW -> Exit * FW) ip config
    (w : Tui.World FW) :
  let c := rule_add (mkRule allow ip (Tui.sshPort config)) in
  Tui.addUFWRule FW sh ip config w =
    match sh c (Tui.firewall w) with
    | (Exit0 out, s) =>
        (inr tt,
         Tui.mkWorld s (Tui.gist w) (Tui.lastIP w) (Tui.isUpdating w)
           (Tui.trace w ++ [Tui.Shell c (Exit0 out);
                            Tui.Term (Tui.AddedRule ip (Tui.sshPort config))]))
    | (ShellError m, s) =>
        (inl (Error ("Failed to add UFW rule: " ++ m)),
         Tui.mkWorld s (Tui.gist w) (Tui.lastIP w) (Tui.isUpdating w)
           (Tui.trace w ++ [Tui.Shell c (ShellError m)]))
    end.
Proof.
  intros c. unfold Tui.addUFWRule, try_catch, bind, Tui.dollar, Tui.term,
    Tui.emit, throw. fold c.
  destruct (sh c (Tui.firewall w)) as [[out|m] s]; cbn;
    now rewrite <- ?app_assoc.
Qed.

Lemma removeUFWRule_run (FW : Type) (sh : Cmd -> FW -> Exit * FW) oldIp config
    (w : Tui.World FW) :
  let c := rule_delete (mkRule deny oldIp (Tui.sshPort config)) in
  Tui.removeUFWRule FW sh oldIp config w =
    match sh c (Tui.firewall w) with
    | (Exit0 out, s) =>
        (inr tt,
         Tui.mkWorld s (Tui.gist w) (Tui.lastIP w) (Tui.isUpdating w)
           (Tui.trace w ++ [Tui.Shell c (Exit0 out); Tui.Term (Tui.RemovedRule oldIp)]))
    | (ShellError m, s) =>
        (inl (Error ("Failed to remove UFW rule: " ++ m)),
         Tui.mkWorld s (Tui.gist w) (Tui.lastIP w) (Tui.isUpdating w)
           (Tui.trace w ++ [Tui.Shell c (ShellError m)]))
    end.
Proof.
  intros c. unfold Tui.removeUFWRule, try_catch, bind, Tui.dollar, Tui.term,
    Tui.emit, throw. fold c.
  destruct (sh c (Tui.firewall w)) as [[out|m] s]; cbn;
    now rewrite <- ?app_assoc.
Qed.

(** C8 on [tui.js].  [removeUFWRule] asks the firewall to delete a [deny]
    rule: after [addUFWRule] and [removeUFWRule] for the same address and
    configuration the [allow] rule is still in place on the reference
    firewall, whatever rules were there before. *)
Theorem C8_tui_remove_leaves_allow_rule (strict : bool) (ip : Address)
    (config : Tui.Config) (rs : Rules) (content : Text) (last : Address)
    (updating : bool) :
  let w' := snd (bind (Tui.addUFWRule Rules (run strict) ip config)
                   (fun _ => Tui.removeUFWRule Rules (run strict) ip config)
                   (Tui.mkWorld rs content last updating [])) in
  has_rule (Tui.firewall w') (mkRule allow ip (Tui.sshPort config)) = true
  /\ exists r1 r2 rest,
       Tui.trace w' =
         Tui.Shell (rule_add (mkRule allow ip (Tui.sshPort config))) r1
           :: Tui.Term (Tui.AddedRule ip (Tui.sshPort config))
           :: Tui.Shell (rule_delete (mkRule deny ip (Tui.sshPort config))) r2
           :: rest.
Proof.
  set (a := mkRule allow ip (Tui.sshPort config)).
  set (d := mkRule deny ip (Tui.sshPort config)).
  unfold bind. rewrite addUFWRule_run. fold a.
  cbn [Tui.firewall Tui.gist Tui.lastIP Tui.isUpdating Tui.trace].
  destruct (run_add strict a rs) as (out & rs1 & -> & Ha).
  rewrite removeUFWRule_run. fold d.
  cbn [Tui.firewall Tui.gist Tui.lastIP Tui.isUpdating Tui.trace].
  pose proof (run_delete_other strict d a rs1 eq_refl) as Hkeep.
  destruct (run strict (rule_delete d) rs1) as [[out2|m2] rs2];
    cbn [snd Tui.firewall Tui.trace app] in *;
    (split; [congruence|]); eexists _, _, _; reflexivity.
Qed.

Example tui_remove_example :
  Tui.firewall
    (snd (bind (Tui.addUFWRule Rules (run false) "1.2.3.4" (Tui.mkConfig "laptop" 22))
            (fun _ => Tui.removeUFWRule Rules (run false) "1.2.3.4"
                        (Tui.mkConfig "laptop" 22))
            (Tui.mkWorld [] EmptyText "" false []))) =
    [mkRule allow "1.2.3.4" 22]
  /\ Ip.firewall
       (snd (bind (Ip.addRule Rules (run false) 22 "1.2.3.4")
               (fun _ => Ip.removeRule Rules (run false) 22 "1.2.3.4")
               (Ip.mkWorld [] Ip.NoFile None []))) = [].
Proof. split; reflexivity. Qed.

End FirewallClaims.

(* ================================================================== *)
(** * Accounting for the effects of ip.js *)
(* ================================================================== *)

Module AccountFacts.
Import JS Ufw Account.

Section Keeps.

Variable FW : Type.
Variable sh : Cmd -> FW -> Exit * FW.
Variable outage : Ip.Request -> option string.
Variable allowed : Ip.Event -> bool.

Local Abbreviation World := (Ip.World FW).
Local Abbreviation keeps := (@Account.keeps FW sh outage allowed).
Local Abbreviation accounted := (Account.accounted FW sh outage allowed).

Lemma replay_app tr1 tr2 s :
  replay FW sh (tr1 ++ tr2) s = replay FW sh tr2 (replay FW sh tr1 s).
Proof.
  revert s. induction tr1 as [|[c r|m|t|q] tr1 IH]; intros s; cbn; auto.
Qed.

Lemma genuine_app tr1 tr2 s :
  genuine FW sh (tr1 ++ tr2) s <->
  genuine FW sh tr1 s /\ genuine FW sh tr2 (replay FW sh tr1 s).
Proof.
  revert s. induction tr1 as [|[c r|m|t|q] tr1 IH]; intros s; cbn;
    try apply IH; [tauto|].
  rewrite IH. tauto.
Qed.

Lemma written_app tr1 tr2 f : written (tr1 ++ tr2) f = written tr2 (written tr1 f).
Proof.
  revert f. induction tr1 as [|[c r|m|t|q] tr1 IH]; intros f; cbn; auto.
Qed.

Lemma stored_app tr1 tr2 g :
  stored outage (tr1 ++ tr2) g = stored outage tr2 (stored outage tr1 g).
Proof.
  revert g. induction tr1 as [|[c r|m|t|q] tr1 IH]; intros g; cbn; auto.
Qed.

(** Accounts compose. *)
Lemma accounted_refl w : accounted w w.
Proof.
  exists []. split; [constructor|]. split; [exact I|].
  cbn. rewrite app_nil_r. now destruct w.
Qed.

Lemma accounted_trans w1 w2 w3 : accounted w1 w2 -> accounted w2 w3 -> accounted w1 w3.
Proof.
  intros (evs1 & Ha1 & Hg1 & ->) (evs2 & Ha2 & Hg2 & ->).
  cbn [Ip.firewall Ip.state_file Ip.gist Ip.trace] in *.
  exists (evs1 ++ evs2). split; [now apply Forall_app|].
  split; [now apply genuine_app|].
  now rewrite replay_app, written_app, stored_app, app_assoc.
Qed.

Lemma keeps_ret {A} (a : A) : keeps (ret a).
Proof. intros w. apply accounted_refl. Qed.

Lemma keeps_throw {A} e : keeps (@throw World A e).
Proof. intros w. apply accounted_refl. Qed.

Lemma keeps_lift {A} (r : Exn + A) : keeps (lift r).
Proof. intros w. apply accounted_refl. Qed.

Lemma keeps_bind {A B} (m : M World A) (k : A -> M World B) :
  keeps m -> (forall a, keeps (k a)) -> keeps (bind m k).
Proof.
  intros Hm Hk w. unfold bind. specialize (Hm w).
  destruct (m w) as [[e|a] w1]; cbn in *; [exact Hm|].
  apply (accounted_trans _ _ _ Hm). apply Hk.
Qed.

Lemma keeps_try_catch {A} (m : M World A) (h : Exn -> M World A) :
  keeps m -> (forall e, keeps (h e)) -> keeps (try_catch m h).
Proof.
  intros Hm Hh w. unfold try_catch. specialize (Hm w).
  destruct (m w) as [[e|a] w1]; cbn in *; [|exact Hm].
  apply (accounted_trans _ _ _ Hm). apply Hh.
Qed.

Lemma keeps_for_of {A} (l : list A) (body : A -> M World unit) :
  (forall x, keeps (body x)) -> keeps (for_of l body).
Proof.
  intros Hbody. induction l as [|x l IH]; cbn [for_of].
  - apply keeps_ret.
  - apply keeps_bind; [apply Hbody|intros _; exact IH].
Qed.

Lemma keeps_if {A} (b : bool) (m1 m2 : M World A) :
  keeps m1 -> keeps m2 -> keeps (if b then m1 else m2).
Proof. now destruct b. Qed.

(** The primitives. *)
Lemma keeps_console_log m :
  allowed (Ip.Console m) = true -> keeps (Ip.console_log FW m).
Proof.
  intros Hm w. exists [Ip.Console m]. split; [now constructor|].
  split; [exact I|reflexivity].
Qed.

Lemma keeps_dollar c :
  (forall r, allowed (Ip.Shell c r) = true) -> keeps (Ip.dollar FW sh c).
Proof.
  intros Hc w. exists [Ip.Shell c (fst (sh c (Ip.firewall w)))].
  split; [now constructor|]. split; [now split|].
  unfold Ip.dollar. cbn [replay written stored app].
  destruct (sh c (Ip.firewall w)) as [[out|m] s]; reflexivity.
Qed.

Lemma keeps_request q :
  allowed (Ip.Http q) = true ->
  (forall g, store_after outage q g = g) ->
  keeps (Ip.request FW outage q).
Proof.
  intros Hq Hsame w. exists [Ip.Http q]. split; [now constructor|].
  split; [exact I|]. cbn. rewrite Hsame.
  unfold Ip.request. now destruct (outage q).
Qed.

Lemma keeps_read_gist : keeps (Ip.read_gist FW).
Proof. intros w. apply accounted_refl. Qed.

Lemma keeps_existsSync : keeps (Ip.existsSync FW).
Proof. intros w. apply accounted_refl. Qed.

Lemma keeps_readFile : keeps (Ip.readFile FW).
Proof.
  intros w. unfold Ip.readFile. destruct (Ip.state_file w); apply accounted_refl.
Qed.

Lemma keeps_writeFile t :
  allowed (Ip.WriteState t) = true -> keeps (Ip.writeFile FW t).
Proof.
  intros Ht w. exists [Ip.WriteState t]. split; [now constructor|].
  split; [exact I|reflexivity].
Qed.

(** A write to the store is its request together with what it leaves. *)
Lemma keeps_updateGist content :
  allowed (Ip.Http (Ip.PatchGist content)) = true ->
  keeps (Ip.updateGist FW outage content).
Proof.
  intros Hq w. exists [Ip.Http (Ip.PatchGist content)].
  split; [now constructor|]. split; [exact I|].
  unfold Ip.updateGist, try_catch, bind, Ip.request, Ip.store_gist, throw.
  cbn. unfold store_after. now destruct (outage (Ip.PatchGist content)).
Qed.

Lemma keeps_createGist domain ip :
  allowed (Ip.Http (Ip.PostGist [(domain, ip)])) = true ->
  keeps (Ip.createGist FW outage domain ip).
Proof.
  intros Hq w. exists [Ip.Http (Ip.PostGist [(domain, ip)])].
  split; [now constructor|]. split; [exact I|].
  unfold Ip.createGist, try_catch, bind, Ip.request, Ip.store_gist, throw.
  cbn. unfold store_after. now destruct (outage (Ip.PostGist [(domain, ip)])).
Qed.

End Keeps.

(** The closure lemmas as one tactic: it walks the structure of a
    computation down to its primitives. *)
Ltac keeps_walk :=
  repeat first
    [ apply keeps_ret | apply keeps_throw | apply keeps_lift
    | apply keeps_read_gist | apply keeps_existsSync | apply keeps_readFile
    | apply keeps_updateGist; reflexivity
    | apply keeps_createGist; reflexivity
    | apply keeps_bind; [|intros ?]
    | apply keeps_try_catch; [|intros ?]
    | apply keeps_for_of; intros ?
    | apply keeps_console_log; reflexivity
    | apply keeps_dollar; intros ?; reflexivity
    | apply keeps_writeFile; reflexivity
    | apply keeps_request; [reflexivity|intros ?; reflexivity]
    | match goal with
      | |- Account.keeps _ _ _ _ (if ?b then _ else _) => destruct b
      | |- Account.keeps _ _ _ _ (match ?x with _ => _ end) => destruct x
      | |- Account.keeps _ _ _ _ (let (_, _) := ?x in _) => destruct x
      end ].

Section Programs.

Variable FW : Type.
Variable sh : Cmd -> FW -> Exit * FW.
Variable outage : Ip.Request -> option string.

Lemma store_after_read q g :
  q = Ip.GetDeviceIp \/ q = Ip.GetGists \/ q = Ip.GetRaw ->
  store_after outage q g = g.
Proof.
  unfold store_after. intros [->|[->| ->]]; now destruct (outage _).
Qed.

Lemma keeps_read_request allowed q :
  allowed (Ip.Http q) = true ->
  q = Ip.GetDeviceIp \/ q = Ip.GetGists \/ q = Ip.GetRaw ->
  Account.keeps FW sh outage allowed (Ip.request FW outage q).
Proof.
  intros Hq Hread. apply keeps_request; [exact Hq|].
  intros g. now apply store_after_read.
Qed.

(** Everything [serverMode] does is a command, a line, the write of the
    state file or a read of the store, and its trace accounts for the
    world it leaves. *)
Lemma keeps_serverMode port :
  Account.keeps FW sh outage server_event (Ip.serverMode FW sh outage port).
Proof.
  unfold Ip.serverMode, Ip.reconcile, Ip.getAllGists, Ip.getGistContent,
    Ip.loadLocalState, Ip.processEntry, Ip.removeDeleted, Ip.listRules,
    Ip.addRule, Ip.removeRule.
  repeat first
    [ apply keeps_read_request; [reflexivity|tauto]
    | progress keeps_walk ].
Qed.

(** Everything [connectorMode] does is a line or a request. *)
Lemma keeps_connectorMode device_ip domain :
  Account.keeps FW sh outage connector_event
    (Ip.connectorMode FW outage device_ip domain).
Proof.
  unfold Ip.connectorMode, Ip.getDeviceIp, Ip.getAllGists, Ip.getGistContent.
  repeat first
    [ apply keeps_read_request; [reflexivity|tauto]
    | progress keeps_walk ].
Qed.

End Programs.

(** ** What the accounts say *)

Section Frames.

Variable FW : Type.
Variable sh : Cmd -> FW -> Exit * FW.
Variable outage : Ip.Request -> option string.

Lemma stored_server_events evs g :
  Forall (fun e => server_event e = true) evs -> stored outage evs g = g.
Proof.
  induction 1 as [|e evs He _ IH]; [reflexivity|].
  destruct e as [c r|m|t|[| | |d|d]]; cbn in *; try discriminate; try exact IH.
  - now rewrite (store_after_read outage Ip.GetGists g) by tauto.
  - now rewrite (store_after_read outage Ip.GetRaw g) by tauto.
Qed.

Lemma connector_events_quiet evs s f :
  Forall (fun e => connector_event e = true) evs ->
  replay FW sh evs s = s /\ written evs f = f.
Proof.
  induction 1 as [|e evs He _ IH]; [now split|].
  destruct e as [c r|m|t|q]; cbn in *; try discriminate; exact IH.
Qed.

(** A server pass never writes the store and never asks for the device
    address: whatever the firewall and the network do, the events it adds
    are commands, lines, writes of the state file and the two reads of the
    store; the gist is as before; the firewall is what the commands of the
    trace, each with the outcome shown, made of it; and the state file is
    what the last write left. *)
Theorem serverMode_effects (port : N) (w : Ip.World FW) :
  let w' := snd (Ip.serverMode FW sh outage port w) in
  exists evs,
    Ip.trace w' = Ip.trace w ++ evs
    /\ Forall (fun e => server_event e = true) evs
    /\ (forall content, ~ In (Ip.Http (Ip.PatchGist content)) evs)
    /\ (forall content, ~ In (Ip.Http (Ip.PostGist content)) evs)
    /\ Ip.gist w' = Ip.gist w
    /\ genuine FW sh evs (Ip.firewall w)
    /\ Ip.firewall w' = replay FW sh evs (Ip.firewall w)
    /\ Ip.state_file w' = written evs (Ip.state_file w).
Proof.
  destruct (keeps_serverMode FW sh outage port w) as (evs & Hall & Hgen & Hw).
  cbv zeta. rewrite Hw. cbn [Ip.firewall Ip.state_file Ip.gist Ip.trace].
  exists evs. split; [reflexivity|]. split; [exact Hall|].
  rewrite Forall_forall in Hall.
  split; [intros content Hin; now apply Hall in Hin|].
  split; [intros content Hin; now apply Hall in Hin|].
  split; [apply stored_server_events; now apply Forall_forall|].
  now split.
Qed.

(** A connector pass never runs a firewall command and never writes the
    state file: the firewall and the state file are as before, and the gist
    is what the requests of the trace that went through left. *)
Theorem connectorMode_effects (device_ip : Address) (domain : Identifier)
    (w : Ip.World FW) :
  let w' := snd (Ip.connectorMode FW outage device_ip domain w) in
  exists evs,
    Ip.trace w' = Ip.trace w ++ evs
    /\ (forall c r, ~ In (Ip.Shell c r) evs)
    /\ (forall t, ~ In (Ip.WriteState t) evs)
    /\ Ip.firewall w' = Ip.firewall w
    /\ Ip.state_file w' = Ip.state_file w
    /\ Ip.gist w' = stored outage evs (Ip.gist w).
Proof.
  destruct (keeps_connectorMode FW sh outage device_ip domain w)
    as (evs & Hall & Hgen & Hw).
  cbv zeta. rewrite Hw. cbn [Ip.firewall Ip.state_file Ip.gist Ip.trace].
  destruct (connector_events_quiet evs (Ip.firewall w) (Ip.state_file w) Hall)
    as [Hfw Hfile].
  exists evs. split; [reflexivity|].
  rewrite Forall_forall in Hall.
  split; [intros c r Hin; now apply Hall in Hin|].
  split; [intros t Hin; now apply Hall in Hin|].
  now split; [|split].
Qed.

End Frames.

End AccountFacts.

(* ================================================================== *)
(** * The server pass on the reference firewall *)
(* ================================================================== *)

Module ReferenceFacts.
Import JS Ufw Account DocFacts.

(** ** Rule sets *)

Lemma rule_eqb_true r r' : rule_eqb r r' = true <-> r = r'.
Proof.
  split; [apply FirewallClaims.rule_eqb_eq|].
  intros ->. apply FirewallClaims.rule_eqb_refl.
Qed.

Lemma has_rule_filter_same rs r :
  has_rule (filter (fun x => negb (rule_eqb r x)) rs) r = false.
Proof.
  unfold has_rule. induction rs as [|x rs IH]; [reflexivity|].
  cbn. destruct (rule_eqb r x) eqn:Hx; cbn; [exact IH|].
  now rewrite Hx, IH.
Qed.

(** The reference firewall, lenient about deleting an absent rule, never
    fails. *)
Lemma run_lenient_ok c rs : exists out, fst (run false c rs) = Exit0 out.
Proof.
  destruct c as [r|r|]; cbn; [destruct (has_rule rs r)..|]; eexists; reflexivity.
Qed.

(** One command decides the presence of a rule by itself, or leaves it. *)
Lemma has_rule_run c rs r :
  has_rule (snd (run false c rs)) r = presence_after r (has_rule rs r) c.
Proof.
  destruct c as [r'|r'|]; cbn [run presence_after]; [| |reflexivity].
  - destruct (has_rule rs r') eqn:Hr'; cbn [snd].
    + destruct (rule_eqb r' r) eqn:E; [|reflexivity].
      apply rule_eqb_true in E. now subst.
    + rewrite FirewallClaims.has_rule_app.
      destruct (rule_eqb r' r) eqn:E.
      * apply rule_eqb_true in E. subst.
        now rewrite FirewallClaims.rule_eqb_refl, orb_true_r.
      * destruct (rule_eqb r r') eqn:E'; [|now rewrite orb_false_r].
        apply rule_eqb_true in E'. subst.
        now rewrite FirewallClaims.rule_eqb_refl in E.
  - destruct (rule_eqb r' r) eqn:E.
    + apply rule_eqb_true in E. subst r'.
      destruct (has_rule rs r) eqn:Hr; cbn [snd]; [|exact Hr].
      apply has_rule_filter_same.
    + destruct (has_rule rs r'); cbn [snd]; [|reflexivity].
      now apply FirewallClaims.has_rule_filter.
Qed.

Lemma has_rule_fold cmds rs r :
  has_rule (fold_left (fun s c => snd (run false c s)) cmds rs) r =
  fold_left (presence_after r) cmds (has_rule rs r).
Proof.
  revert rs. induction cmds as [|c cmds IH]; intros rs; [reflexivity|].
  cbn [fold_left]. now rewrite IH, has_rule_run.
Qed.

(** What a sequence of commands makes of the presence of one rule. *)
Lemma presence_untouched r cmds b :
  ~ In (rule_add r) cmds -> ~ In (rule_delete r) cmds ->
  fold_left (presence_after r) cmds b = b.
Proof.
  revert b. induction cmds as [|c cmds IH]; intros b Ha Hd; [reflexivity|].
  cbn [fold_left].
  rewrite IH; [|intros H; apply Ha; now right|intros H; apply Hd; now right].
  destruct c as [r'|r'|]; cbn; [| |reflexivity];
    (destruct (rule_eqb r' r) eqn:E; [|reflexivity]);
    apply rule_eqb_true in E; subst r'; exfalso.
  - apply Ha. now left.
  - apply Hd. now left.
Qed.

Lemma presence_deleted r cmds b :
  ~ In (rule_add r) cmds -> In (rule_delete r) cmds ->
  fold_left (presence_after r) cmds b = false.
Proof.
  revert b. induction cmds as [|c cmds IH]; intros b Ha Hd; [destruct Hd|].
  destruct Hd as [Hd|Hd].
  - subst c. cbn [fold_left presence_after].
    rewrite FirewallClaims.rule_eqb_refl.
    clear IH. assert (Ha' : ~ In (rule_add r) cmds) by (intros H; apply Ha; now right).
    clear Ha. induction cmds as [|c cmds IH]; [reflexivity|].
    cbn [fold_left].
    assert (Hc : presence_after r false c = false).
    { destruct c as [r'|r'|]; cbn; [|now destruct (rule_eqb r' r)|reflexivity].
      destruct (rule_eqb r' r) eqn:E; [|reflexivity].
      apply rule_eqb_true in E. subst. exfalso. apply Ha'. now left. }
    rewrite Hc. apply IH. intros H. apply Ha'. now right.
  - cbn [fold_left]. apply IH; [|exact Hd]. intros H. apply Ha. now right.
Qed.

Lemma presence_kept r cmds b :
  ~ In (rule_delete r) cmds -> b = true \/ In (rule_add r) cmds ->
  fold_left (presence_after r) cmds b = true.
Proof.
  revert b. induction cmds as [|c cmds IH]; intros b Hd Hb.
  - destruct Hb as [Hb|Hb]; [now subst|destruct Hb].
  - cbn [fold_left]. apply IH; [intros H; apply Hd; now right|].
    destruct Hb as [Hb|Hb]; [|destruct Hb as [Hb|Hb]; [|now right]]; left; subst.
    + destruct c as [r'|r'|]; cbn; [now destruct (rule_eqb r' r)| |reflexivity].
      destruct (rule_eqb r' r) eqn:E; [|reflexivity].
      apply rule_eqb_true in E. subst. exfalso. apply Hd. now left.
    + cbn. now rewrite FirewallClaims.rule_eqb_refl.
Qed.

(** ** Documents with distinct addresses *)

Lemma distinct_addresses_In d i j x :
  distinct_addresses d = true -> In (i, x) d -> In (j, x) d -> i = j.
Proof.
  induction d as [|[k v] d IH]; [intros _ []|].
  cbn [distinct_addresses]. intros [Hk Hd]%andb_prop.
  rewrite forallb_forall in Hk.
  intros [Hi|Hi] [Hj|Hj]; [congruence| | |now apply IH].
  - injection Hi as -> ->.
    specialize (Hk _ Hj). cbn in Hk. rewrite String.eqb_refl in Hk. cbn in Hk.
    apply String.eqb_eq in Hk. now subst.
  - injection Hj as -> ->.
    specialize (Hk _ Hi). cbn in Hk. rewrite String.eqb_refl in Hk. cbn in Hk.
    now apply String.eqb_eq in Hk.
Qed.

(** ** Where the operations of the plan come from *)

Lemma In_plan_entry_Add oldData entry j a :
  In (Ip.Add j a) (Ip.plan_entry oldData entry) ->
  entry = (j, a) /\ prop oldData j <> Some a.
Proof.
  destruct entry as [domain ip]. cbn [Ip.plan_entry].
  destruct (prop oldData domain) as [old|] eqn:Hold.
  - destruct (String.eqb_spec old ip) as [->|Hne]; cbn; [intros []|].
    intros [H|[H|[]]]; [discriminate|]. injection H as <- <-.
    split; [reflexivity|]. congruence.
  - cbn. intros [H|[]]. injection H as <- <-. split; [reflexivity|congruence].
Qed.

Lemma In_plan_entry_Remove oldData entry j a :
  In (Ip.Remove j a) (Ip.plan_entry oldData entry) ->
  fst entry = j /\ prop oldData j = Some a /\ snd entry <> a.
Proof.
  destruct entry as [domain ip]. cbn [Ip.plan_entry fst snd].
  destruct (prop oldData domain) as [old|] eqn:Hold.
  - destruct (String.eqb_spec old ip) as [->|Hne]; cbn; [intros []|].
    intros [H|[H|[]]]; [|discriminate]. injection H as <- <-.
    split; [reflexivity|]. split; [exact Hold|congruence].
  - cbn. intros [H|[]]. discriminate.
Qed.

Lemma In_plan_deleted newData entry o :
  In o (Ip.plan_deleted newData entry) ->
  o = Ip.Remove (fst entry) (snd entry) /\ prop newData (fst entry) = None.
Proof.
  destruct entry as [oldDomain oldIp]. cbn [Ip.plan_deleted fst snd].
  destruct (hasOwnProperty newData oldDomain) eqn:Hown; cbn; [intros []|].
  intros [<-|[]]. split; [reflexivity|]. now apply hasOwnProperty_false.
Qed.

Lemma In_plan_Add oldData newData j a :
  In (Ip.Add j a) (Ip.plan oldData newData) ->
  In (j, a) newData /\ prop oldData j <> Some a.
Proof.
  unfold Ip.plan. rewrite in_app_iff, !in_flat_map.
  intros [(entry & Hin & Hop)|(entry & Hin & Hop)].
  - apply In_plan_entry_Add in Hop. destruct Hop as [-> Hne]. now split.
  - apply In_plan_deleted in Hop. destruct Hop as [H _]. discriminate.
Qed.

Lemma In_plan_Remove oldData newData j a :
  unique_keys newData = true ->
  In (Ip.Remove j a) (Ip.plan oldData newData) ->
  In (j, a) oldData /\ prop newData j <> Some a.
Proof.
  intros Hnew%unique_keys_NoDup.
  unfold Ip.plan. rewrite in_app_iff, !in_flat_map.
  intros [([k v] & Hin & Hop)|([k v] & Hin & Hop)].
  - apply In_plan_entry_Remove in Hop. cbn in Hop. destruct Hop as (-> & Hold & Hne).
    split; [now apply prop_In|].
    rewrite (In_prop newData j v Hnew Hin). congruence.
  - apply In_plan_deleted in Hop. cbn in Hop. destruct Hop as [[= <- <-] Hnone].
    split; [exact Hin|]. now rewrite Hnone.
Qed.

Lemma plan_has_Add oldData newData i x :
  In (i, x) newData -> prop oldData i <> Some x ->
  In (Ip.Add i x) (Ip.plan oldData newData).
Proof.
  intros Hin Hne. unfold Ip.plan. apply in_or_app. left.
  apply in_flat_map. exists (i, x). split; [exact Hin|].
  cbn [Ip.plan_entry]. destruct (prop oldData i) as [old|]; [|now left].
  destruct (String.eqb_spec old x) as [->|Hox]; [now elim Hne|].
  cbn. right. now left.
Qed.

Lemma plan_has_Remove oldData newData i x :
  unique_keys oldData = true ->
  In (i, x) oldData -> prop newData i <> Some x ->
  In (Ip.Remove i x) (Ip.plan oldData newData).
Proof.
  intros Hold%unique_keys_NoDup Hin Hne. unfold Ip.plan. apply in_or_app.
  destruct (prop newData i) as [y|] eqn:Hnew.
  - left. apply in_flat_map. exists (i, y). split; [now apply prop_In|].
    cbn [Ip.plan_entry]. rewrite (In_prop oldData i x Hold Hin).
    destruct (String.eqb_spec x y) as [->|Hxy]; [now elim Hne|].
    cbn. now left.
  - right. apply in_flat_map. exists (i, x). split; [exact Hin|].
    cbn [Ip.plan_deleted]. apply hasOwnProperty_false in Hnew. rewrite Hnew.
    cbn. now left.
Qed.

(** ** A pass on the reference firewall *)

Lemma genuine_lenient tr rs :
  genuine Rules (run false) tr rs -> Ip.all_succeeded tr = true.
Proof.
  revert rs. induction tr as [|[c r|m|t|q] tr IH]; intros rs; cbn;
    try apply IH; [reflexivity|].
  intros [-> Hrest]. destruct (run_lenient_ok c rs) as [out ->]. cbn.
  now apply IH in Hrest.
Qed.

Lemma replay_lenient tr rs :
  replay Rules (run false) tr rs =
  fold_left (fun s c => snd (run false c s)) (Ip.rule_commands tr) rs.
Proof.
  revert rs. induction tr as [|[c r|m|t|q] tr IH]; intros rs; cbn;
    try apply IH; [reflexivity|].
  destruct c as [rule|rule|]; cbn [Ip.rule_command app fold_left]; apply IH.
Qed.

(** After a pass, a rule is there or not as the commands of the plan, in
    their order, leave it. *)
Lemma reference_pass port rs f store r :
  has_rule (Ip.firewall (snd (Ip.server_pass Rules (run false) port rs f store))) r =
  fold_left (presence_after r)
    (map (Ip.cmd_of_op port) (Ip.plan (Ip.checkpoint_of f) (Ip.read_doc store)))
    (has_rule rs r).
Proof.
  destruct (ServerFacts.server_pass_run Rules (run false) port rs f store)
    as (ret & s & tr & Hrun & Htr).
  destruct (AccountFacts.keeps_serverMode Rules (run false) Ip.reachable port
              (Ip.mkWorld rs f (Some store) [])) as (evs & _ & Hgen & Hw).
  fold (Ip.server_pass Rules (run false) port rs f store) in Hw.
  rewrite Hrun in Hw |- *. cbn [snd Ip.firewall Ip.trace app] in *.
  injection Hw as -> _ _ ->.
  apply genuine_lenient in Hgen.
  rewrite replay_lenient, has_rule_fold.
  now rewrite (ServerFacts.pass_commands port f store ret evs Htr Hgen).
Qed.

Lemma In_cmd_of_plan port oldData newData c :
  In c (map (Ip.cmd_of_op port) (Ip.plan oldData newData)) ->
  exists j a,
    (c = rule_add (mkRule allow a port) /\ In (Ip.Add j a) (Ip.plan oldData newData))
    \/ (c = rule_delete (mkRule allow a port)
        /\ In (Ip.Remove j a) (Ip.plan oldData newData)).
Proof.
  intros ([j a|j a] & <- & Hin)%in_map_iff; exists j, a; [left|right]; now split.
Qed.

(** Convergence.  Let the two documents have unique keys and no address
    shared between two identifiers, and let the firewall allow every address
    of the checkpoint.  After the pass the firewall allows every address of
    the desired document, allows no address the checkpoint held for an
    identifier that no longer has it, and every other rule is as before. *)
Theorem reference_pass_converges (port : N) (rs : Rules) (checkpoint desired : Doc) :
  unique_keys checkpoint = true -> unique_keys desired = true ->
  distinct_addresses (checkpoint ++ desired) = true ->
  allows_all rs port checkpoint = true ->
  let w' := snd (Ip.server_pass Rules (run false) port rs
                   (Ip.FileOf (JSONText checkpoint)) (JSONText desired)) in
  (forall i x, In (i, x) desired ->
               has_rule (Ip.firewall w') (mkRule allow x port) = true)
  /\ (forall i x, In (i, x) checkpoint -> prop desired i <> Some x ->
                  has_rule (Ip.firewall w') (mkRule allow x port) = false)
  /\ (forall r,
        action r = deny \/ Ufw.port r <> port
        \/ (forall i, ~ In (i, from r) (checkpoint ++ desired)) ->
        has_rule (Ip.firewall w') r = has_rule rs r).
Proof.
  intros Hc Hd Hdist Hallows w'. subst w'.
  pose proof (unique_keys_NoDup _ Hd) as Hdn.
  unfold allows_all in Hallows. rewrite forallb_forall in Hallows.
  split; [|split].
  - intros i x Hin. rewrite reference_pass. cbn [Ip.checkpoint_of Ip.read_doc].
    apply presence_kept.
    + intros Hdel. apply In_cmd_of_plan in Hdel.
      destruct Hdel as (j & a & [[[=] _]|[[= <-] Hrem]]).
      apply In_plan_Remove in Hrem; [|exact Hd]. destruct Hrem as [Hj Hne].
      assert (i = j)
        by (apply (distinct_addresses_In _ i j x Hdist); apply in_or_app; auto).
      subst j. apply Hne. now apply In_prop.
    + destruct (prop checkpoint i) as [o|] eqn:Hold.
      * destruct (String.eqb_spec o x) as [->|Hox].
        -- left. apply prop_In in Hold. exact (Hallows _ Hold).
        -- right. apply in_map_iff. exists (Ip.Add i x). split; [reflexivity|].
           apply plan_has_Add; [exact Hin|]. rewrite Hold. congruence.
      * right. apply in_map_iff. exists (Ip.Add i x). split; [reflexivity|].
        apply plan_has_Add; [exact Hin|]. rewrite Hold. discriminate.
  - intros i x Hin Hne. rewrite reference_pass. cbn [Ip.checkpoint_of Ip.read_doc].
    apply presence_deleted.
    + intros Hadd. apply In_cmd_of_plan in Hadd.
      destruct Hadd as (j & a & [[[= <-] Hadd]|[[=] _]]).
      apply In_plan_Add in Hadd. destruct Hadd as [Hj _].
      assert (i = j)
        by (apply (distinct_addresses_In _ i j x Hdist); apply in_or_app; auto).
      subst j. apply Hne. now apply In_prop.
    + apply in_map_iff. exists (Ip.Remove i x). split; [reflexivity|].
      now apply plan_has_Remove.
  - intros r Hr. rewrite reference_pass. cbn [Ip.checkpoint_of Ip.read_doc].
    assert (Hnot : forall j a, r = mkRule allow a port ->
                     ~ (In (j, a) checkpoint \/ In (j, a) desired)).
    { intros j a -> Hin. destruct Hr as [Hr|[Hr|Hr]]; [discriminate|now apply Hr|].
      apply (Hr j). cbn. apply in_or_app. exact Hin. }
    apply presence_untouched.
    + intros Hadd. apply In_cmd_of_plan in Hadd.
      destruct Hadd as (j & a & [[[= ->] Hadd]|[[=] _]]).
      apply In_plan_Add in Hadd. destruct Hadd as [Hj _].
      apply (Hnot j a eq_refl). now right.
    + intros Hdel. apply In_cmd_of_plan in Hdel.
      destruct Hdel as (j & a & [[[=] _]|[[= ->] Hrem]]).
      apply In_plan_Remove in Hrem; [|exact Hd]. destruct Hrem as [Hj _].
      apply (Hnot j a eq_refl). now left.
Qed.

(** An identifier dropped from the store takes the rule of its address
    with it, whether or not another identifier of the fetched document has
    that address: the delete runs in the second loop, after every [allow]
    of the pass. *)
Theorem dropped_identifier_takes_its_address (port : N) (rs : Rules)
    (f : Ip.File) (store : Text) (id : Identifier) (x : Address) :
  In (id, x) (Ip.checkpoint_of f) -> prop (Ip.read_doc store) id = None ->
  has_rule (Ip.firewall (snd (Ip.server_pass Rules (run false) port rs f store)))
    (mkRule allow x port) = false.
Proof.
  intros Hin Hnone. rewrite reference_pass. unfold Ip.plan.
  rewrite map_app, fold_left_app. apply presence_deleted.
  - intros (o & Ho & Hino)%in_map_iff. apply in_flat_map in Hino.
    destruct Hino as (entry & _ & Hop). apply In_plan_deleted in Hop.
    destruct Hop as [-> _]. discriminate.
  - apply in_map_iff. exists (Ip.Remove id x). split; [reflexivity|].
    apply in_flat_map. exists (id, x). split; [exact Hin|].
    cbn [Ip.plan_deleted]. apply hasOwnProperty_false in Hnone. rewrite Hnone.
    now left.
Qed.

(** From connector to server.  After a connector pass whose requests all
    go through, the gist holds a document in which the identifier has the
    observed address; a server that has no state file yet and fetches that
    document ends with the address allowed on its port. *)
Theorem published_address_gets_allowed (device_ip : Address) (domain : Identifier)
    (port : N) (rs0 rs : Rules) (f0 : Ip.File) (store0 : option Text) :
  exists t,
    Ip.gist (snd (Ip.connector_pass Rules device_ip domain rs0 f0 store0)) = Some t
    /\ prop (Ip.read_doc t) domain = Some device_ip
    /\ has_rule
         (Ip.firewall (snd (Ip.server_pass Rules (run false) port rs Ip.NoFile t)))
         (mkRule allow device_ip port) = true.
Proof.
  assert (Hpub : exists d,
             Ip.gist (snd (Ip.connector_pass Rules device_ip domain rs0 f0 store0)) =
               Some (JSONText d)
             /\ prop d domain = Some device_ip).
  { destruct store0 as [[| |d]|]; eexists; (split; [reflexivity|]);
      cbn [Ip.read_doc]; rewrite ?prop_set_prop; cbn; now rewrite String.eqb_refl. }
  destruct Hpub as (d & Hgist & Hprop).
  exists (JSONText d). split; [exact Hgist|]. split; [exact Hprop|].
  rewrite reference_pass. cbn [Ip.checkpoint_of Ip.read_doc].
  apply presence_kept.
  - rewrite ServerFacts.plan_from_empty, map_map.
    intros (entry & Heq & _)%in_map_iff. discriminate.
  - right. apply in_map_iff. exists (Ip.Add domain device_ip).
    split; [reflexivity|]. apply plan_has_Add; [now apply prop_In|discriminate].
Qed.

(** A second pass over the same fetched document runs no add or delete,
    whatever happened to the commands of the first: an operation that
    failed is not tried again. *)
Theorem failed_operation_is_not_retried (FW : Type) (sh : Cmd -> FW -> Exit * FW)
    (port : N) (s0 : FW) (f : Ip.File) (desired : Doc) :
  unique_keys desired = true ->
  let first := Ip.server_pass FW sh port s0 f (JSONText desired) in
  let second := Ip.server_pass FW sh port (Ip.firewall (snd first))
                  (Ip.state_file (snd first)) (JSONText desired) in
  Ip.state_file (snd first) = Ip.FileOf (JSONText desired)
  /\ Ip.announced (Ip.trace (snd second)) = []
  /\ Ip.rule_commands (Ip.trace (snd second)) = [].
Proof.
  intros Hd%unique_keys_NoDup first second. subst second first.
  destruct (ServerFacts.server_pass_run FW sh port s0 f (JSONText desired))
    as (ret & s & tr & -> & _).
  cbn [snd Ip.firewall Ip.state_file Ip.read_doc].
  split; [reflexivity|].
  destruct (ServerFacts.server_pass_run FW sh port s
              (Ip.FileOf (JSONText desired)) (JSONText desired))
    as (ret2 & s2 & tr2 & -> & Htr2).
  cbn [snd Ip.trace].
  pose proof (ServerFacts.plan_same desired Hd) as Hplan.
  split.
  - rewrite (ServerFacts.pass_announced port _ _ ret2 tr2 Htr2). exact Hplan.
  - exact (ServerFacts.pass_idle port _ _ ret2 tr2 Htr2 Hplan).
Qed.

(** The diff example of the specification, from a firewall that allows
    the two addresses of the checkpoint and denies a third. *)
Lemma reference_pass_converges_witness :
  let rs := Ip.example_rules ++ [mkRule deny "6.6.6.6" 22] in
  let w' := snd (Ip.server_pass Rules (run false) 22 rs
                   (Ip.FileOf (JSONText Ip.example_checkpoint))
                   (JSONText Ip.example_desired)) in
  has_rule (Ip.firewall w') (mkRule allow "3.3.3.3" 22) = true
  /\ has_rule (Ip.firewall w') (mkRule allow "1.1.1.1" 22) = true
  /\ has_rule (Ip.firewall w') (mkRule allow "2.2.2.2" 22) = false
  /\ has_rule (Ip.firewall w') (mkRule deny "6.6.6.6" 22) = true.
Proof.
  intros rs w'.
  destruct (reference_pass_converges 22 rs Ip.example_checkpoint Ip.example_desired
              eq_refl eq_refl eq_refl eq_refl) as (Hin & Hout & Hrest).
  split; [apply (Hin "b"); cbn; tauto|].
  split; [apply (Hin "a"); cbn; tauto|].
  split; [apply (Hout "b"); [cbn; tauto|discriminate]|].
  subst w'. rewrite (Hrest (mkRule deny "6.6.6.6" 22)); [reflexivity|now left].
Defined.

(** Two identifiers hold one address and one of them is dropped: the
    other is still in the fetched document, and its address is no longer
    allowed. *)
Lemma dropped_identifier_witness :
  let checkpoint := [("a", "1.1.1.1"); ("b", "1.1.1.1")] in
  let desired := [("a", "1.1.1.1")] in
  In ("b", "1.1.1.1") checkpoint
  /\ prop desired "b" = None
  /\ prop desired "a" = Some "1.1.1.1"
  /\ has_rule
       (Ip.firewall (snd (Ip.server_pass Rules (run false) 22
                            [mkRule allow "1.1.1.1" 22]
                            (Ip.FileOf (JSONText checkpoint)) (JSONText desired))))
       (mkRule allow "1.1.1.1" 22) = false.
Proof.
  intros checkpoint desired.
  assert (Hin : In ("b", "1.1.1.1") (Ip.checkpoint_of (Ip.FileOf (JSONText checkpoint))))
    by (cbn; tauto).
  split; [exact Hin|]. split; [reflexivity|]. split; [reflexivity|].
  exact (dropped_identifier_takes_its_address 22 [mkRule allow "1.1.1.1" 22]
           (Ip.FileOf (JSONText checkpoint)) (JSONText desired) "b" "1.1.1.1"
           Hin eq_refl).
Defined.

(** The firewall rejects the address of [c]: the first pass fails to add
    it, the second does not try. *)
Lemma failed_operation_witness :
  let first := Ip.server_pass Rules (rejecting ["4.4.4.4"]) 22 Ip.example_rules
                 (Ip.FileOf (JSONText Ip.example_checkpoint))
                 (JSONText Ip.example_desired) in
  let second := Ip.server_pass Rules (rejecting ["4.4.4.4"]) 22
                  (Ip.firewall (snd first)) (Ip.state_file (snd first))
                  (JSONText Ip.example_desired) in
  unique_keys Ip.example_desired = true
  /\ Ip.state_file (snd first) = Ip.FileOf (JSONText Ip.example_desired)
  /\ Ip.announced (Ip.trace (snd second)) = []
  /\ Ip.rule_commands (Ip.trace (snd second)) = [].
Proof.
  intros first second. split; [reflexivity|].
  apply (failed_operation_is_not_retried Rules (rejecting ["4.4.4.4"]) 22
           Ip.example_rules (Ip.FileOf (JSONText Ip.example_checkpoint))
           Ip.example_desired).
  reflexivity.
Defined.

End ReferenceFacts.

(* ================================================================== *)
(** * More on the connector passes *)
(* ================================================================== *)

Module ConnectorMore.
Import JS Ufw DocFacts.

(** ** ip.js *)

(** A connector pass of [ip.js] never throws, and it publishes or it
    leaves the store alone: either it ends in the retry menu with the gist
    as before, or it returns with the gist holding the document read (the
    empty one if there was no gist or its content did not parse) in which
    the identifier has the observed address. *)
Theorem connectorMode_all_or_nothing (FW : Type)
    (outage : Ip.Request -> option string) (ip : Address) (domain : Identifier)
    (w : Ip.World FW) :
  let read := match Ip.gist w with Some text => Ip.read_doc text | None => [] end in
  let r := Ip.connectorMode FW outage ip domain w in
  (fst r = inr Ip.RetryMenu /\ Ip.gist (snd r) = Ip.gist w)
  \/ (fst r = inr Ip.Undefined
      /\ exists d,
           Ip.gist (snd r) = Some (JSONText d)
           /\ forall k, prop d k = if String.eqb k domain then Some ip else prop read k).
Proof.
  destruct w as [s f g tr].
  unfold Ip.connectorMode, Ip.getDeviceIp, Ip.getAllGists, Ip.getGistContent,
    Ip.updateGist, Ip.createGist, try_catch, bind, Ip.request, Ip.read_gist,
    Ip.store_gist, lift, throw, Ip.console_log, Ip.emit, ret.
  cbn [Ip.firewall Ip.state_file Ip.gist Ip.trace].
  destruct (outage Ip.GetDeviceIp); [left; now split|].
  destruct (outage Ip.GetGists); [left; now split|].
  destruct g as [text|].
  - destruct (outage Ip.GetRaw); [left; now split|].
    destruct text as [| |d]; cbn;
      match goal with
      | |- context [outage ?q] => destruct (outage q)
      end; cbn; try (left; now split);
      right; (split; [reflexivity|]); eexists; (split; [reflexivity|]);
      intros k; first [apply prop_set_prop | cbn; now rewrite String.eqb_sym].
  - cbn.
    match goal with
    | |- context [outage ?q] => destruct (outage q)
    end; cbn; [left; now split|].
    right. split; [reflexivity|]. eexists. split; [reflexivity|].
    intros k. cbn. now rewrite String.eqb_sym.
Qed.

(** ** tui.js *)

Section UpdateIP.

Variable FW : Type.
Variable ip : Address.
Variable config : Tui.Config.

(** The in-flight flag.  A pass started while the flag is up does nothing
    at all; every other pass, however it ends, leaves the flag down. *)
Theorem updateIP_guard (outage : Tui.Request -> option string) (w : Tui.World FW) :
  (Tui.isUpdating w = true -> Tui.updateIP FW outage ip config w = (inr tt, w))
  /\ (Tui.isUpdating w = false ->
      Tui.isUpdating (snd (Tui.updateIP FW outage ip config w)) = false).
Proof.
  destruct w as [s g last updating tr].
  unfold Tui.updateIP, Tui.try_finally, try_catch, bind, Tui.request,
    Tui.get_isUpdating, Tui.get_lastIP, Tui.read_gist, Tui.set_isUpdating,
    Tui.set_lastIP, Tui.store_gist, lift, throw, Tui.term, Tui.emit, ret.
  cbn [Tui.firewall Tui.gist Tui.lastIP Tui.isUpdating Tui.trace].
  split; intros ->; [reflexivity|].
  destruct (outage Tui.GetDeviceIp); cbn; [reflexivity|].
  destruct (String.eqb ip last); cbn; [reflexivity|].
  destruct (outage Tui.GistsGet); cbn; [reflexivity|].
  destruct (JSON_parse (Tui.or_braces g)); cbn; [reflexivity|].
  match goal with
  | |- context [outage (Tui.GistsUpdate ?d)] => destruct (outage (Tui.GistsUpdate d))
  end; cbn; [reflexivity|].
  now destruct (outage Tui.SaveConfig).
Qed.

(** [lastIP] is set before the gist is updated.  Once the address service
    has answered, the pass leaves the observed address in [lastIP] whether
    or not it reached the gist; if the update did not go through the gist
    is as before, and no later pass that observes the same address sends an
    update. *)
Theorem unpublished_address_is_not_retried
    (outage1 outage2 : Tui.Request -> option string)
    (s0 : FW) (content : Text) (last : Address) :
  outage1 Tui.GetDeviceIp = None ->
  let w1 := snd (Tui.updateIP FW outage1 ip config
                   (Tui.mkWorld s0 content last false [])) in
  Tui.lastIP w1 = ip
  /\ Tui.isUpdating w1 = false
  /\ ((forall written, outage1 (Tui.GistsUpdate written) <> None) ->
      Tui.gist w1 = content)
  /\ forall written,
       ~ In (Tui.Http (Tui.GistsUpdate written))
           (Tui.trace (snd (Tui.updateIP FW outage2 ip config
                              (Tui.mkWorld (Tui.firewall w1) (Tui.gist w1)
                                 (Tui.lastIP w1) (Tui.isUpdating w1) [])))).
Proof.
  intros Hup w1.
  assert (H1 : Tui.lastIP w1 = ip /\ Tui.isUpdating w1 = false
               /\ ((forall written, outage1 (Tui.GistsUpdate written) <> None) ->
                   Tui.gist w1 = content)).
  { subst w1.
    unfold Tui.updateIP, Tui.try_finally, try_catch, bind, Tui.request,
      Tui.get_isUpdating, Tui.get_lastIP, Tui.read_gist, Tui.set_isUpdating,
      Tui.set_lastIP, Tui.store_gist, lift, throw, Tui.term, Tui.emit, ret.
    cbn [Tui.firewall Tui.gist Tui.lastIP Tui.isUpdating Tui.trace].
    rewrite Hup. cbn.
    destruct (String.eqb_spec ip last) as [Heq|Hne]; cbn; [now subst|].
    destruct (outage1 Tui.GistsGet); cbn; [easy|].
    destruct (JSON_parse (Tui.or_braces content)) as [e|cur]; cbn; [easy|].
    match goal with
    | |- context [outage1 (Tui.GistsUpdate ?d)] =>
        destruct (outage1 (Tui.GistsUpdate d)) eqn:Hwr
    end; cbn; [easy|].
    destruct (outage1 Tui.SaveConfig); cbn;
      (split; [reflexivity|]); (split; [reflexivity|]);
      intros Hfail; now apply Hfail in Hwr. }
  destruct H1 as (Hlast & Hflag & Hgist).
  split; [exact Hlast|]. split; [exact Hflag|]. split; [exact Hgist|].
  intros written Hin. rewrite Hlast in Hin.
  apply ConnectorFacts.updateIP_requests in Hin.
  destruct Hin as [H|[H|[H|(cur & _ & Hne & _)]]]; try discriminate.
  now apply Hne.
Qed.

End UpdateIP.

(** The update of the gist fails in the first pass; the second pass reaches
    everything and still sends no update. *)
Lemma unpublished_address_witness :
  let outage1 := fun q => match q with
                          | Tui.GistsUpdate _ => Some "Bad credentials"
                          | _ => None
                          end in
  let w1 := snd (Tui.updateIP Rules outage1 "9.9.9.9" (Tui.mkConfig "laptop" 22)
                   (Tui.mkWorld [] (JSONText []) "" false [])) in
  outage1 Tui.GetDeviceIp = None
  /\ Tui.lastIP w1 = "9.9.9.9"
  /\ Tui.gist w1 = JSONText []
  /\ Tui.trace (snd (Tui.updateIP Rules (fun _ => None) "9.9.9.9"
                       (Tui.mkConfig "laptop" 22)
                       (Tui.mkWorld (Tui.firewall w1) (Tui.gist w1) (Tui.lastIP w1)
                          (Tui.isUpdating w1) []))) =
       [Tui.Term Tui.Checking; Tui.Http Tui.GetDeviceIp;
        Tui.Term (Tui.Unchanged "9.9.9.9")].
Proof.
  intros outage1 w1.
  destruct (unpublished_address_is_not_retried Rules "9.9.9.9"
              (Tui.mkConfig "laptop" 22) outage1 (fun _ => None) [] (JSONText []) ""
              eq_refl) as (Hlast & _ & Hgist & _).
  split; [reflexivity|]. split; [exact Hlast|].
  split; [apply Hgist; intros written; discriminate|reflexivity].
Defined.

(** Content that does not parse.  [connectorMode] of [ip.js] reads it as
    the empty document and, when its requests go through, replaces it by a
    document that holds the publisher alone; [updateIP] of [tui.js] throws
    the parse error again and leaves the gist as it is. *)
Theorem unparseable_store_content (FW : Type) (ip : Address) :
  (forall domain (s0 : FW) f garbage,
      (exists e, JSON_parse garbage = inl e) ->
      Ip.gist (snd (Ip.connector_pass FW ip domain s0 f (Some garbage))) =
        Some (JSONText [(domain, ip)]))
  /\ (forall outage config (s0 : FW) content last e,
        JSON_parse (Tui.or_braces content) = inl e ->
        outage Tui.GetDeviceIp = None -> outage Tui.GistsGet = None ->
        ip <> last ->
        Tui.updateIP FW outage ip config (Tui.mkWorld s0 content last false []) =
          (inl e,
           Tui.mkWorld s0 content ip false
             [Tui.Term Tui.Checking; Tui.Http Tui.GetDeviceIp;
              Tui.Term (Tui.Changed ip); Tui.Http Tui.GistsGet;
              Tui.Term (Tui.ErrorLine (message e))])).
Proof.
  split.
  - intros domain s0 f garbage [e He].
    destruct garbage; [reflexivity|reflexivity|discriminate].
  - intros outage config s0 content last e He Hip Hget Hne.
    unfold Tui.updateIP, Tui.try_finally, try_catch, bind, Tui.request,
      Tui.get_isUpdating, Tui.get_lastIP, Tui.read_gist, Tui.set_isUpdating,
      Tui.set_lastIP, Tui.store_gist, lift, throw, Tui.term, Tui.emit, ret.
    cbn [Tui.firewall Tui.gist Tui.lastIP Tui.isUpdating Tui.trace].
    rewrite Hip. cbn. apply String.eqb_neq in Hne. rewrite Hne. cbn.
    rewrite Hget. cbn. rewrite He. reflexivity.
Qed.

End ConnectorMore.

(* ================================================================== *)
(** * ip.js: the shell around the passes *)
(* ================================================================== *)

Module CliFacts.
Import JS Ufw.

Lemma add_log_add_log {FW} (w : Cli.World FW) (l1 l2 : list Cli.Event) :
  Cli.add_log (Cli.add_log w l1) l2 = Cli.add_log w (l1 ++ l2).
Proof. unfold Cli.add_log; cbn. now rewrite app_assoc. Qed.

Lemma add_log_nil {FW} (w : Cli.World FW) : Cli.add_log w [] = w.
Proof. destruct w; unfold Cli.add_log; cbn. now rewrite app_nil_r. Qed.

Lemma asked_app (l1 l2 : list Cli.Event) :
  Cli.asked (l1 ++ l2) = Cli.asked l1 ++ Cli.asked l2.
Proof. unfold Cli.asked. now rewrite flat_map_app. Qed.

Lemma checking_idle (l : list Cli.Event) :
  forallb Cli.checking l = true -> forallb Cli.idle l = true.
Proof.
  induction l as [|e l IH]; cbn; [easy|].
  intros [He Hl]%andb_true_iff. rewrite IH by exact Hl.
  destruct e; try discriminate He; reflexivity.
Qed.

Lemma checking_asked (l : list Cli.Event) :
  forallb Cli.checking l = true -> Cli.asked l = [].
Proof.
  unfold Cli.asked. induction l as [|e l IH]; cbn; [easy|].
  intros [He Hl]%andb_true_iff. rewrite IH by exact Hl.
  destruct e; try discriminate He; reflexivity.
Qed.

Section Checks.

Variable FW : Type.
Variable platform : Cli.Platform.
Variable sys : Cli.SysCmd -> Exit.

Local Abbreviation ready := (Cli.ready platform sys).
Local Abbreviation World := (Cli.World FW).

(** One check: what it reports, and that it only runs commands and prints. *)
Lemma check_service_spec (service : Cli.Service) (st : Cli.StatusMap) (g : bool)
    (w : World) :
  exists l,
    snd (Cli.check_service FW platform sys (st, g) service w) = Cli.add_log w l
    /\ forallb Cli.checking l = true
    /\ match fst (Cli.check_service FW platform sys (st, g) service w) with
       | inr (st', g') =>
           g' = g && ready service
           /\ exists ss, st' = st ++ [(service, ss)]
                         /\ Cli.installed ss = ready service
                            || match service, platform with
                               | Cli.ssh, Cli.other_platform =>
                                   Cli.succeeds (sys Cli.systemctl_status_ssh)
                               | Cli.ufw, Cli.other_platform =>
                                   Cli.succeeds (sys Cli.which_ufw)
                                   && Cli.succeeds (sys Cli.sudo_ufw_status)
                               | _, _ => false
                               end
       | inl _ =>
           platform = Cli.other_platform /\ service = Cli.bun
           /\ ready Cli.bun = false
       end.
Proof.
  unfold Cli.check_service, Cli.getServiceStatus, Cli.checkBun, Cli.checkSSH,
    Cli.checkUFW, Cli.system, Cli.say, Cli.emit, Cli.ready, Cli.succeeds,
    Cli.prints, try_catch, bind, ret, lift.
  destruct service, platform; cbn;
    repeat match goal with
      | |- context [sys ?c] => destruct (sys c) eqn:?; cbn
      | |- context [Cli.includes ?s ?t] => destruct (Cli.includes s t) eqn:?; cbn
      end;
    eexists; (split; [unfold Cli.add_log; cbn; rewrite <- ?app_assoc; reflexivity|]);
    (split; [reflexivity|]);
    rewrite ?andb_true_r, ?andb_false_r; repeat split; eauto.
Qed.

Lemma check_services_spec (services : list Cli.Service) :
  forall (st : Cli.StatusMap) (g : bool) (w : World),
  exists l,
    snd (Cli.check_services FW platform sys services (st, g) w) = Cli.add_log w l
    /\ forallb Cli.checking l = true
    /\ match fst (Cli.check_services FW platform sys services (st, g) w) with
       | inr (_, g') => g' = g && forallb ready services
       | inl _ =>
           platform = Cli.other_platform /\ In Cli.bun services
           /\ ready Cli.bun = false
       end.
Proof.
  induction services as [|service rest IH]; intros st g w.
  - exists []. cbn. rewrite add_log_nil, andb_true_r. auto.
  - destruct (check_service_spec service st g w) as (l1 & Hw & Hl1 & Hr).
    cbn [Cli.check_services]. unfold bind.
    destruct (Cli.check_service FW platform sys (st, g) service w)
      as [[e|[st' g']] w1]; cbn [fst snd] in *; subst w1.
    + exists l1. destruct Hr as (Hp & -> & Hb). cbn. auto 6.
    + destruct Hr as (-> & _).
      destruct (IH st' (g && ready service) (Cli.add_log w l1))
        as (l2 & Hw2 & Hl2 & Hr2).
      exists (l1 ++ l2). rewrite Hw2, add_log_add_log, forallb_app, Hl1, Hl2.
      split; [reflexivity|]. split; [reflexivity|].
      destruct (fst (Cli.check_services FW platform sys rest _ _))
        as [e|[st'' g'']].
      * destruct Hr2 as (Hp & Hi & Hb). cbn. auto.
      * cbn [forallb]. now rewrite andb_assoc.
Qed.

(** The check of a mode: it runs commands and prints, and finds all good
    exactly when every service of the mode is ready.  It throws only where
    the install hint of [bun] is looked up. *)
Lemma checkAndDisplayStatus_spec (mode : Cli.Requirements) (w : World) :
  exists l,
    snd (Cli.checkAndDisplayStatus FW platform sys mode w) = Cli.add_log w l
    /\ forallb Cli.checking l = true
    /\ match fst (Cli.checkAndDisplayStatus FW platform sys mode w) with
       | inr (_, g) => g = forallb ready (Cli.SystemRequirements mode)
       | inl _ =>
           platform = Cli.other_platform /\ mode = Cli.ALL
           /\ ready Cli.bun = false
       end.
Proof.
  unfold Cli.checkAndDisplayStatus, Cli.say, Cli.emit, bind, ret.
  destruct (check_services_spec (Cli.SystemRequirements mode) [] true
              (Cli.add_log w [Cli.Say Cli.CheckHeader])) as (l & Hw & Hl & Hr).
  change (Cli.mkWorld (Cli.firewall w) (Cli.state_file w) (Cli.gist w)
            (Cli.config_file w) (Cli.lastCredentials w) (Cli.lastDomain w)
            (Cli.answers w) (Cli.log w ++ [Cli.Say Cli.CheckHeader]))
    with (Cli.add_log w [Cli.Say Cli.CheckHeader]).
  destruct (Cli.check_services FW platform sys _ _ _) as [[e|[st g]] w1];
    cbn [fst snd] in *; subst w1; rewrite add_log_add_log.
  - eexists. split; [reflexivity|]. split; [exact Hl|].
    destruct Hr as (Hp & Hi & Hb). repeat split; auto.
    destruct mode; cbn in Hi; intuition discriminate.
  - exists (Cli.Say Cli.CheckHeader :: l ++ [Cli.Say Cli.EmptyLine]).
    split; [|split].
    + unfold Cli.add_log; cbn. now rewrite <- !app_assoc.
    + cbn. now rewrite forallb_app, Hl.
    + exact Hr.
Qed.

End Checks.

(** ** Frames: what a computation leaves as it is *)

Section Frame.

Context {W : Type} (R : W -> W -> Prop).
Hypothesis R_refl : forall w, R w w.
Hypothesis R_trans : forall a b c, R a b -> R b c -> R a c.

Local Abbreviation framed := (Cli.framed R).

Lemma framed_ret {A} (a : A) : framed (ret a).
Proof. intros w. apply R_refl. Qed.

Lemma framed_throw {A} (e : Exn) : Cli.framed R (@throw W A e).
Proof. intros w. apply R_refl. Qed.

Lemma framed_lift {A} (r : Exn + A) : Cli.framed R (@lift W A r).
Proof. intros w. unfold lift. destruct r; apply R_refl. Qed.

Lemma framed_bind {A B} (m : M W A) (k : A -> M W B) :
  framed m -> (forall a, framed (k a)) -> framed (bind m k).
Proof.
  intros Hm Hk w. unfold bind. specialize (Hm w).
  destruct (m w) as [[e|a] w1]; cbn in *; [exact Hm|].
  eapply R_trans; [exact Hm|apply Hk].
Qed.

Lemma framed_try_catch {A} (m : M W A) (h : Exn -> M W A) :
  framed m -> (forall e, framed (h e)) -> framed (try_catch m h).
Proof.
  intros Hm Hh w. unfold try_catch. specialize (Hm w).
  destruct (m w) as [[e|a] w1]; cbn in *; [|exact Hm].
  eapply R_trans; [exact Hm|apply Hh].
Qed.

End Frame.

Section Shell.

Variable FW : Type.
Variable sh : Cmd -> FW -> Exit * FW.
Variable outage : Ip.Request -> option string.
Variable device_ip : Address.
Variable platform : Cli.Platform.
Variable sys : Cli.SysCmd -> Exit.
Variable authenticates : string -> bool.
Variable config_writable : bool.
Variable port_entered : N.

Local Abbreviation World := (Cli.World FW).
Local Abbreviation ready := (Cli.ready platform sys).
Local Abbreviation check := (Cli.checkAndDisplayStatus FW platform sys).
Local Abbreviation connectorMode :=
  (Cli.connectorMode FW outage device_ip platform sys authenticates
     config_writable).
Local Abbreviation serverMode :=
  (Cli.serverMode FW sh outage platform sys authenticates port_entered).
Local Abbreviation retryMenu := (Cli.retryMenu FW platform sys).
Local Abbreviation retryMenu_turns := (Cli.retryMenu_turns FW platform sys).
Local Abbreviation mainMenu := (Cli.mainMenu FW platform sys).
Local Abbreviation main_turn :=
  (Cli.main_turn FW sh outage device_ip platform sys authenticates
     config_writable port_entered).
Local Abbreviation main_loop :=
  (Cli.main_loop FW sh outage device_ip platform sys authenticates
     config_writable port_entered).
Local Abbreviation main :=
  (Cli.main FW sh outage device_ip platform sys authenticates
     config_writable port_entered).

Lemma bind_emit {B} (e : Cli.Event) (k : unit -> M World B) (w : World) :
  bind (Cli.emit FW e) k w = k tt (Cli.add_log w [e]).
Proof. reflexivity. Qed.

Lemma bind_say {B} (l : Cli.Line) (k : unit -> M World B) (w : World) :
  bind (Cli.say FW l) k w = k tt (Cli.add_log w [Cli.Say l]).
Proof. reflexivity. Qed.

(** The check inside a mode: either it throws, or the mode goes on with
    what it found. *)
Lemma bind_check {B} (mode : Cli.Requirements)
    (k : Cli.StatusMap * bool -> M World B) (w : World) :
  exists l, forallb Cli.checking l = true
    /\ ((exists e, bind (check mode) k w = (inl e, Cli.add_log w l)
                   /\ platform = Cli.other_platform /\ mode = Cli.ALL
                   /\ ready Cli.bun = false)
        \/ (exists st, bind (check mode) k w
                       = k (st, forallb ready (Cli.SystemRequirements mode))
                           (Cli.add_log w l))).
Proof using Type.
  destruct (checkAndDisplayStatus_spec FW platform sys mode w)
    as (l & Hw & Hl & Hr).
  exists l. split; [exact Hl|]. unfold bind.
  destruct (check mode w) as [[e|[st g]] w1]; cbn [fst snd] in *; subst w1.
  - left. exists e. destruct Hr as (Hp & Hm & Hb). repeat split; assumption.
  - right. exists st. subst g. reflexivity.
Qed.

Ltac shell_step :=
  first [rewrite bind_emit | rewrite bind_say]; cbv beta.

(** A mode after a check that found a service missing or inactive. *)
Lemma after_failed_check (w : World) (l : list Cli.Event) :
  forallb Cli.idle l = true ->
  Cli.only_screen w
    (snd (bind (Cli.say FW Cli.PleaseInstall)
            (fun _ => bind (Cli.prompt FW Cli.AskAcknowledge)
                        (fun _ => ret (@None Cli.Action)))
            (Cli.add_log w l))).
Proof using Type.
  intros Hl. cbn. repeat (split; [reflexivity|]).
  eexists. rewrite <- !app_assoc. split; [reflexivity|].
  rewrite forallb_app, Hl. reflexivity.
Qed.

(** Server mode does not get past its check when Secure Shell or the
    firewall is missing or inactive: it prints, waits for the
    acknowledgement and returns, and nothing was asked for, sent, run on
    the firewall or written. *)
Theorem server_mode_needs_its_services (w : World) :
  forallb ready (Cli.SystemRequirements Cli.SERVER) = false ->
  fst (serverMode w) = inr None
  /\ Cli.only_screen w (snd (serverMode w)).
Proof using Type.
  intros Hready. unfold Cli.serverMode. do 2 shell_step.
  rewrite add_log_add_log.
  match goal with
  | |- context [bind (check Cli.SERVER) ?k ?w1] =>
      destruct (bind_check Cli.SERVER k w1) as (l & Hl & [(e & _ & _ & Hm & _)|(st & ->)])
  end; [discriminate Hm|].
  rewrite Hready. cbn [negb snd]. rewrite add_log_add_log.
  split; [reflexivity|]. apply after_failed_check.
  cbn. rewrite (checking_idle _ Hl). reflexivity.
Qed.

(** The same for connector mode and Secure Shell. *)
Theorem connector_mode_needs_its_services (useLastSettings : bool) (w : World) :
  forallb ready (Cli.SystemRequirements Cli.CONNECTOR) = false ->
  fst (connectorMode useLastSettings w) = inr None
  /\ Cli.only_screen w (snd (connectorMode useLastSettings w)).
Proof.
  intros Hready. unfold Cli.connectorMode. do 2 shell_step.
  rewrite add_log_add_log.
  match goal with
  | |- context [bind (check Cli.CONNECTOR) ?k ?w1] =>
      destruct (bind_check Cli.CONNECTOR k w1) as (l & Hl & [(e & _ & _ & Hm & _)|(st & ->)])
  end; [discriminate Hm|].
  rewrite Hready. cbn [negb snd]. rewrite add_log_add_log.
  split; [reflexivity|]. apply after_failed_check.
  cbn. rewrite (checking_idle _ Hl). reflexivity.
Qed.

Lemma bind_prompt {B} (p : Cli.Prompt) (k : Cli.Answer -> M World B) (w : World) :
  bind (Cli.prompt FW p) k w = k (Cli.answer w) (Cli.answered w p).
Proof. reflexivity. Qed.

Lemma bind_throws {A B} (m : M World A) (k : A -> M World B) (w w1 : World)
    (e : Exn) :
  m w = (inl e, w1) -> bind m k w = (inl e, w1).
Proof. intros H. unfold bind. now rewrite H. Qed.

Lemma bind_returns {A B} (m : M World A) (k : A -> M World B) (w w1 : World)
    (a : A) :
  m w = (inr a, w1) -> bind m k w = k a w1.
Proof. intros H. unfold bind. now rewrite H. Qed.

Lemma check_world (mode : Cli.Requirements) (w : World) :
  exists l, snd (check mode w) = Cli.add_log w l
            /\ forallb Cli.checking l = true.
Proof.
  destruct (checkAndDisplayStatus_spec FW platform sys mode w)
    as (l & Hw & Hl & _). eauto.
Qed.

Lemma check_answers (mode : Cli.Requirements) (w : World) :
  Cli.answers (snd (check mode w)) = Cli.answers w.
Proof. destruct (check_world mode w) as (l & -> & _). reflexivity. Qed.

(** ** When [bun -v] fails *)

Lemma check_all_throws (w : World) :
  platform = Cli.other_platform -> ready Cli.bun = false ->
  exists e l, check Cli.ALL w = (inl e, Cli.add_log w l)
              /\ forallb Cli.checking l = true.
Proof.
  intros Hp Hb. unfold Cli.ready, Cli.succeeds in Hb.
  unfold Cli.checkAndDisplayStatus, Cli.check_services, Cli.check_service,
    Cli.getServiceStatus, Cli.checkBun, Cli.system, Cli.getInstallCommand,
    Cli.say, Cli.emit, try_catch, bind, ret, lift.
  rewrite Hp. cbn. destruct (sys Cli.bun_v); [discriminate Hb|]. cbn.
  do 2 eexists. split; [|shelve].
  unfold Cli.add_log. cbn. rewrite <- ?app_assoc. reflexivity.
  Unshelve. reflexivity.
Qed.

(** On another platform than Windows, a failing [bun -v] ends the program
    with an exception before the main menu asks anything: the install hint
    for [bun] is looked up in a table that has no entry for it. *)
Theorem missing_bun_ends_the_program (w : World) (turns : nat) :
  platform = Cli.other_platform -> ready Cli.bun = false ->
  (exists e, fst (mainMenu w) = inl e)
  /\ Cli.asked (Cli.log (snd (mainMenu w))) = Cli.asked (Cli.log w)
  /\ exists e, fst (main (S turns) w) = inl e.
Proof.
  intros Hp Hb.
  assert (Hmenu : forall v : World,
             exists e l, mainMenu v = (inl e, Cli.add_log v l)
                         /\ Cli.asked l = []).
  { intros v. unfold Cli.mainMenu. do 2 shell_step. rewrite add_log_add_log.
    destruct (check_all_throws (Cli.add_log v [Cli.Clear; Cli.Say Cli.MenuHeader])
                Hp Hb) as (e & l & Hc & Hl).
    cbn [app] in *. erewrite bind_throws by exact Hc.
    rewrite add_log_add_log. do 2 eexists. split; [reflexivity|].
    cbn. now apply checking_asked. }
  destruct (Hmenu w) as (e & l & Hm & Hl). rewrite Hm. cbn [fst snd Cli.add_log Cli.log].
  split; [eauto|]. split; [now rewrite asked_app, Hl, app_nil_r|].
  unfold Cli.main. unfold bind at 1.
  destruct (Cli.loadConfig FW w) as [[e0|[]] w0] eqn:Hload.
  - unfold Cli.loadConfig, Cli.say, Cli.emit in Hload.
    destruct (Cli.config_file w); discriminate Hload.
  - destruct (Hmenu w0) as (e1 & l1 & Hm1 & _).
    cbn [Cli.main_loop]. unfold Cli.main_turn.
    exists e1. erewrite bind_throws; [reflexivity|].
    apply bind_throws. exact Hm1.
Qed.

(** ** The retry menu *)

Lemma retryMenu_turns_enough (n : nat) :
  forall (m : nat) (w : World),
  length (Cli.answers w) < n -> length (Cli.answers w) < m ->
  retryMenu_turns n w = retryMenu_turns m w.
Proof.
  induction n as [|n IH]; intros m w Hn Hm; [lia|].
  destruct m as [|m]; [lia|].
  cbn [Cli.retryMenu_turns]. rewrite !bind_prompt.
  unfold Cli.answer. destruct (Cli.answers w) as [|a rest] eqn:Ha; [reflexivity|].
  destruct a as [| | | | |[]]; try reflexivity.
  cbn [Cli.chosen_action]. unfold bind.
  pose proof (check_answers Cli.ALL (Cli.answered w Cli.AskAction)) as Hc.
  destruct (check Cli.ALL (Cli.answered w Cli.AskAction)) as [[e|r] w1];
    [reflexivity|].
  cbn [snd Cli.answered Cli.answers] in Hc. rewrite Ha in Hc. cbn in Hc, Hn, Hm.
  apply IH; rewrite Hc; lia.
Qed.

Lemma retryMenu_turns_never_status (n : nat) :
  forall w : World, fst (retryMenu_turns n w) <> inr (Some Cli.status_check).
Proof.
  induction n as [|n IH]; intros w; [discriminate|].
  cbn [Cli.retryMenu_turns]. rewrite bind_prompt.
  destruct (Cli.answer w) as [| | | | |[]]; try discriminate.
  cbn [Cli.chosen_action]. unfold bind.
  destruct (check Cli.ALL (Cli.answered w Cli.AskAction)) as [[e|r] w1];
    [discriminate|apply IH].
Qed.

(** The retry menu comes back after a status check, so its caller never
    sees that choice; and it takes no more turns than there are answers:
    allowing more changes nothing. *)
Theorem retry_menu_settles (w : World) (turns : nat) :
  length (Cli.answers w) < turns ->
  retryMenu_turns turns w = retryMenu w
  /\ fst (retryMenu w) <> inr (Some Cli.status_check).
Proof.
  intros Hn. split.
  - unfold Cli.retryMenu. apply retryMenu_turns_enough; [exact Hn|lia].
  - apply retryMenu_turns_never_status.
Qed.

(** The retry menu when the next question is left without an answer. *)
Lemma retryMenu_cancelled (w : World) :
  Cli.answer w = Cli.Cancelled ->
  retryMenu w = (inr None, Cli.answered w Cli.AskAction).
Proof.
  intros Ha. unfold Cli.retryMenu. cbn [Cli.retryMenu_turns].
  rewrite bind_prompt, Ha. reflexivity.
Qed.

(** The retry menu when the answer is a choice other than the status
    check. *)
Lemma retryMenu_chosen (w : World) (a : Cli.Action) (rest : list Cli.Answer) :
  Cli.answers w = Cli.Did a :: rest -> a <> Cli.status_check ->
  retryMenu w = (inr (Some a), Cli.answered w Cli.AskAction).
Proof.
  intros Ha Hs. unfold Cli.retryMenu. cbn [Cli.retryMenu_turns].
  rewrite bind_prompt. unfold Cli.answer. rewrite Ha. cbn [Cli.chosen_action].
  destruct a; try reflexivity. contradiction.
Qed.

(** ** A rejected token *)

Lemma inner_app (l1 l2 : list Cli.Event) :
  Cli.inner (l1 ++ l2) = Cli.inner l1 ++ Cli.inner l2.
Proof. unfold Cli.inner. now rewrite flat_map_app. Qed.

Lemma checking_inner (l : list Cli.Event) :
  forallb Cli.checking l = true -> Cli.inner l = [].
Proof.
  unfold Cli.inner. induction l as [|e l IH]; cbn; [easy|].
  intros [He Hl]%andb_true_iff. rewrite IH by exact Hl.
  destruct e; try discriminate He; reflexivity.
Qed.

Lemma idle_inner (l : list Cli.Event) :
  forallb Cli.idle l = true -> Cli.inner l = [].
Proof.
  unfold Cli.inner. induction l as [|e l IH]; cbn; [easy|].
  intros [He Hl]%andb_true_iff. rewrite IH by exact Hl.
  destruct e; try discriminate He; reflexivity.
Qed.

Lemma ready_server :
  forallb ready (Cli.SystemRequirements Cli.SERVER) = true ->
  forallb ready (Cli.SystemRequirements Cli.CONNECTOR) = true.
Proof. cbn. now intros [-> _]%andb_true_iff. Qed.

(** What a rejected token leaves behind. *)
Lemma rejected_token_outcome (w : World) (token : string)
    (rest : list Cli.Answer) :
  forallb ready (Cli.SystemRequirements Cli.SERVER) = true ->
  Cli.answers w = Cli.Typed token :: rest ->
  token <> ""%string ->
  authenticates token = false ->
  (fst (connectorMode false w) = inr None
   /\ Cli.lastCredentials (snd (connectorMode false w)) = None
   /\ Cli.inner (Cli.log (snd (connectorMode false w))) = Cli.inner (Cli.log w))
  /\ (fst (serverMode w) = inr None
      /\ Cli.lastCredentials (snd (serverMode w)) = Some (Some token)
      /\ Cli.inner (Cli.log (snd (serverMode w))) = Cli.inner (Cli.log w)).
Proof.
  intros Hs Ha Ht Hv. pose proof (ready_server Hs) as Hc. split.
  - unfold Cli.connectorMode. do 2 shell_step. rewrite add_log_add_log.
    match goal with
    | |- context [bind (check Cli.CONNECTOR) ?k ?w1] =>
        destruct (bind_check Cli.CONNECTOR k w1)
          as (l & Hl & [(e & _ & _ & Hm & _)|(st & ->)])
    end; [discriminate Hm|].
    rewrite Hc, add_log_add_log. destruct w as [fw sf g cf lc ld an lg].
    cbn in Ha. subst an. destruct token as [|c token]; [contradiction|].
    pose proof (checking_inner _ Hl) as Hi. unfold Cli.inner in *.
    cbn. rewrite Hv. cbn. repeat split.
    rewrite !flat_map_app. cbn. now rewrite Hi, !app_nil_r.
  - unfold Cli.serverMode. do 2 shell_step. rewrite add_log_add_log.
    match goal with
    | |- context [bind (check Cli.SERVER) ?k ?w1] =>
        destruct (bind_check Cli.SERVER k w1)
          as (l & Hl & [(e & _ & _ & Hm & _)|(st & ->)])
    end; [discriminate Hm|].
    rewrite Hs, add_log_add_log. destruct w as [fw sf g cf lc ld an lg].
    cbn in Ha. subst an. destruct token as [|c token]; [contradiction|].
    pose proof (checking_inner _ Hl) as Hi. unfold Cli.inner in *.
    cbn. rewrite Hv. cbn. repeat split.
    rewrite !flat_map_app. cbn. now rewrite Hi, !app_nil_r.
Qed.

(** A token that GitHub rejects ends either mode before anything is sent
    to the store.  Connector mode then forgets it, and the main menu does
    not offer [Refresh]; server mode keeps it as the last credentials, and
    the main menu offers [Refresh] with it. *)
Theorem rejected_token_is_kept_by_server_mode (w : World) (token : string)
    (rest : list Cli.Answer) :
  forallb ready (Cli.SystemRequirements Cli.SERVER) = true ->
  Cli.answers w = Cli.Typed token :: rest ->
  token <> ""%string ->
  authenticates token = false ->
  (fst (connectorMode false w) = inr None
   /\ Cli.lastCredentials (snd (connectorMode false w)) = None
   /\ Cli.inner (Cli.log (snd (connectorMode false w))) = Cli.inner (Cli.log w)
   /\ forall st,
        ~ In Cli.refresh
            (map fst (Cli.menu_choices st
                        (Cli.lastCredentials (snd (connectorMode false w))))))
  /\ (fst (serverMode w) = inr None
      /\ Cli.lastCredentials (snd (serverMode w)) = Some (Some token)
      /\ Cli.inner (Cli.log (snd (serverMode w))) = Cli.inner (Cli.log w)
      /\ forall st,
           In Cli.refresh
             (map fst (Cli.menu_choices st
                         (Cli.lastCredentials (snd (serverMode w)))))).
Proof.
  intros Hs Ha Ht Hv.
  destruct (rejected_token_outcome w token rest Hs Ha Ht Hv)
    as ((Hc1 & Hc2 & Hc3) & (Hs1 & Hs2 & Hs3)).
  split; (split; [assumption|]); (split; [assumption|]);
    (split; [assumption|]); intros st.
  - rewrite Hc2. cbn. intros [H|[H|[H|[]]]]; discriminate H.
  - rewrite Hs2. cbn. auto.
Qed.

(** ** Refresh *)

(** Refresh asks for nothing when a token and an identifier are
    remembered and the token is still accepted: after the check and the
    token's validation it saves the two and runs the pass for that
    identifier. *)
Theorem refresh_uses_what_is_remembered (w : World) (token d : string) :
  forallb ready (Cli.SystemRequirements Cli.CONNECTOR) = true ->
  Cli.lastCredentials w = Some (Some token) -> token <> ""%string ->
  authenticates token = true ->
  Cli.lastDomain w = Some d -> d <> ""%string ->
  exists l,
    forallb Cli.idle l = true
    /\ connectorMode true w
       = bind (Cli.saveConfig FW config_writable token d)
           (fun _ =>
              bind (Cli.lift_pass FW (Ip.connectorMode FW outage device_ip d))
                (Cli.after_pass FW platform sys))
           (Cli.add_log w (l ++ [Cli.GetAuthenticated token true])).
Proof.
  intros Hc Hl Ht Hv Hd Hn.
  unfold Cli.connectorMode. do 2 shell_step. rewrite add_log_add_log.
  match goal with
  | |- context [bind (check Cli.CONNECTOR) ?k ?w1] =>
      destruct (bind_check Cli.CONNECTOR k w1)
        as (l & Hk & [(e & _ & _ & Hm & _)|(st & ->)])
  end; [discriminate Hm|].
  rewrite Hc, add_log_add_log.
  exists ([Cli.Clear; Cli.Say Cli.ConnectorHeader] ++ l). split.
  { cbn. now apply checking_idle. }
  destruct w as [fw sf g cf lc ld an lg]. cbn in Hl, Hd. subst lc ld.
  destruct token as [|c token]; [contradiction|].
  destruct d as [|c' d]; [contradiction|].
  cbn [negb snd]. unfold bind at 1. cbn [Cli.getCredentials].
  unfold bind at 1. cbn. rewrite Hv. cbn.
  unfold Cli.add_log. cbn. rewrite <- !app_assoc. reflexivity.
Qed.

(** ** What the modes leave of the configuration *)

Local Abbreviation keeps_settings := (@Cli.keeps_settings FW).

Lemma keeps_settings_refl (w : World) : keeps_settings w w.
Proof. split; reflexivity. Qed.

Lemma keeps_settings_trans (a b c : World) :
  keeps_settings a b -> keeps_settings b c -> keeps_settings a c.
Proof. intros [H1 H2] [H3 H4]. split; congruence. Qed.

Local Abbreviation settled := (Cli.framed keeps_settings).

Lemma settled_bind {A B} (m : M World A) (k : A -> M World B) :
  settled m -> (forall a, settled (k a)) -> settled (bind m k).
Proof. apply framed_bind, keeps_settings_trans. Qed.

Lemma settled_ret {A} (a : A) : settled (@ret World A a).
Proof. apply framed_ret, keeps_settings_refl. Qed.

Lemma settled_emit (e : Cli.Event) : settled (Cli.emit FW e).
Proof. intros w. split; reflexivity. Qed.

Lemma settled_prompt (p : Cli.Prompt) : settled (Cli.prompt FW p).
Proof. intros w. split; reflexivity. Qed.

Lemma settled_check (mode : Cli.Requirements) : settled (check mode).
Proof.
  intros w. destruct (check_world mode w) as (l & -> & _). split; reflexivity.
Qed.

Lemma settled_lift_pass {A} (m : M (Ip.World FW) A) :
  settled (Cli.lift_pass FW m).
Proof.
  intros w. unfold Cli.lift_pass.
  destruct (m _) as [r p]. split; reflexivity.
Qed.

Lemma settled_getCredentials (b : bool) : settled (Cli.getCredentials FW b).
Proof.
  intros w. unfold Cli.getCredentials, Cli.get_lastCredentials, bind.
  destruct b, (Cli.lastCredentials w); split; reflexivity.
Qed.

Lemma settled_validateToken (token : string) :
  settled (Cli.validateToken FW authenticates token).
Proof. intros w. split; reflexivity. Qed.

Lemma settled_retryMenu_turns (n : nat) : settled (retryMenu_turns n).
Proof.
  induction n as [|n IH]; [apply settled_ret|].
  cbn [Cli.retryMenu_turns]. apply settled_bind; [apply settled_prompt|].
  intros a. destruct (Cli.chosen_action a) as [[]|]; try apply settled_ret.
  apply settled_bind; [apply settled_check|]. intros _. exact IH.
Qed.

Lemma settled_retryMenu : settled retryMenu.
Proof. intros w. apply settled_retryMenu_turns. Qed.

Lemma settled_after_pass (r : Ip.Returned) :
  settled (Cli.after_pass FW platform sys r).
Proof. destruct r; [apply settled_ret|apply settled_retryMenu]. Qed.

(** Server mode writes no configuration and keeps the identifier that is
    remembered: the token typed for it stays in memory only. *)
Theorem server_mode_saves_nothing (w : World) :
  Cli.config_file (snd (serverMode w)) = Cli.config_file w
  /\ Cli.lastDomain (snd (serverMode w)) = Cli.lastDomain w.
Proof.
  revert w. change (settled serverMode). unfold Cli.serverMode.
  repeat first
    [ apply settled_emit | apply settled_check | apply settled_prompt
    | apply settled_ret | apply settled_getCredentials
    | apply settled_validateToken | apply settled_lift_pass
    | apply settled_after_pass
    | apply settled_bind; [|intros ?]
    | match goal with
      | |- settled (if ?b then _ else _) => destruct b
      | |- settled (match ?t with None => _ | Some _ => _ end) =>
          destruct t as [[|? ?]|]
      end ].
Qed.

(** Connector mode saves the token and the identifier before the pass:
    they are in the configuration file whether or not the pass then
    succeeds, and the next start finds them there. *)
Theorem settings_are_saved_before_the_pass (w : World) (token d : string)
    (rest : list Cli.Answer) :
  forallb ready (Cli.SystemRequirements Cli.CONNECTOR) = true ->
  Cli.answers w = Cli.Typed token :: Cli.Typed d :: rest ->
  token <> ""%string -> d <> ""%string ->
  authenticates token = true ->
  config_writable = true ->
  Cli.config_file (snd (connectorMode false w))
  = Cli.Saved (Some token) (Some d)
  /\ forall v : World,
       Cli.config_file v = Cli.config_file (snd (connectorMode false w)) ->
       Cli.lastCredentials (snd (Cli.loadConfig FW v)) = Some (Some token)
       /\ Cli.lastDomain (snd (Cli.loadConfig FW v)) = Some d.
Proof.
  intros Hc Ha Ht Hn Hv Hw.
  assert (Hsaved : Cli.config_file (snd (connectorMode false w))
                   = Cli.Saved (Some token) (Some d)).
  { unfold Cli.connectorMode. do 2 shell_step. rewrite add_log_add_log.
    match goal with
    | |- context [bind (check Cli.CONNECTOR) ?k ?w1] =>
        destruct (bind_check Cli.CONNECTOR k w1)
          as (l & Hk & [(e & _ & _ & Hm & _)|(st & ->)])
    end; [discriminate Hm|].
    rewrite Hc, add_log_add_log.
    destruct w as [fw sf g cf lc ld an lg]. cbn in Ha. subst an.
    destruct token as [|c token]; [contradiction|].
    destruct d as [|c' d]; [contradiction|].
    cbn [negb snd]. unfold bind at 1. cbn [Cli.getCredentials].
    unfold bind at 1. cbn. rewrite Hv. cbn.
    unfold bind at 1. unfold Cli.saveConfig at 1. rewrite Hw. cbn.
    match goal with
    | |- Cli.config_file (snd (bind ?m ?k ?w1)) = _ =>
        assert (Hf : settled (bind m k))
          by (apply settled_bind;
              [apply settled_lift_pass|intros r; apply settled_after_pass]);
        destruct (Hf w1) as [-> _]
    end.
    reflexivity. }
  split; [exact Hsaved|].
  intros v Hcf. rewrite Hsaved in Hcf. unfold Cli.loadConfig. rewrite Hcf.
  split; reflexivity.
Qed.

(** ** The main loop *)

(** The main menu: the check throws, or the mode chosen comes back. *)
Lemma mainMenu_spec (w : World) :
  exists l, forallb Cli.checking l = true
    /\ ((exists e, mainMenu w
                   = (inl e, Cli.add_log w (Cli.Clear :: Cli.Say Cli.MenuHeader :: l)))
        \/ (exists st,
              let w1 := Cli.add_log w (Cli.Clear :: Cli.Say Cli.MenuHeader :: l) in
              let choices := Cli.menu_choices st (Cli.lastCredentials w) in
              mainMenu w
              = (inr (Cli.chosen_mode choices (Cli.answer w1)),
                 Cli.answered w1 (Cli.AskMode choices)))).
Proof.
  unfold Cli.mainMenu. do 2 shell_step. rewrite add_log_add_log.
  match goal with
  | |- context [bind (check Cli.ALL) ?k ?w1] =>
      destruct (bind_check Cli.ALL k w1)
        as (l & Hl & [(e & Hm & _)|(st & Hm)])
  end; exists l; (split; [exact Hl|]); setoid_rewrite Hm;
    rewrite add_log_add_log.
  - left. exists e. reflexivity.
  - right. exists st. reflexivity.
Qed.

Lemma answer_cancelled (w : World) :
  Forall (eq Cli.Cancelled) (Cli.answers w) -> Cli.answer w = Cli.Cancelled.
Proof.
  unfold Cli.answer. intros H. destruct (Cli.answers w); [reflexivity|].
  now inversion H.
Qed.

Lemma tl_cancelled (l : list Cli.Answer) :
  Forall (eq Cli.Cancelled) l -> Forall (eq Cli.Cancelled) (tl l).
Proof. intros H. destruct l; [exact H|]. now inversion H. Qed.

Lemma main_turn_cancelled (w : World) :
  Forall (eq Cli.Cancelled) (Cli.answers w) ->
  exists w', Forall (eq Cli.Cancelled) (Cli.answers w')
    /\ (main_turn w = (inr Cli.Continue, w')
        \/ exists e, main_turn w = (inl e, w')).
Proof.
  intros Hw. unfold Cli.main_turn.
  destruct (mainMenu_spec w) as (l & Hl & [(e & Hm)|(st & Hm)]).
  - eexists. split; [|right; exists e; apply bind_throws; exact Hm]. exact Hw.
  - cbv zeta in Hm. erewrite bind_returns by exact Hm.
    rewrite answer_cancelled by exact Hw. cbn [Cli.chosen_mode Cli.run_mode].
    unfold bind at 1. unfold ret at 1. unfold bind at 1.
    rewrite retryMenu_cancelled
      by (apply answer_cancelled; cbn; now apply tl_cancelled).
    eexists. split; [|left; reflexivity].
    cbn. now do 2 apply tl_cancelled.
Qed.

(** Leaving every question without an answer never ends the program: the
    loop goes on, or an exception ends it. *)
Theorem cancelling_never_ends_the_program (w : World) (turns : nat) :
  Forall (eq Cli.Cancelled) (Cli.answers w) ->
  fst (main turns w) <> inr (Some tt).
Proof.
  intros Hw. unfold Cli.main. unfold bind at 1.
  assert (Hload : exists w0, Cli.loadConfig FW w = (inr tt, w0)
                             /\ Cli.answers w0 = Cli.answers w).
  { unfold Cli.loadConfig, Cli.say, Cli.emit.
    destruct (Cli.config_file w); eexists; split; reflexivity. }
  destruct Hload as (w0 & -> & Ha). rewrite <- Ha in Hw. clear Ha w.
  revert w0 Hw. induction turns as [|n IH]; intros w Hw; [discriminate|].
  cbn [Cli.main_loop].
  destruct (main_turn_cancelled w Hw) as (w' & Hw' & [Ht|(e & Ht)]).
  - erewrite bind_returns by exact Ht. now apply IH.
  - erewrite bind_throws by exact Ht. discriminate.
Qed.

(** What is answered at the retry menu that a failed pass shows is not
    acted on, [Exit] included: back in the main loop the menu is shown
    again, and choosing [Main Menu] there goes on with the loop. *)
Theorem answer_after_a_failed_pass_is_dropped (w w1 w2 : World)
    (a1 : option Cli.Action) (rest : list Cli.Answer) :
  mainMenu w = (inr (Some Cli.connector), w1) ->
  connectorMode false w1 = (inr a1, w2) ->
  Cli.answers w2 = Cli.Did Cli.main_menu :: rest ->
  main_turn w = (inr Cli.Continue, Cli.answered w2 Cli.AskAction).
Proof.
  intros Hm Hc Ha. unfold Cli.main_turn.
  erewrite bind_returns by exact Hm. cbn [Cli.run_mode].
  unfold bind at 1. unfold bind at 1. rewrite Hc. unfold ret at 1.
  unfold bind at 1.
  rewrite (retryMenu_chosen w2 _ _ Ha) by discriminate. reflexivity.
Qed.

(** [Retry Current Operation] after a refresh runs nothing. *)
Theorem retry_after_refresh_runs_nothing (w w1 w2 : World)
    (a1 : option Cli.Action) (rest : list Cli.Answer) :
  mainMenu w = (inr (Some Cli.refresh), w1) ->
  connectorMode true w1 = (inr a1, w2) ->
  Cli.answers w2 = Cli.Did Cli.retry :: rest ->
  main_turn w = (inr Cli.Continue, Cli.answered w2 Cli.AskAction).
Proof.
  intros Hm Hc Ha. unfold Cli.main_turn.
  erewrite bind_returns by exact Hm. cbn [Cli.run_mode].
  unfold bind at 1. unfold bind at 1. rewrite Hc. unfold ret at 1.
  unfold bind at 1.
  rewrite (retryMenu_chosen w2 _ _ Ha) by discriminate. reflexivity.
Qed.

End Shell.

(** ** Instances *)

(** On Windows the firewall is never ready, and server mode stops. *)
Lemma server_mode_needs_its_services_witness :
  forallb (Cli.ready Cli.win32 Cli.example_machine)
    (Cli.SystemRequirements Cli.SERVER) = false
  /\ fst (Cli.serverMode unit Cli.example_sh (fun _ => None) Cli.win32
            Cli.example_machine (fun _ => true) 22
            (Cli.example_start [Cli.Typed "token"])) = inr None.
Proof.
  split; [reflexivity|].
  apply (proj1 (server_mode_needs_its_services unit Cli.example_sh
                  (fun _ => None) Cli.win32 Cli.example_machine (fun _ => true)
                  22 (Cli.example_start [Cli.Typed "token"]) eq_refl)).
Defined.

(** Secure Shell installed but stopped. *)
Lemma connector_mode_needs_its_services_witness :
  let stopped := fun c => match c with
                          | Cli.systemctl_status_ssh => Exit0 "Active: inactive (dead)"
                          | c => Cli.example_machine c
                          end in
  forallb (Cli.ready Cli.other_platform stopped)
    (Cli.SystemRequirements Cli.CONNECTOR) = false
  /\ fst (Cli.connectorMode unit (fun _ => None) "9.9.9.9" Cli.other_platform
            stopped (fun _ => true) true false
            (Cli.example_start [Cli.Typed "token"])) = inr None.
Proof.
  intros stopped. split; [reflexivity|].
  apply (proj1 (connector_mode_needs_its_services unit (fun _ => None)
                  "9.9.9.9" Cli.other_platform stopped (fun _ => true) true
                  false (Cli.example_start [Cli.Typed "token"]) eq_refl)).
Defined.

(** [bun -v] fails on a machine that is otherwise ready. *)
Lemma missing_bun_ends_the_program_witness :
  Cli.ready Cli.other_platform Cli.example_machine_without_bun Cli.bun = false
  /\ exists e,
       fst (Cli.main unit Cli.example_sh (fun _ => None) "9.9.9.9"
              Cli.other_platform Cli.example_machine_without_bun
              (fun _ => true) true 22 1
              (Cli.example_start [Cli.Chose Cli.exit_mode])) = inl e.
Proof.
  split; [reflexivity|].
  apply (proj2 (proj2
           (missing_bun_ends_the_program unit Cli.example_sh (fun _ => None)
              "9.9.9.9" Cli.other_platform Cli.example_machine_without_bun
              (fun _ => true) true 22
              (Cli.example_start [Cli.Chose Cli.exit_mode]) 0 eq_refl eq_refl))).
Defined.

(** A status check, then the main menu. *)
Lemma retry_menu_settles_witness :
  let w := Cli.example_start [Cli.Did Cli.status_check; Cli.Did Cli.main_menu] in
  length (Cli.answers w) < 7
  /\ Cli.retryMenu_turns unit Cli.other_platform Cli.example_machine 7 w
     = Cli.retryMenu unit Cli.other_platform Cli.example_machine w
  /\ fst (Cli.retryMenu unit Cli.other_platform Cli.example_machine w)
     = inr (Some Cli.main_menu).
Proof.
  intros w. split; [cbn; lia|]. split; [|reflexivity].
  apply (proj1 (retry_menu_settles unit Cli.other_platform Cli.example_machine
                  w 7 ltac:(cbn; lia))).
Defined.

(** A token that has expired, typed in server mode. *)
Lemma rejected_token_witness :
  let w := Cli.example_start [Cli.Typed "expired"] in
  forallb (Cli.ready Cli.other_platform Cli.example_machine)
    (Cli.SystemRequirements Cli.SERVER) = true
  /\ Cli.lastCredentials
       (snd (Cli.serverMode unit Cli.example_sh (fun _ => None)
               Cli.other_platform Cli.example_machine (fun _ => false) 22 w))
     = Some (Some "expired"%string).
Proof.
  intros w. split; [reflexivity|].
  refine (proj1 (proj2 (proj2
            (rejected_token_is_kept_by_server_mode unit Cli.example_sh
               (fun _ => None) "9.9.9.9" Cli.other_platform Cli.example_machine
               (fun _ => false) true 22 w "expired" [] eq_refl eq_refl _ eq_refl)))).
  discriminate.
Defined.

(** A refresh with a token and an identifier loaded from the configuration. *)
Lemma refresh_witness :
  let w := Cli.mkWorld tt Ip.NoFile None
             (Cli.Saved (Some "token"%string) (Some "laptop"%string))
             (Some (Some "token"%string)) (Some "laptop"%string) [] [] in
  Cli.asked
    (Cli.log (snd (Cli.connectorMode unit (fun _ => None) "9.9.9.9"
                     Cli.other_platform Cli.example_machine (fun _ => true)
                     true true w))) = []
  /\ exists l,
       forallb Cli.idle l = true
       /\ Cli.connectorMode unit (fun _ => None) "9.9.9.9" Cli.other_platform
            Cli.example_machine (fun _ => true) true true w
          = bind (Cli.saveConfig unit true "token" "laptop")
              (fun _ =>
                 bind (Cli.lift_pass unit
                         (Ip.connectorMode unit (fun _ => None) "9.9.9.9" "laptop"))
                   (Cli.after_pass unit Cli.other_platform Cli.example_machine))
              (Cli.add_log w (l ++ [Cli.GetAuthenticated "token" true])).
Proof.
  intros w. split; [reflexivity|].
  apply (refresh_uses_what_is_remembered unit (fun _ => None) "9.9.9.9"
           Cli.other_platform Cli.example_machine (fun _ => true) true w
           "token" "laptop" eq_refl eq_refl);
    first [discriminate | reflexivity].
Defined.

(** The address cannot be fetched: the pass fails, the settings are saved. *)
Lemma settings_are_saved_witness :
  let w := Cli.example_start [Cli.Typed "token"; Cli.Typed "laptop"] in
  Cli.answers w = [Cli.Typed "token"; Cli.Typed "laptop"]
  /\ Cli.config_file
       (snd (Cli.connectorMode unit Cli.example_outage "9.9.9.9"
               Cli.other_platform Cli.example_machine (fun _ => true) true
               false w))
     = Cli.Saved (Some "token"%string) (Some "laptop"%string).
Proof.
  intros w. split; [reflexivity|].
  apply (proj1 (settings_are_saved_before_the_pass unit Cli.example_outage
                  "9.9.9.9" Cli.other_platform Cli.example_machine
                  (fun _ => true) true w "token" "laptop" [] eq_refl eq_refl
                  ltac:(discriminate) ltac:(discriminate) eq_refl eq_refl)).
Defined.

(** Two questions left without an answer, five turns of the loop. *)
Lemma cancelling_witness :
  Forall (eq Cli.Cancelled) [Cli.Cancelled; Cli.Cancelled]
  /\ fst (Cli.main unit Cli.example_sh (fun _ => None) "9.9.9.9"
            Cli.other_platform Cli.example_machine (fun _ => true) true 22 5
            (Cli.example_start [Cli.Cancelled; Cli.Cancelled]))
     <> inr (Some tt).
Proof.
  assert (H : Forall (eq Cli.Cancelled) [Cli.Cancelled; Cli.Cancelled])
    by (repeat constructor).
  split; [exact H|].
  apply (cancelling_never_ends_the_program unit Cli.example_sh (fun _ => None)
           "9.9.9.9" Cli.other_platform Cli.example_machine (fun _ => true)
           true 22 (Cli.example_start [Cli.Cancelled; Cli.Cancelled]) 5 H).
Defined.

(** The address cannot be fetched; [Exit] is chosen at the menu the failed
    pass shows, [Main Menu] at the one that follows. *)
Lemma answer_after_a_failed_pass_witness :
  let w := Cli.example_start
             [Cli.Chose Cli.connector; Cli.Typed "token"; Cli.Typed "laptop";
              Cli.Did Cli.exit_action; Cli.Did Cli.main_menu] in
  let w1 := snd (Cli.mainMenu unit Cli.other_platform Cli.example_machine w) in
  fst (Cli.connectorMode unit Cli.example_outage "9.9.9.9" Cli.other_platform
         Cli.example_machine (fun _ => true) true false w1)
  = inr (Some Cli.exit_action)
  /\ fst (Cli.main_turn unit Cli.example_sh Cli.example_outage "9.9.9.9"
            Cli.other_platform Cli.example_machine (fun _ => true) true 22 w)
     = inr Cli.Continue.
Proof.
  intros w w1. split; [vm_compute; reflexivity|].
  set (w2 := snd (Cli.connectorMode unit Cli.example_outage "9.9.9.9"
                    Cli.other_platform Cli.example_machine (fun _ => true)
                    true false w1)).
  assert (H1 : Cli.mainMenu unit Cli.other_platform Cli.example_machine w
               = (inr (Some Cli.connector), w1)) by (vm_compute; reflexivity).
  assert (H2 : Cli.connectorMode unit Cli.example_outage "9.9.9.9"
                 Cli.other_platform Cli.example_machine (fun _ => true) true
                 false w1 = (inr (Some Cli.exit_action), w2))
    by (vm_compute; reflexivity).
  assert (H3 : Cli.answers w2 = [Cli.Did Cli.main_menu])
    by (vm_compute; reflexivity).
  rewrite (answer_after_a_failed_pass_is_dropped unit Cli.example_sh
             Cli.example_outage "9.9.9.9" Cli.other_platform
             Cli.example_machine (fun _ => true) true 22 w w1 w2
             (Some Cli.exit_action) [] H1 H2 H3).
  reflexivity.
Defined.

(** A refresh that succeeds, then [Retry Current Operation]: the address
    is published once. *)
Lemma retry_after_refresh_witness :
  let w := Cli.mkWorld tt Ip.NoFile None
             (Cli.Saved (Some "token"%string) (Some "laptop"%string))
             (Some (Some "token"%string)) (Some "laptop"%string)
             [Cli.Chose Cli.refresh; Cli.Did Cli.retry] [] in
  let w' := snd (Cli.main_turn unit Cli.example_sh (fun _ => None) "9.9.9.9"
                   Cli.other_platform Cli.example_machine (fun _ => true)
                   true 22 w) in
  Cli.inner (Cli.log w')
  = [Ip.Http Ip.GetDeviceIp; Ip.Console (Ip.CurrentIP "9.9.9.9");
     Ip.Http Ip.GetGists; Ip.Http (Ip.PostGist [("laptop", "9.9.9.9")]);
     Ip.Console Ip.CreatedGist]
  /\ fst (Cli.main_turn unit Cli.example_sh (fun _ => None) "9.9.9.9"
            Cli.other_platform Cli.example_machine (fun _ => true) true 22 w)
     = inr Cli.Continue.
Proof.
  intros w w'. split; [vm_compute; reflexivity|]. clear w'.
  set (w1 := snd (Cli.mainMenu unit Cli.other_platform Cli.example_machine w)).
  set (w2 := snd (Cli.connectorMode unit (fun _ => None) "9.9.9.9"
                    Cli.other_platform Cli.example_machine (fun _ => true)
                    true true w1)).
  assert (H1 : Cli.mainMenu unit Cli.other_platform Cli.example_machine w
               = (inr (Some Cli.refresh), w1)) by (vm_compute; reflexivity).
  assert (H2 : Cli.connectorMode unit (fun _ => None) "9.9.9.9"
                 Cli.other_platform Cli.example_machine (fun _ => true) true
                 true w1 = (inr None, w2))
    by (vm_compute; reflexivity).
  assert (H3 : Cli.answers w2 = [Cli.Did Cli.retry])
    by (vm_compute; reflexivity).
  rewrite (retry_after_refresh_runs_nothing unit Cli.example_sh
             (fun _ => None) "9.9.9.9" Cli.other_platform
             Cli.example_machine (fun _ => true) true 22 w w1 w2
             None [] H1 H2 H3).
  reflexivity.
Defined.

End CliFacts.

(* ================================================================== *)
(** * The gists of an account *)
(* ================================================================== *)

Module GithubFacts.
Import JS.

Lemma find_listed_at {A} (p : A -> bool) (g : A) (n : nat) (l : list A) :
  find p l = None -> p g = true ->
  find p (firstn n l ++ g :: skipn n l) = Some g.
Proof.
  revert n. induction l as [|a l IH]; intros n Hl Hg.
  - destruct n; cbn; now rewrite Hg.
  - cbn in Hl. destruct (p a) eqn:Ha; [discriminate|].
    destruct n; cbn.
    + now rewrite Hg.
    + rewrite Ha. now apply IH.
Qed.

Lemma find_listed_at_some {A} (p : A -> bool) (g : A) (n : nat) (l : list A) :
  find p l <> None -> find p (firstn n l ++ g :: skipn n l) <> None.
Proof.
  revert n. induction l as [|a l IH]; intros n Hl; [contradiction|].
  cbn in Hl. destruct n; cbn.
  - destruct (p g); [discriminate|]. exact Hl.
  - destruct (p a); [discriminate|]. now apply IH.
Qed.

Lemma In_firstn {A} (g : A) (n : nat) (l : list A) :
  In g (firstn n l) -> In g l.
Proof.
  intros H. rewrite <- (firstn_skipn n l). apply in_or_app. now left.
Qed.

Lemma In_skipn {A} (g : A) (n : nat) (l : list A) :
  In g (skipn n l) -> In g l.
Proof.
  intros H. rewrite <- (firstn_skipn n l). apply in_or_app. now right.
Qed.

Lemma length_listed_at (g : Github.Gist) (n : nat) (l : list Github.Gist) :
  length (Github.listed_at n g l) = S (length l).
Proof.
  unfold Github.listed_at. rewrite length_app. cbn [length].
  rewrite <- (firstn_skipn n l) at 3. rewrite length_app. lia.
Qed.

Lemma In_listed_at_old {A} (x g : A) (n : nat) (l : list A) :
  In x l -> In x (firstn n l ++ g :: skipn n l).
Proof.
  intros H. rewrite <- (firstn_skipn n l) in H.
  apply in_app_or in H. apply in_or_app.
  destruct H; [left|right; right]; assumption.
Qed.

Lemma In_listed_at {A} (g : A) (n : nat) (l : list A) :
  In g (firstn n l ++ g :: skipn n l).
Proof. apply in_or_app. right. now left. Qed.

Section Account.

Variable outage : Github.Request -> option string.
Variable new_id : list Github.Gist -> string.
Variable slot : list Github.Gist -> nat.

Local Abbreviation findOrCreateGist :=
  (Github.findOrCreateGist outage new_id slot).
Local Abbreviation createGist := (Github.createGist outage new_id slot).

(** A run of [findOrCreateGist] that returns: the listing went through,
    and either a gist of it qualified, or the one gist was created. *)
Lemma findOrCreateGist_run (w w' : Github.World) (id : string) (isNew : bool) :
  findOrCreateGist w = (inr (id, isNew), w') ->
  outage Github.ListGists = None
  /\ match find Github.is_whitelist (Github.gists w) with
     | Some g =>
         id = Github.id g /\ isNew = false /\ Github.gists w' = Github.gists w
     | None =>
         let g := Github.mkGist (new_id (Github.gists w))
                    (Some "SSH Whitelist IPs - Managed by SSH Whitelist Manager"%string)
                    [("config.json"%string, JSONText [])] in
         id = Github.id g /\ isNew = true
         /\ Github.gists w'
            = Github.listed_at (slot (Github.gists w)) g (Github.gists w)
     end.
Proof.
  unfold Github.findOrCreateGist, Github.list_gists, Github.create_gist,
    try_catch, bind, ret, throw.
  destruct (outage Github.ListGists) as [m|]; [discriminate|].
  cbn [Github.gists].
  destruct (find Github.is_whitelist (Github.gists w)) as [g|].
  - intros [= <- <- <-]. auto.
  - destruct (outage (Github.CreateGist _ _)) as [m|]; [discriminate|].
    intros [= <- <- <-]. cbn. auto.
Qed.

Lemma is_whitelist_has_file (g : Github.Gist) :
  Github.is_whitelist g = true -> Github.has_file "config.json" g = true.
Proof.
  unfold Github.is_whitelist, Github.GIST_FILENAME.
  now intros [H _]%andb_true_iff.
Qed.

(** What [findOrCreateGist] returns names a gist of the account that holds
    [config.json] and carries the marker in its description; that gist was
    there before, or it is the one gist added, with the empty document; and
    the gist is one [ip.js] would pick up as well, if it comes first. *)
Theorem findOrCreateGist_returns_a_whitelist (w w' : Github.World)
    (id : string) (isNew : bool) :
  findOrCreateGist w = (inr (id, isNew), w') ->
  (exists g, In g (Github.gists w') /\ Github.id g = id
             /\ Github.is_whitelist g = true
             /\ find Github.is_whitelist (Github.gists w') = Some g)
  /\ (if isNew
      then find Github.is_whitelist (Github.gists w) = None
           /\ exists n g,
                Github.gists w' = Github.listed_at n g (Github.gists w)
                /\ Github.files g = [("config.json"%string, JSONText [])]
      else Github.gists w' = Github.gists w)
  /\ Github.configGist (Github.gists w') <> None.
Proof.
  intros Hrun. destruct (findOrCreateGist_run w w' id isNew Hrun) as [_ H].
  destruct (find Github.is_whitelist (Github.gists w)) as [g|] eqn:Hfind.
  - destruct H as (-> & -> & Hw'). rewrite Hw'.
    destruct (find_some _ _ Hfind) as [Hin Hg].
    split; [exists g; auto|]. split; [reflexivity|].
    unfold Github.configGist. intros Hnone.
    pose proof (find_none _ _ Hnone g Hin) as Hno.
    rewrite (is_whitelist_has_file g Hg) in Hno. discriminate Hno.
  - cbv zeta in H. destruct H as (-> & -> & Hw'). rewrite Hw'.
    set (g := Github.mkGist _ _ _).
    assert (Hg : Github.is_whitelist g = true) by reflexivity.
    split; [|split].
    + exists g. split; [apply In_listed_at|]. split; [reflexivity|].
      split; [exact Hg|]. now apply find_listed_at.
    + split; [reflexivity|]. exists (slot (Github.gists w)), g.
      split; reflexivity.
    + unfold Github.configGist. intros Hnone.
      pose proof (find_none _ _ Hnone g (In_listed_at _ _ _)) as Hno.
      discriminate Hno.
Qed.

(** Asking again finds the same gist and creates nothing. *)
Theorem findOrCreateGist_is_idempotent (w w' : Github.World) (id : string)
    (isNew : bool) :
  findOrCreateGist w = (inr (id, isNew), w') ->
  findOrCreateGist w'
  = (inr (id, false),
     Github.mkWorld (Github.gists w') (Github.trace w' ++ [Github.ListGists])).
Proof.
  intros Hrun.
  destruct (findOrCreateGist_run w w' id isNew Hrun) as [Hlist H].
  assert (Hfind : exists g, find Github.is_whitelist (Github.gists w') = Some g
                            /\ Github.id g = id).
  { destruct (find Github.is_whitelist (Github.gists w)) as [g|] eqn:Hfind.
    - destruct H as (-> & _ & ->). eauto.
    - cbv zeta in H. destruct H as (-> & _ & ->). eexists.
      split; [now apply find_listed_at|reflexivity]. }
  destruct Hfind as (g & Hfind & <-).
  unfold Github.findOrCreateGist, Github.list_gists, try_catch, bind, ret.
  rewrite Hlist. cbn [Github.gists]. rewrite Hfind. reflexivity.
Qed.

Lemma find_listed_at_none {A} (p : A -> bool) (g : A) (n : nat) (l : list A) :
  find p l = None -> p g = false ->
  find p (firstn n l ++ g :: skipn n l) = None.
Proof.
  intros Hl Hg.
  destruct (find p (firstn n l ++ g :: skipn n l)) as [x|] eqn:Hfind;
    [|reflexivity].
  destruct (find_some _ _ Hfind) as [Hin Hx].
  apply in_app_or in Hin. destruct Hin as [Hin|[->|Hin]].
  - apply In_firstn in Hin. pose proof (find_none _ _ Hl x Hin). congruence.
  - congruence.
  - apply In_skipn in Hin. pose proof (find_none _ _ Hl x Hin). congruence.
Qed.

(** The two programs do not share a store by themselves: a gist that
    [createGist] of [ip.js] made is not one [findOrCreateGist] of [tui.js]
    accepts, so in an account without a whitelist gist [tui.js] makes its
    own, empty, next to it. *)
Theorem findOrCreateGist_ignores_the_gist_of_ip_js (w w1 w2 : Github.World)
    (domain : Identifier) (ip : Address) (id1 id2 : string) (isNew : bool) :
  find Github.is_whitelist (Github.gists w) = None ->
  createGist domain ip w = (inr id1, w1) ->
  findOrCreateGist w1 = (inr (id2, isNew), w2) ->
  isNew = true
  /\ length (Github.gists w2) = 2 + length (Github.gists w)
  /\ exists g1 g2,
       In g1 (Github.gists w2) /\ In g2 (Github.gists w2)
       /\ Github.files g1 = [("config.json"%string, JSONText [(domain, ip)])]
       /\ Github.files g2 = [("config.json"%string, JSONText [])]
       /\ Github.id g2 = id2.
Proof.
  intros Hnone Hc Hf.
  assert (Hw1 : exists n g1,
             Github.gists w1 = Github.listed_at n g1 (Github.gists w)
             /\ Github.is_whitelist g1 = false
             /\ Github.files g1
                = [("config.json"%string, JSONText [(domain, ip)])]).
  { unfold Github.createGist, Github.create_gist, try_catch, bind, ret, throw
      in Hc.
    destruct (outage (Github.CreateGist _ _)) as [m|]; [discriminate|].
    injection Hc as _ <-. cbn [Github.gists].
    do 2 eexists. split; [reflexivity|]. split; reflexivity. }
  destruct Hw1 as (n & g1 & Hw1 & Hg1 & Hfiles1).
  assert (Hnone1 : find Github.is_whitelist (Github.gists w1) = None)
    by (rewrite Hw1; now apply find_listed_at_none).
  destruct (findOrCreateGist_run w1 w2 id2 isNew Hf) as [_ H].
  rewrite Hnone1 in H. cbv zeta in H. destruct H as (-> & -> & Hw2).
  split; [reflexivity|]. split.
  - rewrite Hw2, Hw1, !length_listed_at. reflexivity.
  - exists g1. eexists. rewrite Hw2.
    split; [rewrite Hw1; apply In_listed_at_old, In_listed_at|].
    split; [apply In_listed_at|]. split; [exact Hfiles1|].
    split; reflexivity.
Qed.

End Account.

(** An empty account, a listing that shows new gists first. *)
Lemma findOrCreateGist_witness :
  let run := Github.findOrCreateGist (fun _ => None) (fun _ => "b1946ac9") (fun _ => 0) in
  fst (run (Github.mkWorld [] [])) = inr ("b1946ac9"%string, true)
  /\ Github.configGist (Github.gists (snd (run (Github.mkWorld [] [])))) <> None.
Proof.
  intros run. split; [reflexivity|].
  apply (findOrCreateGist_returns_a_whitelist (fun _ => None)
           (fun _ => "b1946ac9"%string) (fun _ => 0) (Github.mkWorld [] [])
           (snd (run (Github.mkWorld [] []))) "b1946ac9" true eq_refl).
Defined.

(** The same account, asked twice. *)
Lemma findOrCreateGist_twice_witness :
  let run := Github.findOrCreateGist (fun _ => None) (fun _ => "b1946ac9") (fun _ => 0) in
  fst (run (Github.mkWorld [] [])) = inr ("b1946ac9"%string, true)
  /\ fst (run (snd (run (Github.mkWorld [] [])))) = inr ("b1946ac9"%string, false).
Proof.
  intros run. split; [reflexivity|].
  exact (f_equal fst
           (findOrCreateGist_is_idempotent (fun _ => None)
              (fun _ => "b1946ac9"%string) (fun _ => 0) (Github.mkWorld [] [])
              (snd (run (Github.mkWorld [] []))) "b1946ac9" true eq_refl)).
Defined.

(** [ip.js] publishes first, [tui.js] is set up next. *)
Lemma two_stores_witness :
  let new_id := fun l : list Github.Gist =>
                  match l with [] => "b1946ac9"%string | _ => "591785b7"%string end in
  let w1 := snd (Github.createGist (fun _ => None) new_id (fun _ => 0)
                   "laptop" "9.9.9.9" (Github.mkWorld [] [])) in
  let r := Github.findOrCreateGist (fun _ => None) new_id (fun _ => 0) w1 in
  fst r = inr ("591785b7"%string, true)
  /\ length (Github.gists (snd r)) = 2.
Proof.
  intros new_id w1 r. split; [reflexivity|].
  apply (findOrCreateGist_ignores_the_gist_of_ip_js (fun _ => None) new_id
           (fun _ => 0) (Github.mkWorld [] []) w1 (snd r) "laptop" "9.9.9.9"
           "b1946ac9" "591785b7" true eq_refl eq_refl eq_refl).
Defined.

End GithubFacts.

(* ================================================================== *)
(** * tui.js: the server node *)
(* ================================================================== *)

Module TuiServerFacts.
Import JS Ufw.

(** ** Computations that always throw *)

Section Throws.

Context {W : Type}.

Lemma throws_bind_l {A B} (m : M W A) (k : A -> M W B) :
  (forall w, exists e, fst (m w) = inl e) ->
  forall w, exists e, fst (bind m k w) = inl e.
Proof.
  intros Hm w. unfold bind. destruct (Hm w) as (e & He).
  destruct (m w) as [[e'|a] w1]; [cbn; eauto|discriminate He].
Qed.

Lemma throws_bind_r {A B} (m : M W A) (k : A -> M W B) :
  (forall a w, exists e, fst (k a w) = inl e) ->
  forall w, exists e, fst (bind m k w) = inl e.
Proof.
  intros Hk w. unfold bind. destruct (m w) as [[e'|a] w1]; [cbn; eauto|apply Hk].
Qed.

Lemma throws_try_catch {A} (m : M W A) (h : Exn -> M W A) :
  (forall w, exists e, fst (m w) = inl e) ->
  (forall e0 w, exists e, fst (h e0 w) = inl e) ->
  forall w, exists e, fst (try_catch m h w) = inl e.
Proof.
  intros Hm Hh w. unfold try_catch. destruct (Hm w) as (e & He).
  destruct (m w) as [[e'|a] w1]; [apply Hh|discriminate He].
Qed.

End Throws.

Section Program.

Variable Machine : Type.
Variable sh : TuiServer.Command -> Machine -> Exit * Machine.
Variable outage : TuiServer.Request -> option string.
Variable selects : nat -> nat.
Variable ip_match : string -> option Address.

Local Abbreviation World := (TuiServer.World Machine).
Local Abbreviation updateRules :=
  (TuiServer.updateRules Machine sh outage selects ip_match).
Local Abbreviation dollar := (TuiServer.dollar Machine sh).

Local Abbreviation rules_kept := (@TuiServer.rules_kept Machine).

Lemma rules_kept_refl (w : World) : rules_kept w w.
Proof. repeat split. Qed.

Lemma rules_kept_trans (a b c : World) :
  rules_kept a b -> rules_kept b c -> rules_kept a c.
Proof. intros (H1 & H2 & H3) (H4 & H5 & H6). repeat split; congruence. Qed.

Local Abbreviation quiet := (Cli.framed rules_kept).

Lemma quiet_bind {A B} (m : M World A) (k : A -> M World B) :
  quiet m -> (forall a, quiet (k a)) -> quiet (bind m k).
Proof. apply CliFacts.framed_bind, rules_kept_trans. Qed.

Lemma quiet_try_catch {A} (m : M World A) (h : Exn -> M World A) :
  quiet m -> (forall e, quiet (h e)) -> quiet (try_catch m h).
Proof. apply CliFacts.framed_try_catch, rules_kept_trans. Qed.

Lemma quiet_ret {A} (a : A) : quiet (@ret World A a).
Proof. apply CliFacts.framed_ret, rules_kept_refl. Qed.

Lemma quiet_throw {A} (e : Exn) : quiet (@throw World A e).
Proof. apply CliFacts.framed_throw, rules_kept_refl. Qed.

Lemma quiet_lift {A} (r : Exn + A) : quiet (@lift World A r).
Proof. apply CliFacts.framed_lift, rules_kept_refl. Qed.

Lemma quiet_try_finally {A} (m : M World A) (f : M World unit) :
  quiet m -> quiet f -> quiet (Tui.try_finally m f).
Proof.
  intros Hm Hf w. unfold Tui.try_finally. specialize (Hm w).
  destruct (m w) as [r w1]. specialize (Hf w1).
  destruct (f w1) as [[e|[]] w2]; cbn in *;
    eapply rules_kept_trans; eassumption.
Qed.

Lemma quiet_term (l : TuiServer.Line) : quiet (TuiServer.term Machine l).
Proof.
  intros w. unfold TuiServer.rules_kept. cbn. rewrite filter_app. cbn.
  rewrite app_nil_r. repeat split.
Qed.

Lemma quiet_request :
  quiet (TuiServer.request Machine outage TuiServer.GistsGet).
Proof.
  intros w. unfold TuiServer.request, TuiServer.rules_kept.
  destruct (outage _); cbn; rewrite filter_app; cbn;
    rewrite app_nil_r; repeat split.
Qed.

Lemma quiet_showMenu (items : list string) :
  quiet (TuiServer.showMenu Machine selects items).
Proof.
  intros w. unfold TuiServer.rules_kept. cbn. rewrite filter_app. cbn.
  rewrite app_nil_r. repeat split.
Qed.

Lemma quiet_set_isUpdating (b : bool) :
  quiet (TuiServer.set_isUpdating Machine b).
Proof. intros w. repeat split. Qed.

Lemma quiet_dollar (c : TuiServer.Command) :
  (forall r, TuiServer.gets_to_work (TuiServer.Shell c r) = false) ->
  quiet (dollar c).
Proof.
  intros Hc w. unfold TuiServer.dollar, TuiServer.rules_kept.
  destruct (sh c (TuiServer.machine w)) as [r s] eqn:Hsh.
  specialize (Hc r).
  destruct r; cbn; rewrite filter_app; cbn [filter]; rewrite Hc, app_nil_r;
    repeat split.
Qed.

Ltac quiet_walk :=
  repeat first
    [ apply quiet_term | apply quiet_request | apply quiet_showMenu
    | apply quiet_set_isUpdating | apply quiet_ret | apply quiet_throw
    | apply quiet_lift
    | apply quiet_dollar; intros ?; reflexivity
    | apply quiet_bind; [|intros ?]
    | apply quiet_try_catch; [|intros ?]
    | match goal with
      | |- quiet (if ?b then _ else _) => destruct b
      | |- quiet (match ?t with None => _ | Some _ => _ end) => destruct t
      | |- quiet (match ?t with TuiServer.apt => _ | TuiServer.apt_get => _ end) =>
          destruct t
      end ].

Lemma quiet_installPackage (packageName : string) :
  quiet (TuiServer.installPackage Machine sh packageName).
Proof.
  unfold TuiServer.installPackage, TuiServer.checkPackageManager. quiet_walk.
Qed.

Lemma quiet_checkAndConfigureSSH :
  quiet (TuiServer.checkAndConfigureSSH Machine sh selects).
Proof.
  unfold TuiServer.checkAndConfigureSSH.
  quiet_walk; apply quiet_installPackage.
Qed.

Lemma quiet_checkAndConfigureUFW :
  quiet (TuiServer.checkAndConfigureUFW Machine sh selects).
Proof.
  unfold TuiServer.checkAndConfigureUFW.
  quiet_walk; apply quiet_installPackage.
Qed.

Lemma quiet_read_gist : quiet (TuiServer.read_gist Machine).
Proof. intros w. repeat split. Qed.

Lemma quiet_get_isUpdating : quiet (TuiServer.get_isUpdating Machine).
Proof. intros w. repeat split. Qed.

(** What follows the call of [getExistingUFWRules] is not run. *)
Lemma quiet_getExistingUFWRules {B}
    (k : list TuiServer.NumberedRule -> M World B) :
  quiet (bind (TuiServer.getExistingUFWRules Machine) k).
Proof. intros w. repeat split. Qed.

(** A pass of the server node of [tui.js] never adds or deletes a rule:
    whatever the machine, the network and the user do, it runs no
    [ufw allow from] and no [ufw delete], does not save the configuration,
    and leaves the gist and the set of addresses it holds to be allowed as
    they were. *)
Theorem updateRules_changes_no_rule (w : World) :
  filter TuiServer.gets_to_work (TuiServer.trace (snd (updateRules w)))
  = filter TuiServer.gets_to_work (TuiServer.trace w)
  /\ TuiServer.currentRules (snd (updateRules w)) = TuiServer.currentRules w
  /\ TuiServer.gist (snd (updateRules w)) = TuiServer.gist w.
Proof.
  revert w. change (quiet updateRules). unfold TuiServer.updateRules.
  apply quiet_bind; [apply quiet_get_isUpdating|]. intros updating.
  destruct updating; [apply quiet_ret|].
  apply quiet_bind; [apply quiet_set_isUpdating|]. intros _.
  apply quiet_try_finally; [|apply quiet_set_isUpdating].
  apply quiet_try_catch; [|intros e; quiet_walk].
  repeat first
    [ apply quiet_getExistingUFWRules
    | apply quiet_checkAndConfigureSSH | apply quiet_checkAndConfigureUFW
    | apply quiet_read_gist
    | apply quiet_term | apply quiet_request | apply quiet_ret
    | apply quiet_throw | apply quiet_lift
    | apply quiet_bind; [|intros ?]
    | match goal with
      | |- quiet (if ?b then _ else _) => destruct b
      end ].
Qed.

(** And it always fails: a pass that is not turned away by the flag ends
    with an exception, the flag released. *)
Theorem updateRules_always_fails (w : World) :
  TuiServer.isUpdating w = false ->
  (exists e, fst (updateRules w) = inl e)
  /\ TuiServer.isUpdating (snd (updateRules w)) = false.
Proof.
  intros Hflag. destruct (updateRules w) as [r w'] eqn:Hrun. cbn [fst snd].
  unfold TuiServer.updateRules in Hrun. unfold bind at 1 in Hrun.
  unfold TuiServer.get_isUpdating at 1 in Hrun. rewrite Hflag in Hrun.
  unfold bind at 1 in Hrun. unfold TuiServer.set_isUpdating at 1 in Hrun.
  match type of Hrun with
  | context [Tui.try_finally (try_catch ?b ?h) ?f ?w1] =>
      assert (Hthrows : forall v, exists e, fst (try_catch b h v) = inl e);
      [|unfold Tui.try_finally in Hrun; destruct (Hthrows w1) as (e & He);
        destruct (try_catch b h w1) as [[e'|a] w2]; [|discriminate He];
        cbn in Hrun; injection Hrun as <- <-]
  end.
  - apply throws_try_catch.
    + apply throws_bind_r; intros _.
      apply throws_bind_r; intros ssh_ok.
      apply throws_bind_r; intros ok.
      destruct ok; cbn [negb]; [|intros v; eexists; reflexivity].
      do 4 (apply throws_bind_r; intros ?).
      apply throws_bind_l. intros v. eexists. reflexivity.
    + intros e0. apply throws_bind_r. intros _ v. eexists. reflexivity.
  - split; [eauto|reflexivity].
Qed.

End Program.

(** A machine where everything is in place and every command succeeds,
    and a gist with one entry. *)
Lemma updateRules_always_fails_witness :
  let sh := fun (c : TuiServer.Command) (m : unit) =>
              (match c with
               | TuiServer.systemctl_is_active_ssh => Exit0 "active"
               | TuiServer.ufw_status => Exit0 "Status: active  22/tcp ALLOW Anywhere"
               | _ => Exit0 ""
               end, m) in
  let w := TuiServer.mkWorld tt (JSONText [("laptop", "9.9.9.9")]) false [] 0 [] in
  fst (TuiServer.updateRules unit sh (fun _ => None) (fun _ => 0)
         (fun _ => None) w)
  = inl (Error "getExistingUFWRules is not defined")
  /\ TuiServer.isUpdating
       (snd (TuiServer.updateRules unit sh (fun _ => None) (fun _ => 0)
               (fun _ => None) w)) = false.
Proof.
  intros sh w. split; [reflexivity|].
  apply (updateRules_always_fails unit sh (fun _ => None) (fun _ => 0)
           (fun _ => None) w eq_refl).
Defined.

End TuiServerFacts.

(* ================================================================== *)
(** * tui.js: the system checks of the server node *)
(* ================================================================== *)

Module TuiChecksFacts.
Import JS Ufw.

Section Checks.

Variable Machine : Type.
Variable sh : TuiServer.Command -> Machine -> Exit * Machine.
Variable selects : nat -> nat.

Local Abbreviation World := (TuiServer.World Machine).

Lemma skipn_length_app {A} (l l' : list A) : skipn (length l) (l ++ l') = l'.
Proof. induction l; cbn; auto. Qed.

Ltac run_paths :=
  repeat match goal with
    | |- context [sh ?c ?m] =>
        let s := fresh "s" in destruct (sh c m) as [[?|?] s]; cbn
    | |- context [Nat.eqb (selects ?n) 0] =>
        destruct (Nat.eqb (selects n) 0) eqn:?; cbn
    | |- context [Cli.includes ?a ?b] =>
        destruct (Cli.includes a b) eqn:?; cbn
    end.

Ltac close_path :=
  rewrite <- ?app_assoc; rewrite skipn_length_app; cbn;
  repeat match goal with
    | H : Nat.eqb _ 0 = _ |- _ => rewrite H
    end;
  reflexivity.

(** [checkAndConfigureSSH] installs nothing unasked: each command that
    updates the package lists or installs a package runs while the last
    menu shown was answered with [Yes]. *)
Theorem checkAndConfigureSSH_asks_before_it_installs (w : World) :
  TuiServer.consented false
    (TuiServer.added (TuiServer.checkAndConfigureSSH Machine sh selects) w)
  = true.
Proof.
  unfold TuiServer.added, TuiServer.checkAndConfigureSSH,
    TuiServer.installPackage, TuiServer.checkPackageManager,
    TuiServer.dollar, TuiServer.showMenu, TuiServer.term, TuiServer.emit,
    try_catch, bind, ret, throw.
  cbn. run_paths; close_path.
Qed.

(** [checkAndConfigureUFW] installs nothing and does not switch the
    firewall on unasked, and it switches the firewall on only as the next
    command after a [ufw allow ssh] that succeeded. *)
Theorem checkAndConfigureUFW_asks_and_allows_ssh_first (w : World) :
  TuiServer.consented false
    (TuiServer.added (TuiServer.checkAndConfigureUFW Machine sh selects) w)
  = true
  /\ TuiServer.ssh_allowed_first false
       (TuiServer.added (TuiServer.checkAndConfigureUFW Machine sh selects) w)
     = true.
Proof.
  unfold TuiServer.added, TuiServer.checkAndConfigureUFW,
    TuiServer.installPackage, TuiServer.checkPackageManager,
    TuiServer.dollar, TuiServer.showMenu, TuiServer.term, TuiServer.emit,
    try_catch, bind, ret, throw.
  cbn. run_paths; split; close_path.
Qed.

End Checks.

End TuiChecksFacts.

(* ================================================================== *)
(** * tui.js: connectors set up by the wizard *)
(* ================================================================== *)

Module TuiSetupFacts.
Import JS.

(** The wizard stores the name of the machine as [identifier]; the
    connector reads [domain].  So every connector the wizard set up
    publishes under the one key [undefined]: of two machines with different
    identifiers, the second overwrites the address of the first, and
    neither identifier gets an entry. *)
Theorem wizard_connectors_share_one_key (FW : Type) (fw1 fw2 : FW)
    (token1 token2 gistId id1 id2 now1 now2 : string) (ip1 ip2 : Address)
    (d : Doc) :
  ip1 <> ""%string -> ip2 <> ""%string ->
  let config1 := TuiSetup.as_read_by_updateIP
                   (TuiSetup.setupWizard_config false token1 gistId (Some id1)
                      None now1) in
  let config2 := TuiSetup.as_read_by_updateIP
                   (TuiSetup.setupWizard_config false token2 gistId (Some id2)
                      None now2) in
  let w1 := snd (Tui.updateIP FW (fun _ => None) ip1 config1
                   (Tui.mkWorld fw1 (JSONText d) "" false [])) in
  let w2 := snd (Tui.updateIP FW (fun _ => None) ip2 config2
                   (Tui.mkWorld fw2 (Tui.gist w1) "" false [])) in
  exists published,
    Tui.gist w2 = JSONText published
    /\ prop published "undefined" = Some ip2
    /\ forall k, k <> "undefined"%string -> prop published k = prop d k.
Proof.
  intros H1 H2 config1 config2 w1 w2.
  apply String.eqb_neq in H1, H2.
  exists (set_prop (set_prop d "undefined" ip1) "undefined" ip2).
  split; [|split].
  - subst w2 w1 config1 config2.
    unfold Tui.updateIP, Tui.try_finally, try_catch, bind, ret, lift,
      Tui.get_isUpdating, Tui.set_isUpdating, Tui.term, Tui.emit, Tui.request,
      Tui.get_lastIP, Tui.set_lastIP, Tui.read_gist, Tui.store_gist.
    cbn. rewrite H1. cbn. rewrite H2. reflexivity.
  - rewrite DocFacts.prop_set_prop. now rewrite String.eqb_refl.
  - intros k Hk. apply String.eqb_neq in Hk.
    rewrite !DocFacts.prop_set_prop, Hk. reflexivity.
Qed.

(** Two machines, [home-laptop] and [office-desktop], and an empty gist. *)
Lemma wizard_connectors_witness :
  let config1 := TuiSetup.as_read_by_updateIP
                   (TuiSetup.setupWizard_config false "token" "b1946ac9"
                      (Some "home-laptop") None "2024-01-01T00:00:00.000Z") in
  let config2 := TuiSetup.as_read_by_updateIP
                   (TuiSetup.setupWizard_config false "token" "b1946ac9"
                      (Some "office-desktop") None "2024-01-02T00:00:00.000Z") in
  let w1 := snd (Tui.updateIP unit (fun _ => None) "1.1.1.1" config1
                   (Tui.mkWorld tt (JSONText []) "" false [])) in
  let w2 := snd (Tui.updateIP unit (fun _ => None) "2.2.2.2" config2
                   (Tui.mkWorld tt (Tui.gist w1) "" false [])) in
  Tui.gist w2 = JSONText [("undefined", "2.2.2.2")]
  /\ exists published,
       Tui.gist w2 = JSONText published
       /\ prop published "undefined" = Some "2.2.2.2"
       /\ forall k, k <> "undefined"%string -> prop published k = prop [] k.
Proof.
  intros config1 config2 w1 w2. split; [reflexivity|].
  apply (wizard_connectors_share_one_key unit tt tt "token" "token" "b1946ac9"
           "home-laptop" "office-desktop" "2024-01-01T00:00:00.000Z"
           "2024-01-02T00:00:00.000Z" "1.1.1.1" "2.2.2.2" []);
    discriminate.
Defined.

End TuiSetupFacts.
